(** * chick: extended DNS check, a model of [chick.go] and its properties

    The program parses its command line, validates and resolves the target,
    starts one [lookupIP] goroutine per kept address, collects the records
    they send and prints them.  Everything the program asks of the outside
    (kong, the resolver, the two HTTP services, the JSON decoder, the colour
    functions) is gathered in a [World]; the goroutines of [lookupIP] and of
    [main] are modelled as threads of a step function that a schedule
    interleaves. *)

From Stdlib Require Import String Ascii List ZArith Bool Arith Lia.
From Stdlib.Strings Require Import Byte.
From Stdlib Require Import DecimalString.
From Stdlib Require Import Permutation Sorted.
Import ListNotations.

Local Open Scope list_scope.
Local Open Scope string_scope.

Module Chick.

(** ** Values *)

(** A Go [error], seen through the text [Error()] returns. *)
Definition error := string.

(** The pair [(v, err)] a Go call returns, where the callers below look at
    [v] only when [err == nil]. *)
Inductive res (A : Type) : Type :=
| Ok (a : A)
| Fail (err : error).
Arguments Ok {A} a.
Arguments Fail {A} err.

(** [net.IP] is a byte slice; [nil] is [None] where the code tests for it. *)
Definition net_IP := list byte.

(** [time.Duration], in nanoseconds. *)
Definition Duration := Z.

Record CLI := {
  CLI_IPv4 : bool;
  CLI_IPv6 : bool;
  CLI_Timeout : Duration;
  CLI_ILineTimeout : Duration;
  CLI_Target : string
}.

Record IPInfo := {
  IPInfo_IP : string;
  IPInfo_Country : string;
  IPInfo_Org : string
}.

Record ILineServer := { ServerName : string }.

Record ILineInfo := {
  ILineInfo_Status : string;
  ILineInfo_Response : list ILineServer
}.

Record Result := {
  Result_IP : string;
  Result_PTR : list string;
  Result_IPInfo : option IPInfo;
  Result_ILine : list string;
  Result_IsIPv6 : bool;
  Result_Error : option error
}.

Record Request := { req_method : string; req_url : string }.

(** What [kong.Parse] does with the command line.  kong is a library outside
    this repository: when the command line does not parse, or asks for the
    help, [kong.Parse] ends the process itself, and what it then writes to
    standard output and the status it exits with are the library's own and
    are taken here as given; otherwise it returns with [CLI] filled in. *)
Inductive KongOutcome :=
| KongParseError (code : Z)
| KongHelp (usage : string) (code : Z)
| KongParsed (cli : CLI).

(** ** The outside world *)

Record World := {
  kong_Parse : KongOutcome;
  net_ParseIP : string -> option net_IP;
  net_LookupHost : string -> res (list string);
  net_LookupIP : string -> res (list net_IP);
  net_LookupAddr : string -> res (list string);
  IP_String : net_IP -> string;
  http_NewRequestWithContext : string -> string -> res Request;
  httpClient_Do : Request -> res string;
  ilineClient_Do : Request -> res string;
  json_Decode_IPInfo : string -> res IPInfo;
  ioutil_ReadAll : string -> res string;
  json_Unmarshal_ILineInfo : string -> res ILineInfo;
  cyan : string -> string;
  yellow : string -> string;
  green : string -> string;
  red : string -> string;
  magenta : string -> string
}.

(** ** The two HTTP lookups *)

Definition getIPInfo (w : World) (ip : string) : res IPInfo :=
  match http_NewRequestWithContext w "GET" ("https://ipinfo.io/" ++ ip ++ "/json") with
  | Fail err => Fail err
  | Ok req =>
    match httpClient_Do w req with
    | Fail err => Fail err
    | Ok body =>
      match json_Decode_IPInfo w body with
      | Fail err => Fail err
      | Ok ipInfo => Ok ipInfo
      end
    end
  end.

(** The loop [for _, server := range iLineInfo.Response]. *)
Fixpoint collect_servers (servers : list string) (response : list ILineServer)
  : list string :=
  match response with
  | [] => servers
  | server :: rest => collect_servers (servers ++ [ServerName server])%list rest
  end.

(** Lines 127-142: from the bytes read to the value returned. *)
Definition decode_ILine (w : World) (body : string) : res (list string) :=
  match json_Unmarshal_ILineInfo w body with
  | Fail err => Fail err
  | Ok iLineInfo =>
    if negb (ILineInfo_Status iLineInfo =? "SUCCESS")
    then Fail "failed to get I-line info"
    else Ok (collect_servers [] (ILineInfo_Response iLineInfo))
  end.

Definition getILineInfo (w : World) (ip : string) : res (list string) :=
  let url := "https://bot.ircnet.info/api/i-line?q=" ++ ip in
  match http_NewRequestWithContext w "GET" url with
  | Fail err => Fail err
  | Ok req =>
    match ilineClient_Do w req with
    | Fail err => Fail err
    | Ok resp =>
      match ioutil_ReadAll w resp with
      | Fail err => Fail err
      | Ok body => decode_ILine w body
      end
    end
  end.

(** ** lookupIP: one record, three goroutines and their parent *)

Inductive tid := GPtr | GInfo | GILine | Parent.

Inductive field := FIP | FPTR | FIPInfo | FILine | FIsIPv6 | FError.

(** What a thread does to the shared [result] and to the two wait groups and
    the channel; [SetError msg] is the assignment [result.Error = msg]. *)
Inductive access :=
| Read (f : field)
| Write (f : field)
| SetError (msg : error)
| WgInternalDone
| WgInternalWait
| ChanSend
| WgDone.

Definition event := (tid * access)%type.

(** Program points of the goroutine of lines 151-159. *)
Inductive ptr_pc :=
| PtrStart
| PtrReturned (r : res (list string))
| PtrDefer
| PtrEnd.

(** Program points of the goroutines of lines 161-173 and 175-187, which are
    the same code over another lookup, field and message: [AppFormat] is
    reached when [result.Error != nil] held and the arguments of [Errorf],
    among them [result.Error] again, are still to be evaluated; [AppAssign]
    holds the error built, still to be assigned. *)
Inductive app_pc (A : Type) :=
| AppStart
| AppReturned (r : res A)
| AppFormat (err : error)
| AppAssign (msg : error)
| AppDefer
| AppEnd.
Arguments AppStart {A}.
Arguments AppReturned {A} r.
Arguments AppFormat {A} err.
Arguments AppAssign {A} msg.
Arguments AppDefer {A}.
Arguments AppEnd {A}.

(** Program points of [lookupIP] itself after the three [go] statements. *)
Inductive parent_pc := ParentWait | ParentSend | ParentDefer | ParentEnd.

Record Task := {
  result : Result;
  wgInternal : nat;
  ptr : ptr_pc;
  info : app_pc IPInfo;
  iline : app_pc (list string);
  parent : parent_pc;
  resultChan : list Result;
  wg_Done : nat;
  trace : list event
}.

Definition set_PTR (r : Result) (names : list string) : Result :=
  {| Result_IP := Result_IP r; Result_PTR := names;
     Result_IPInfo := Result_IPInfo r; Result_ILine := Result_ILine r;
     Result_IsIPv6 := Result_IsIPv6 r; Result_Error := Result_Error r |}.

Definition set_IPInfo (r : Result) (ipInfo : IPInfo) : Result :=
  {| Result_IP := Result_IP r; Result_PTR := Result_PTR r;
     Result_IPInfo := Some ipInfo; Result_ILine := Result_ILine r;
     Result_IsIPv6 := Result_IsIPv6 r; Result_Error := Result_Error r |}.

Definition set_ILine (r : Result) (iLine : list string) : Result :=
  {| Result_IP := Result_IP r; Result_PTR := Result_PTR r;
     Result_IPInfo := Result_IPInfo r; Result_ILine := iLine;
     Result_IsIPv6 := Result_IsIPv6 r; Result_Error := Result_Error r |}.

Definition set_Error (r : Result) (msg : error) : Result :=
  {| Result_IP := Result_IP r; Result_PTR := Result_PTR r;
     Result_IPInfo := Result_IPInfo r; Result_ILine := Result_ILine r;
     Result_IsIPv6 := Result_IsIPv6 r; Result_Error := Some msg |}.

Definition with_result (s : Task) (r : Result) (e : event) : Task :=
  {| result := r; wgInternal := wgInternal s; ptr := ptr s; info := info s;
     iline := iline s; parent := parent s; resultChan := resultChan s;
     wg_Done := wg_Done s; trace := (trace s ++ [e])%list |}.

Definition with_event (s : Task) (e : event) : Task :=
  with_result s (result s) e.

Definition internal_Done (s : Task) (t : tid) : Task :=
  {| result := result s; wgInternal := pred (wgInternal s); ptr := ptr s;
     info := info s; iline := iline s; parent := parent s;
     resultChan := resultChan s; wg_Done := wg_Done s;
     trace := (trace s ++ [(t, WgInternalDone)])%list |}.

Definition at_ptr (s : Task) (pc : ptr_pc) : Task :=
  {| result := result s; wgInternal := wgInternal s; ptr := pc; info := info s;
     iline := iline s; parent := parent s; resultChan := resultChan s;
     wg_Done := wg_Done s; trace := trace s |}.

Definition at_info (s : Task) (pc : app_pc IPInfo) : Task :=
  {| result := result s; wgInternal := wgInternal s; ptr := ptr s; info := pc;
     iline := iline s; parent := parent s; resultChan := resultChan s;
     wg_Done := wg_Done s; trace := trace s |}.

Definition at_iline (s : Task) (pc : app_pc (list string)) : Task :=
  {| result := result s; wgInternal := wgInternal s; ptr := ptr s; info := info s;
     iline := pc; parent := parent s; resultChan := resultChan s;
     wg_Done := wg_Done s; trace := trace s |}.

Definition at_parent (s : Task) (pc : parent_pc) : Task :=
  {| result := result s; wgInternal := wgInternal s; ptr := ptr s; info := info s;
     iline := iline s; parent := pc; resultChan := resultChan s;
     wg_Done := wg_Done s; trace := trace s |}.

(** [%v] of an error value. *)
Definition fmt_v (e : option error) : string :=
  match e with
  | Some msg => msg
  | None => "<nil>"
  end.

(** Lines 151-159, one step at a time. *)
Definition step_ptr (w : World) (ip : string) (s : Task) : option Task :=
  match ptr s with
  | PtrStart => Some (at_ptr s (PtrReturned (net_LookupAddr w ip)))
  | PtrReturned (Fail err) =>
      let msg := "error looking up PTR records: " ++ err in
      Some (at_ptr (with_result s (set_Error (result s) msg) (GPtr, SetError msg))
                   PtrDefer)
  | PtrReturned (Ok names) =>
      Some (at_ptr (with_result s (set_PTR (result s) names) (GPtr, Write FPTR))
                   PtrDefer)
  | PtrDefer => Some (at_ptr (internal_Done s GPtr) PtrEnd)
  | PtrEnd => None
  end.

(** Lines 161-173 and 175-187, one step at a time: [what] is the text after
    ["error fetching "], [store] the assignment of the [else] branch. *)
Definition step_app {A : Type} (t : tid) (what : string) (f : field)
    (call : res A) (store : Result -> A -> Result)
    (pc : app_pc A) (s : Task) : option (app_pc A * Task) :=
  match pc with
  | AppStart => Some (AppReturned call, s)
  | AppReturned (Ok v) =>
      Some (AppDefer, with_result s (store (result s) v) (t, Write f))
  | AppReturned (Fail err) =>
      match Result_Error (result s) with
      | Some _ => Some (AppFormat err, with_event s (t, Read FError))
      | None =>
          Some (AppAssign ("error fetching " ++ what ++ ": " ++ err),
                with_event s (t, Read FError))
      end
  | AppFormat err =>
      Some (AppAssign (fmt_v (Result_Error (result s)) ++ "; error fetching "
                         ++ what ++ ": " ++ err),
            with_event s (t, Read FError))
  | AppAssign msg =>
      Some (AppDefer, with_result s (set_Error (result s) msg) (t, SetError msg))
  | AppDefer => Some (AppEnd, internal_Done s t)
  | AppEnd => None
  end.

Definition step_info (w : World) (ip : string) (s : Task) : option Task :=
  match step_app GInfo "IP info" FIPInfo (getIPInfo w ip) set_IPInfo (info s) s with
  | Some (pc, s') => Some (at_info s' pc)
  | None => None
  end.

Definition step_iline (w : World) (ip : string) (s : Task) : option Task :=
  match step_app GILine "I-line info" FILine (getILineInfo w ip) set_ILine (iline s) s with
  | Some (pc, s') => Some (at_iline s' pc)
  | None => None
  end.

Definition all_fields : list field := [FIP; FPTR; FIPInfo; FILine; FIsIPv6; FError].

(** Lines 189-190 and the deferred [wg.Done()]: [Wait] returns only when the
    counter is zero; the send copies the whole record. *)
Definition step_parent (s : Task) : option Task :=
  match parent s with
  | ParentWait =>
      match wgInternal s with
      | O => Some (at_parent (with_event s (Parent, WgInternalWait)) ParentSend)
      | S _ => None
      end
  | ParentSend =>
      Some {| result := result s; wgInternal := wgInternal s; ptr := ptr s;
              info := info s; iline := iline s; parent := ParentDefer;
              resultChan := (resultChan s ++ [result s])%list;
              wg_Done := wg_Done s;
              trace := (trace s ++ map (fun f => (Parent, Read f)) all_fields
                          ++ [(Parent, ChanSend)])%list |}
  | ParentDefer =>
      Some {| result := result s; wgInternal := wgInternal s; ptr := ptr s;
              info := info s; iline := iline s; parent := ParentEnd;
              resultChan := resultChan s; wg_Done := S (wg_Done s);
              trace := (trace s ++ [(Parent, WgDone)])%list |}
  | ParentEnd => None
  end.

Definition step (w : World) (ip : string) (t : tid) (s : Task) : option Task :=
  match t with
  | GPtr => step_ptr w ip s
  | GInfo => step_info w ip s
  | GILine => step_iline w ip s
  | Parent => step_parent s
  end.

(** A schedule names the thread that runs next; naming a thread that is
    blocked or has returned leaves the state as it is. *)
Fixpoint run (w : World) (ip : string) (sched : list tid) (s : Task) : Task :=
  match sched with
  | [] => s
  | t :: rest =>
      run w ip rest (match step w ip t s with Some s' => s' | None => s end)
  end.

(** Lines 145-149: the record, the counter at 3 and the three goroutines
    started. *)
Definition spawn (ip : string) (isIPv6 : bool) : Task :=
  {| result := {| Result_IP := ip; Result_PTR := []; Result_IPInfo := None;
                  Result_ILine := []; Result_IsIPv6 := isIPv6;
                  Result_Error := None |};
     wgInternal := 3; ptr := PtrStart; info := AppStart; iline := AppStart;
     parent := ParentWait; resultChan := []; wg_Done := 0; trace := [] |}.

Definition lookupIP (w : World) (ip : string) (isIPv6 : bool) (sched : list tid)
  : Task :=
  run w ip sched (spawn ip isIPv6).

(** No thread can move. *)
Definition finished (w : World) (ip : string) (s : Task) : bool :=
  match step w ip GPtr s, step w ip GInfo s, step w ip GILine s, step w ip Parent s with
  | None, None, None, None => true
  | _, _, _, _ => false
  end.

(** ** Start of main: validation, resolution, the family filter *)

(** The calls to the resolver made before any goroutine of [lookupIP]. *)
Inductive Call :=
| CallParseIP (s : string)
| CallLookupHost (host : string)
| CallLookupIP (host : string).

Definition is_dns (c : Call) : bool :=
  match c with
  | CallParseIP _ => false
  | CallLookupHost _ => true
  | CallLookupIP _ => true
  end.

Definition validateInput (w : World) (input : string)
  : list Call * option error :=
  match net_ParseIP w input with
  | Some _ => ([CallParseIP input], None)
  | None =>
    match net_LookupHost w input with
    | Fail err =>
        ([CallParseIP input; CallLookupHost input],
         Some ("invalid domain or IP address: " ++ err))
    | Ok _ => ([CallParseIP input; CallLookupHost input], None)
    end
  end.

(** Lines 252 and 258-268: the addresses of the target. *)
Definition resolve (w : World) (target : string)
  : list Call * res (list net_IP) :=
  match net_ParseIP w target with
  | Some ip => ([CallParseIP target], Ok ([] ++ [ip])%list)
  | None => ([CallParseIP target; CallLookupIP target], net_LookupIP w target)
  end.

(** [net.IP.To4] of Go's standard library: a 4-byte slice is returned as it
    is, a 16-byte slice that starts with ten zero bytes and two [0xff] gives
    its last four bytes, anything else gives [nil]. *)
Definition isZeros (p : list byte) : bool := forallb (Byte.eqb x00) p.

Definition To4 (ip : net_IP) : option net_IP :=
  if (length ip =? 4)%nat then Some ip
  else if ((length ip =? 16)%nat && isZeros (firstn 10 ip)
           && Byte.eqb (nth 10 ip x00) xff && Byte.eqb (nth 11 ip x00) xff)%bool
  then Some (firstn 4 (skipn 12 ip))
  else None.

(** Line 272. *)
Definition isIPv6_of (ip : net_IP) : bool :=
  match To4 ip with
  | None => true
  | Some _ => false
  end.

(** The condition of line 273. *)
Definition keeps (cli : CLI) (isIPv6 : bool) : bool :=
  ((CLI_IPv4 cli && negb isIPv6) || (CLI_IPv6 cli && isIPv6)
   || (negb (CLI_IPv4 cli) && negb (CLI_IPv6 cli)))%bool.

(** What the loop of lines 270-278 builds: the counter, the wait group and
    the goroutines started, each with the arguments it is given. *)
Record Launch := {
  totalIPs : nat;
  wg : nat;
  started : list (string * bool)
}.

Definition launch_one (w : World) (cli : CLI) (l : Launch) (ip : net_IP) : Launch :=
  let isIPv6 := isIPv6_of ip in
  if keeps cli isIPv6
  then {| totalIPs := S (totalIPs l); wg := S (wg l);
          started := (started l ++ [(IP_String w ip, isIPv6)])%list |}
  else l.

Definition launch (w : World) (cli : CLI) (ips : list net_IP) : Launch :=
  fold_left (launch_one w cli) ips {| totalIPs := 0; wg := 0; started := [] |}.

(** ** Output *)

Definition nl : string := String (ascii_of_nat 10) "".
Definition cr : string := String (ascii_of_nat 13) "".

(** One entry per call that writes to standard output: a piece of text, or
    [printResult] of a record. *)
Inductive Printed :=
| PrintText (s : string)
| PrintResult (r : Result).

Definition recordType (result : Result) : string :=
  if Result_IsIPv6 result then "AAAA" else "A".

Definition printResult (w : World) (result : Result) : string :=
  cyan w (recordType result ++ " Record") ++ ": " ++ yellow w (Result_IP result) ++ nl
  ++ (if (0 <? length (Result_PTR result))%nat
      then "  " ++ cyan w "PTR Records" ++ ": "
           ++ green w (String.concat ", " (Result_PTR result)) ++ nl
      else "")
  ++ match Result_IPInfo result with
     | Some ipInfo =>
         "  " ++ cyan w "Country" ++ ": " ++ green w (IPInfo_Country ipInfo) ++ nl
         ++ "  " ++ cyan w "Organization" ++ ": " ++ green w (IPInfo_Org ipInfo) ++ nl
     | None => ""
     end
  ++ (if (0 <? length (Result_ILine result))%nat
      then "  " ++ cyan w "I-Line Servers" ++ ": "
           ++ green w (String.concat ", " (Result_ILine result)) ++ nl
      else "")
  ++ match Result_Error result with
     | Some err => "  " ++ red w "Error" ++ ": " ++ red w err ++ nl
     | None => ""
     end
  ++ nl.

Definition shown (w : World) (p : Printed) : string :=
  match p with
  | PrintText s => s
  | PrintResult r => printResult w r
  end.

Definition decimal (n : nat) : string := NilEmpty.string_of_uint (Nat.to_uint n).

Fixpoint strings_Repeat (s : string) (count : nat) : string :=
  match count with
  | O => ""
  | S n => s ++ strings_Repeat s n
  end.

Definition interrupt_notice : string := nl ++ "Interrupt received, shutting down..." ++ nl.
Definition cancel_notice : string := nl ++ "Operation cancelled" ++ nl.
Definition clear_line : string := cr ++ strings_Repeat " " 60 ++ cr.
Definition progress_line (processed total : nat) : string :=
  cr ++ "Checking records... " ++ decimal processed ++ "/" ++ decimal total ++ " completed".

(** ** main from the first goroutine on *)

Inductive handler_pc := HandlerWaits | HandlerPrinted | HandlerEnd.
Inductive select_case := CaseCtxDone | CaseDone | CaseTicker.

(** Where main is: before line 293; about to evaluate the [select]; parked
    in it, no case being ready; or woken by the channel of case [c], which
    is then the case that runs. *)
Inductive coord_pc :=
| CoordAnnounce
| CoordSelect
| CoordParked
| CoordWoken (c : select_case).

Inductive proc := Running | Exited (code : Z).

(** The threads of the process: thread [t] of the [i]-th [lookupIP], the
    goroutine of lines 280-283, the one of lines 286-291, the signal handler
    of lines 246-250, the runtime timer behind the ticker, and main itself;
    for main the label says which of the ready cases the [select] takes
    when it finds some ready. *)
Inductive mtid :=
| InLookup (i : nat) (t : tid)
| Waiter
| Collector
| Handler
| Tick
| Main (c : select_case).

Record Process := {
  lookups : list (string * Task);
  main_totalIPs : nat;
  main_resultChan : list Result;
  resultChan_closed : bool;
  results : list Result;
  done_closed : bool;
  mainCtx_cancelled : bool;
  ticker_ready : bool;
  handler : handler_pc;
  coord : coord_pc;
  stdout : list Printed;
  status : proc
}.

Definition resultChan_cap : nat := 10.

(** A channel of the [select] becomes ready: a parked main is woken by it
    and will run its case. *)
Definition wake (pc : coord_pc) (c : select_case) : coord_pc :=
  match pc with
  | CoordParked => CoordWoken c
  | _ => pc
  end.

Definition with_lookups (p : Process) (ls : list (string * Task))
    (sent : list Result) : Process :=
  {| lookups := ls; main_totalIPs := main_totalIPs p;
     main_resultChan := (main_resultChan p ++ sent)%list;
     resultChan_closed := resultChan_closed p; results := results p;
     done_closed := done_closed p; mainCtx_cancelled := mainCtx_cancelled p;
     ticker_ready := ticker_ready p; handler := handler p; coord := coord p;
     stdout := stdout p; status := status p |}.

Definition close_resultChan (p : Process) : Process :=
  {| lookups := lookups p; main_totalIPs := main_totalIPs p;
     main_resultChan := main_resultChan p; resultChan_closed := true;
     results := results p; done_closed := done_closed p;
     mainCtx_cancelled := mainCtx_cancelled p; ticker_ready := ticker_ready p;
     handler := handler p; coord := coord p; stdout := stdout p;
     status := status p |}.

Definition receive (p : Process) (r : Result) (rest : list Result) : Process :=
  {| lookups := lookups p; main_totalIPs := main_totalIPs p;
     main_resultChan := rest; resultChan_closed := resultChan_closed p;
     results := (results p ++ [r])%list; done_closed := done_closed p;
     mainCtx_cancelled := mainCtx_cancelled p; ticker_ready := ticker_ready p;
     handler := handler p; coord := coord p; stdout := stdout p;
     status := status p |}.

Definition close_done (p : Process) : Process :=
  {| lookups := lookups p; main_totalIPs := main_totalIPs p;
     main_resultChan := main_resultChan p;
     resultChan_closed := resultChan_closed p; results := results p;
     done_closed := true; mainCtx_cancelled := mainCtx_cancelled p;
     ticker_ready := ticker_ready p; handler := handler p;
     coord := wake (coord p) CaseDone; stdout := stdout p;
     status := status p |}.

Definition handler_prints (p : Process) : Process :=
  {| lookups := lookups p; main_totalIPs := main_totalIPs p;
     main_resultChan := main_resultChan p;
     resultChan_closed := resultChan_closed p; results := results p;
     done_closed := done_closed p; mainCtx_cancelled := mainCtx_cancelled p;
     ticker_ready := ticker_ready p; handler := HandlerPrinted;
     coord := coord p;
     stdout := (stdout p ++ [PrintText interrupt_notice])%list;
     status := status p |}.

Definition handler_cancels (p : Process) : Process :=
  {| lookups := lookups p; main_totalIPs := main_totalIPs p;
     main_resultChan := main_resultChan p;
     resultChan_closed := resultChan_closed p; results := results p;
     done_closed := done_closed p; mainCtx_cancelled := true;
     ticker_ready := ticker_ready p; handler := HandlerEnd;
     coord := wake (coord p) CaseCtxDone; stdout := stdout p;
     status := status p |}.

Definition tick_buffered (p : Process) : Process :=
  {| lookups := lookups p; main_totalIPs := main_totalIPs p;
     main_resultChan := main_resultChan p;
     resultChan_closed := resultChan_closed p; results := results p;
     done_closed := done_closed p; mainCtx_cancelled := mainCtx_cancelled p;
     ticker_ready := true; handler := handler p; coord := coord p;
     stdout := stdout p; status := status p |}.

Definition tick_received (p : Process) : Process :=
  {| lookups := lookups p; main_totalIPs := main_totalIPs p;
     main_resultChan := main_resultChan p;
     resultChan_closed := resultChan_closed p; results := results p;
     done_closed := done_closed p; mainCtx_cancelled := mainCtx_cancelled p;
     ticker_ready := ticker_ready p; handler := handler p;
     coord := CoordWoken CaseTicker; stdout := stdout p; status := status p |}.

Definition main_parks (p : Process) : Process :=
  {| lookups := lookups p; main_totalIPs := main_totalIPs p;
     main_resultChan := main_resultChan p;
     resultChan_closed := resultChan_closed p; results := results p;
     done_closed := done_closed p; mainCtx_cancelled := mainCtx_cancelled p;
     ticker_ready := ticker_ready p; handler := handler p;
     coord := CoordParked; stdout := stdout p; status := status p |}.

Definition main_prints (p : Process) (out : list Printed) (tick : bool)
    (st : proc) : Process :=
  {| lookups := lookups p; main_totalIPs := main_totalIPs p;
     main_resultChan := main_resultChan p;
     resultChan_closed := resultChan_closed p; results := results p;
     done_closed := done_closed p; mainCtx_cancelled := mainCtx_cancelled p;
     ticker_ready := tick; handler := handler p; coord := CoordSelect;
     stdout := (stdout p ++ out)%list; status := st |}.

Fixpoint replace_nth {A : Type} (i : nat) (l : list A) (a : A) : list A :=
  match l, i with
  | [], _ => []
  | _ :: rest, O => a :: rest
  | x :: rest, S j => x :: replace_nth j rest a
  end.

(** A thread of one [lookupIP]; its send waits for room in the channel. *)
Definition step_lookup (w : World) (i : nat) (t : tid) (p : Process)
  : option Process :=
  match nth_error (lookups p) i with
  | None => None
  | Some (ip, tk) =>
    match t, parent tk with
    | Parent, ParentSend =>
        if (length (main_resultChan p) <? resultChan_cap)%nat
        then match step w ip Parent tk with
             | Some tk' =>
                 Some (with_lookups p (replace_nth i (lookups p) (ip, tk')) [result tk])
             | None => None
             end
        else None
    | _, _ =>
        match step w ip t tk with
        | Some tk' => Some (with_lookups p (replace_nth i (lookups p) (ip, tk')) [])
        | None => None
        end
    end
  end.

(** [wg.Wait()] of line 281 returns when every [lookupIP] has run its
    deferred [wg.Done()]. *)
Definition wg_zero (ls : list (string * Task)) : bool :=
  forallb (fun a => (0 <? wg_Done (snd a))%nat) ls.

Definition step_waiter (p : Process) : option Process :=
  if (wg_zero (lookups p) && negb (resultChan_closed p))%bool
  then Some (close_resultChan p)
  else None.

(** Lines 286-291: [range] takes the next record, and ends once the channel
    is closed and empty; [close(done)] wakes a parked main. *)
Definition step_collector (p : Process) : option Process :=
  match main_resultChan p with
  | r :: rest => Some (receive p r rest)
  | [] =>
      if (resultChan_closed p && negb (done_closed p))%bool
      then Some (close_done p)
      else None
  end.

(** Lines 246-250: the signal arrives and the notice is printed; then the
    context is cancelled, which wakes a parked main. *)
Definition step_handler (p : Process) : option Process :=
  match handler p with
  | HandlerWaits => Some (handler_prints p)
  | HandlerPrinted => Some (handler_cancels p)
  | HandlerEnd => None
  end.

(** The timer of line 294 fires: the tick goes to a main parked in the
    [select], or into the one-slot buffer of [ticker.C], or is dropped. *)
Definition step_tick (p : Process) : option Process :=
  match coord p with
  | CoordParked => Some (tick_received p)
  | _ => if ticker_ready p then None else Some (tick_buffered p)
  end.

Definition ready (p : Process) (c : select_case) : bool :=
  match c with
  | CaseCtxDone => mainCtx_cancelled p
  | CaseDone => done_closed p
  | CaseTicker => ticker_ready p
  end.

(** The body of case [c], lines 300-311; [tick] is what is left in the
    buffer of the ticker. *)
Definition run_case (w : World) (c : select_case) (tick : bool) (p : Process)
  : Process :=
  match c with
  | CaseCtxDone => main_prints p [PrintText cancel_notice] tick (Exited 0)
  | CaseDone =>
      main_prints p (PrintText clear_line :: map PrintResult (results p)) tick
                  (Exited 0)
  | CaseTicker =>
      main_prints p
        [PrintText (progress_line (length (results p)) (main_totalIPs p))]
        tick Running
  end.

(** Line 293, then the loop of lines 298-313.  A [select] that finds cases
    ready runs one of them, [c]; one that finds none parks main until a
    channel wakes it, and the case of that channel runs. *)
Definition step_main (w : World) (c : select_case) (p : Process)
  : option Process :=
  match coord p with
  | CoordAnnounce =>
      Some (main_prints p [PrintText (yellow w "Checking records... Please wait")]
                        (ticker_ready p) Running)
  | CoordSelect =>
      if (ready p CaseCtxDone || ready p CaseDone || ready p CaseTicker)%bool
      then if ready p c
           then Some (run_case w c
                        (match c with
                         | CaseTicker => false
                         | _ => ticker_ready p
                         end) p)
           else None
      else Some (main_parks p)
  | CoordParked => None
  | CoordWoken c' => Some (run_case w c' (ticker_ready p) p)
  end.

(** Once main has returned the process is gone, and with it every
    goroutine. *)
Definition pstep (w : World) (m : mtid) (p : Process) : option Process :=
  match status p with
  | Exited _ => None
  | Running =>
      match m with
      | InLookup i t => step_lookup w i t p
      | Waiter => step_waiter p
      | Collector => step_collector p
      | Handler => step_handler p
      | Tick => step_tick p
      | Main c => step_main w c p
      end
  end.

Fixpoint prun (w : World) (sched : list mtid) (p : Process) : Process :=
  match sched with
  | [] => p
  | m :: rest =>
      prun w rest (match pstep w m p with Some p' => p' | None => p end)
  end.

Definition boot (l : Launch) : Process :=
  {| lookups := map (fun a => (fst a, spawn (fst a) (snd a))) (started l);
     main_totalIPs := totalIPs l; main_resultChan := [];
     resultChan_closed := false; results := []; done_closed := false;
     mainCtx_cancelled := false; ticker_ready := false; handler := HandlerWaits;
     coord := CoordAnnounce; stdout := []; status := Running |}.

(** A process with no [lookupIP], none of the goroutines of lines 280-291
    and no ticker: only main and, from line 246 on, the signal handler. *)
Definition unlaunched (h : handler_pc) (cancelled : bool) (out : list Printed)
    (st : proc) : Process :=
  {| lookups := []; main_totalIPs := 0; main_resultChan := [];
     resultChan_closed := false; results := []; done_closed := false;
     mainCtx_cancelled := cancelled; ticker_ready := false; handler := h;
     coord := CoordAnnounce; stdout := out; status := st |}.

(** A process that ended at line 231 or 235, before line 246: no goroutine
    was ever started, and the signal handler, which does not exist yet, has
    printed nothing and cancelled nothing. *)
Definition gone (out : list Printed) (code : Z) : Process :=
  unlaunched HandlerWaits false out (Exited code).

(** Where main is once [net.LookupIP] has failed: before line 265 or before
    line 266. *)
Inductive abort_pc := AbortPrint | AbortExit.

(** Lines 263-266 when [net.LookupIP] fails.  The handler of lines 246-250
    is alive and no other goroutine is: main prints [line] and calls
    [ctx.Exit(1)], and a signal that comes meanwhile has its notice printed,
    and the context cancelled, before or after [line].  The schedule names
    the thread that runs next; the threads that do not exist yet do
    nothing. *)
Fixpoint abort (line : Printed) (sched : list mtid) (h : handler_pc)
    (cancelled : bool) (pc : abort_pc) (out : list Printed) : Process :=
  match sched with
  | [] => unlaunched h cancelled out Running
  | Handler :: rest =>
      match h with
      | HandlerWaits =>
          abort line rest HandlerPrinted cancelled pc
                (out ++ [PrintText interrupt_notice])%list
      | HandlerPrinted => abort line rest HandlerEnd true pc out
      | HandlerEnd => abort line rest HandlerEnd cancelled pc out
      end
  | Main _ :: rest =>
      match pc with
      | AbortPrint => abort line rest h cancelled AbortExit (out ++ [line])%list
      | AbortExit => unlaunched h cancelled out (Exited 1)
      end
  | _ :: rest => abort line rest h cancelled pc out
  end.

(** What lines 231-278 come to: the process has ended before the handler
    exists, or [net.LookupIP] has failed and main is about to print the
    error and leave, or the goroutines of [lookupIP] are started.  On the
    last path a signal that comes before line 278 is taken as handled after
    it: nothing that main does between lines 246 and 278 prints or looks at
    the context. *)
Inductive Startup :=
| StartExit (calls : list Call) (out : list Printed) (code : Z)
| StartAborts (calls : list Call) (line : Printed)
| StartLaunched (calls : list Call) (cli : CLI) (l : Launch).

(** Lines 231-278.  When [kong.Parse] ends the process the output and the
    status are the library's; [ctx.Exit(1)] of lines 235 and 266 ends the
    process with status 1. *)
Definition startup (w : World) : Startup :=
  match kong_Parse w with
  | KongParseError code => StartExit [] [] code
  | KongHelp usage code => StartExit [] [PrintText usage] code
  | KongParsed cli =>
    let (calls1, invalid) := validateInput w (CLI_Target cli) in
    match invalid with
    | Some err =>
        StartExit calls1 [PrintText (red w "Error" ++ ": " ++ red w err ++ nl)] 1
    | None =>
      let (calls2, ips) := resolve w (CLI_Target cli) in
      match ips with
      | Fail err =>
          StartAborts (calls1 ++ calls2)%list
            (PrintText (red w "Error looking up IP for domain" ++ ": "
                          ++ red w err ++ nl))
      | Ok ips => StartLaunched (calls1 ++ calls2)%list cli (launch w cli ips)
      end
    end
  end.

Definition main (w : World) (sched : list mtid) : Process :=
  match startup w with
  | StartExit _ out code => gone out code
  | StartAborts _ line => abort line sched HandlerWaits false AbortPrint []
  | StartLaunched _ _ l => prun w sched (boot l)
  end.

Definition exit_code (p : Process) : option Z :=
  match status p with
  | Exited code => Some code
  | Running => None
  end.

(** The records that were printed. *)
Fixpoint rendered (out : list Printed) : list Result :=
  match out with
  | [] => []
  | PrintResult r :: rest => r :: rendered rest
  | PrintText _ :: rest => rendered rest
  end.

(** ** Predicates the statements use *)

(** [strings.Contains s frag]. *)
Fixpoint contains (frag s : string) : bool :=
  (String.prefix frag s
   || match s with
      | EmptyString => false
      | String _ rest => contains frag rest
      end)%bool.

(** The three sub-lookups have finished: each goroutine has run its deferred
    [wgInternal.Done()]. *)
Definition joined (s : Task) : Prop :=
  ptr s = PtrEnd /\ info s = AppEnd /\ iline s = AppEnd.

Definition ptr_live (pc : ptr_pc) : nat :=
  match pc with
  | PtrEnd => 0
  | _ => 1
  end.

Definition app_live {A : Type} (pc : app_pc A) : nat :=
  match pc with
  | AppEnd => 0
  | _ => 1
  end.

(** Steps a thread still has before it returns. *)
Definition ptr_fuel (pc : ptr_pc) : nat :=
  match pc with
  | PtrStart => 3
  | PtrReturned _ => 2
  | PtrDefer => 1
  | PtrEnd => 0
  end.

Definition app_fuel {A : Type} (pc : app_pc A) : nat :=
  match pc with
  | AppStart => 5
  | AppReturned _ => 4
  | AppFormat _ => 3
  | AppAssign _ => 2
  | AppDefer => 1
  | AppEnd => 0
  end.

Definition parent_fuel (pc : parent_pc) : nat :=
  match pc with
  | ParentWait => 3
  | ParentSend => 2
  | ParentDefer => 1
  | ParentEnd => 0
  end.

Definition fuel (s : Task) : nat :=
  ptr_fuel (ptr s) + app_fuel (info s) + app_fuel (iline s) + parent_fuel (parent s).

(** A schedule that names every thread [n] times in turn. *)
Fixpoint rounds (n : nat) : list tid :=
  match n with
  | O => []
  | S k => GPtr :: GInfo :: GILine :: Parent :: rounds k
  end.

(** The counter of [wgInternal] is the number of goroutines still to call
    [Done]. *)
Definition counts_ok (s : Task) : Prop :=
  wgInternal s = ptr_live (ptr s) + app_live (info s) + app_live (iline s).

Definition parent_ok (s : Task) : Prop :=
  match parent s with
  | ParentWait => resultChan s = [] /\ wg_Done s = 0
  | ParentSend => wgInternal s = 0 /\ resultChan s = [] /\ wg_Done s = 0
  | ParentDefer => wgInternal s = 0 /\ resultChan s = [result s] /\ wg_Done s = 0
  | ParentEnd => wgInternal s = 0 /\ resultChan s = [result s] /\ wg_Done s = 1
  end.

Definition identity_ok (ip : string) (isIPv6 : bool) (s : Task) : Prop :=
  Result_IP (result s) = ip /\ Result_IsIPv6 (result s) = isIPv6.

Definition is_parent (e : event) : bool :=
  match fst e with
  | Parent => true
  | _ => false
  end.

Definition not_parent (e : event) : bool := negb (is_parent e).

Definition own_field (t : tid) (f : field) : bool :=
  match t, f with
  | GPtr, FPTR => true
  | GInfo, FIPInfo => true
  | GILine, FILine => true
  | _, _ => false
  end.

(** What each thread may do to the record: a goroutine writes the field of
    its own lookup or assigns [Error]; the goroutines of the two HTTP lookups
    read [Error]; the parent only reads. *)
Definition permitted (e : event) : bool :=
  match e with
  | (Parent, Read _) => true
  | (Parent, WgInternalWait) => true
  | (Parent, ChanSend) => true
  | (Parent, WgDone) => true
  | (Parent, _) => false
  | (t, Write f) => own_field t f
  | (GPtr, Read _) => false
  | (_, Read FError) => true
  | (_, Read _) => false
  | (_, SetError _) => true
  | (_, WgInternalDone) => true
  | (_, _) => false
  end.

(** Every step of a goroutine comes before every step of the parent. *)
Fixpoint parent_last (tr : list event) : bool :=
  match tr with
  | [] => true
  | e :: rest => if is_parent e then forallb is_parent rest else parent_last rest
  end.

(** No read of [Error] before [wgInternal.Wait()] has returned. *)
Fixpoint reads_wait_for_join (tr : list event) : bool :=
  match tr with
  | [] => true
  | (Parent, WgInternalWait) :: _ => true
  | (_, Read FError) :: _ => false
  | _ :: rest => reads_wait_for_join rest
  end.

(** The events that come before the send. *)
Fixpoint before_send (tr : list event) : list event :=
  match tr with
  | [] => []
  | (Parent, ChanSend) :: _ => []
  | e :: rest => e :: before_send rest
  end.

Definition trace_ok (s : Task) : Prop :=
  forallb permitted (trace s) = true
  /\ parent_last (trace s) = true
  /\ match parent s with
     | ParentWait => forallb not_parent (trace s) = true
     | _ => In (Parent, WgInternalWait) (trace s)
     end
  /\ (ptr s = PtrEnd -> In (GPtr, WgInternalDone) (trace s))
  /\ (info s = AppEnd -> In (GInfo, WgInternalDone) (trace s))
  /\ (iline s = AppEnd -> In (GILine, WgInternalDone) (trace s)).



Arguments contains : simpl never.

(** The claim of the specification about the failure field, for a record
    whose three sub-lookups failed with [e1], [e2] and [e3]: the message
    holds the three fragments. *)
Definition three_fragments (e1 e2 e3 : error) (r : Result) : bool :=
  match Result_Error r with
  | None => false
  | Some msg =>
      (contains ("error looking up PTR records: " ++ e1) msg
       && contains ("error fetching IP info: " ++ e2) msg
       && contains ("error fetching I-line info: " ++ e3) msg)%bool
  end.

(** What the process printed besides records. *)
Definition chatter (w : World) (p : Printed) : Prop :=
  p = PrintText (yellow w "Checking records... Please wait")
  \/ p = PrintText interrupt_notice
  \/ p = PrintText cancel_notice
  \/ p = PrintText clear_line
  \/ exists processed total, p = PrintText (progress_line processed total).

(** How main stands: while it runs no record has been printed; it is
    parked only while no case is ready, and woken only by a channel that is
    ready; if it has returned, it returned by the case of [done] or by the
    case of the context, with the cancellation notice printed last and no
    record printed. *)
Definition coord_ok (p : Process) : Prop :=
  match status p with
  | Running =>
      rendered (stdout p) = []
      /\ match coord p with
         | CoordParked =>
             mainCtx_cancelled p = false /\ done_closed p = false
             /\ ticker_ready p = false
         | CoordWoken CaseCtxDone => mainCtx_cancelled p = true
         | CoordWoken CaseDone => done_closed p = true
         | _ => True
         end
  | Exited code =>
      code = 0%Z
      /\ (done_closed p = true
          \/ (mainCtx_cancelled p = true /\ rendered (stdout p) = []
              /\ exists out, stdout p = (out ++ [PrintText cancel_notice])%list))
  end.

(** Main was woken by the cancelled context, or has returned by that case:
    no record has been printed, and the notice is the last thing printed
    once main has returned. *)
Definition leaves_cancelled (p : Process) : Prop :=
  rendered (stdout p) = []
  /\ match status p with
     | Running => coord p = CoordWoken CaseCtxDone
     | Exited code =>
         code = 0%Z
         /\ exists out, stdout p = (out ++ [PrintText cancel_notice])%list
     end.

(** A process that started no [lookupIP]. *)
Definition idle_ok (w : World) (p : Process) : Prop :=
  lookups p = [] /\ main_resultChan p = [] /\ results p = []
  /\ rendered (stdout p) = [] /\ Forall (chatter w) (stdout p)
  /\ (status p = Running \/ status p = Exited 0).

(** The world [w] with another forward resolver. *)
Definition with_dns (w : World)
    (lookupHost : string -> res (list string))
    (lookupIP' : string -> res (list net_IP)) : World :=
  {| kong_Parse := kong_Parse w;
     net_ParseIP := net_ParseIP w;
     net_LookupHost := lookupHost;
     net_LookupIP := lookupIP';
     net_LookupAddr := net_LookupAddr w;
     IP_String := IP_String w;
     http_NewRequestWithContext := http_NewRequestWithContext w;
     httpClient_Do := httpClient_Do w;
     ilineClient_Do := ilineClient_Do w;
     json_Decode_IPInfo := json_Decode_IPInfo w;
     ioutil_ReadAll := ioutil_ReadAll w;
     json_Unmarshal_ILineInfo := json_Unmarshal_ILineInfo w;
     cyan := cyan w; yellow := yellow w; green := green w; red := red w;
     magenta := magenta w |}.

(** The command line does not parse, and [kong.Parse] ends the process with
    status [code]. *)
Definition parse_error (w : World) (code : Z) : Prop :=
  kong_Parse w = KongParseError code.

(** [kong.Parse] ends the process itself with status [code], on a command
    line that does not parse or after the help. *)
Definition kong_exits (w : World) (code : Z) : Prop :=
  parse_error w code \/ exists usage, kong_Parse w = KongHelp usage code.

(** The target of the command line is no address and the resolver does not
    know it as a host. *)
Definition invalid_target (w : World) : Prop :=
  exists cli err,
    kong_Parse w = KongParsed cli
    /\ net_ParseIP w (CLI_Target cli) = None
    /\ net_LookupHost w (CLI_Target cli) = Fail err.

(** The target is no address, the resolver knows it as a host and yet
    fails to give its addresses. *)
Definition resolution_failed (w : World) : Prop :=
  exists cli hosts err,
    kong_Parse w = KongParsed cli
    /\ net_ParseIP w (CLI_Target cli) = None
    /\ net_LookupHost w (CLI_Target cli) = Ok hosts
    /\ net_LookupIP w (CLI_Target cli) = Fail err.


(** The HTTP call of [getILineInfo] for [ip] succeeded and [body] was read
    from the response. *)
Definition served (w : World) (ip body : string) : Prop :=
  exists req resp,
    http_NewRequestWithContext w "GET" ("https://bot.ircnet.info/api/i-line?q=" ++ ip)
      = Ok req
    /\ ilineClient_Do w req = Ok resp
    /\ ioutil_ReadAll w resp = Ok body.

(** ** Sample worlds *)

Definition sample_cli (ipv4 ipv6 : bool) (target : string) : CLI :=
  {| CLI_IPv4 := ipv4; CLI_IPv6 := ipv6; CLI_Timeout := 5000000000%Z;
     CLI_ILineTimeout := 10000000000%Z; CLI_Target := target |}.

(** What [net.ParseIP] gives for ["1.2.3.4"] and for ["::ffff:1.2.3.4"]. *)
Definition ip_1_2_3_4 : net_IP :=
  [x00; x00; x00; x00; x00; x00; x00; x00; x00; x00; xff; xff; x01; x02; x03; x04].

(** ["2001:db8::1"]. *)
Definition ip_2001_db8__1 : net_IP :=
  [x20; x01; x0d; xb8; x00; x00; x00; x00; x00; x00; x00; x00; x00; x00; x00; x01].

Definition dq : string := String (ascii_of_nat 34) "".

(** [{"status":st,"response":[]}]. *)
Definition iline_body (st : string) : string :=
  "{" ++ dq ++ "status" ++ dq ++ ":" ++ dq ++ st ++ dq ++ ","
      ++ dq ++ "response" ++ dq ++ ":[]}".

Definition sample_Unmarshal (body : string) : res ILineInfo :=
  if body =? iline_body "FAIL"
  then Ok {| ILineInfo_Status := "FAIL"; ILineInfo_Response := [] |}
  else if body =? iline_body "SUCCESS"
  then Ok {| ILineInfo_Status := "SUCCESS"; ILineInfo_Response := [] |}
  else if body =? "two servers"
  then Ok {| ILineInfo_Status := "SUCCESS";
             ILineInfo_Response := [ {| ServerName := "irc1.example.net" |};
                                     {| ServerName := "irc2.example.net" |} ] |}
  else Fail "unexpected end of JSON input".

(** A world for the command line [cli] in which the reverse lookup gives
    [ptr_answer], the first service [info_answer] and the second
    [iline_answer]; ["example.com"] has the two sample addresses. *)
Definition sample_world (cli : CLI) (ptr_answer : res (list string))
    (info_answer iline_answer : res string) : World :=
  {| kong_Parse := KongParsed cli;
     net_ParseIP := fun s =>
       if (s =? "1.2.3.4") || (s =? "::ffff:1.2.3.4") then Some ip_1_2_3_4
       else if s =? "2001:db8::1" then Some ip_2001_db8__1
       else None;
     net_LookupHost := fun host =>
       if host =? "example.com" then Ok ["1.2.3.4"; "2001:db8::1"]
       else Fail "lookup: no such host";
     net_LookupIP := fun host =>
       if host =? "example.com" then Ok [ip_1_2_3_4; ip_2001_db8__1]
       else Fail "lookup: no such host";
     net_LookupAddr := fun _ => ptr_answer;
     IP_String := fun ip =>
       match To4 ip with
       | Some _ => "1.2.3.4"
       | None => "2001:db8::1"
       end;
     http_NewRequestWithContext := fun method url =>
       Ok {| req_method := method; req_url := url |};
     httpClient_Do := fun _ => info_answer;
     ilineClient_Do := fun _ => iline_answer;
     json_Decode_IPInfo := fun body =>
       if body =? "example org"
       then Ok {| IPInfo_IP := "1.2.3.4"; IPInfo_Country := "US";
                  IPInfo_Org := "AS1234 Example Org" |}
       else Fail "unexpected EOF";
     ioutil_ReadAll := fun body => Ok body;
     json_Unmarshal_ILineInfo := sample_Unmarshal;
     cyan := fun s => s; yellow := fun s => s; green := fun s => s;
     red := fun s => s; magenta := fun s => s |}.

(** Nothing answers: the three sub-lookups of every address fail. *)
Definition dead_world (cli : CLI) : World :=
  sample_world cli (Fail "no route to host") (Fail "context deadline exceeded")
               (Fail "connection refused").

(** The resolver knows the host ["nowhere.invalid"] and yet fails to give
    its addresses. *)
Definition half_resolved : World :=
  with_dns (dead_world (sample_cli false false "nowhere.invalid"))
           (fun _ => Ok ["192.0.2.1"])
           (fun _ => Fail "lookup: server misbehaving").

(** Every thread of one [lookupIP] named [n] times in a row, in the order
    given. *)
Definition in_turn (n : nat) (order : list tid) : list tid :=
  flat_map (fun t => repeat t n) order.

(** A run on a name with two addresses, up to an interrupt that finds it in
    flight: the record of the first address has been collected, the three
    goroutines of the second have finished but its record is not yet sent,
    and main is parked in its [select].  The handler prints its notice; in
    [interrupted_waiting] it cancels the context at once; in
    [interrupted_printing] the ticker fires first and main is printing the
    progress line, not yet back at its [select], when the context is
    cancelled. *)
Definition two_addresses : World :=
  sample_world (sample_cli false false "example.com") (Ok ["host.example.com"])
               (Ok "example org") (Ok "two servers").

Definition in_flight : list mtid :=
  (Main CaseTicker
   :: map (InLookup 0) (in_turn 5 [GPtr; GInfo; GILine; Parent])
   ++ [Collector]
   ++ map (InLookup 1) (in_turn 5 [GPtr; GInfo; GILine])
   ++ [Main CaseTicker; Handler])%list.

Definition interrupted_waiting : list mtid := (in_flight ++ [Handler])%list.

Definition interrupted_printing : list mtid :=
  (in_flight ++ [Tick; Main CaseTicker; Handler])%list.

(** What can follow before main runs again: the second record is sent and
    collected, the channel and [done] are closed. *)
Definition completed_meanwhile : list mtid :=
  [InLookup 1 Parent; InLookup 1 Parent; InLookup 1 Parent;
   Collector; Waiter; Collector].

(** ** Predicates of the further properties *)

Definition lookup_failed {A : Type} (r : res A) : bool :=
  match r with
  | Fail _ => true
  | Ok _ => false
  end.

(** Whether the lookup of goroutine [t] fails for [ip], and the error it
    then builds when [Error] is nil. *)
Definition failed (w : World) (ip : string) (t : tid) : bool :=
  match t with
  | GPtr => lookup_failed (net_LookupAddr w ip)
  | GInfo => lookup_failed (getIPInfo w ip)
  | GILine => lookup_failed (getILineInfo w ip)
  | Parent => false
  end.

Definition fragment (w : World) (ip : string) (t : tid) : string :=
  match t with
  | GPtr =>
      match net_LookupAddr w ip with
      | Fail err => "error looking up PTR records: " ++ err
      | Ok _ => ""
      end
  | GInfo =>
      match getIPInfo w ip with
      | Fail err => "error fetching IP info: " ++ err
      | Ok _ => ""
      end
  | GILine =>
      match getILineInfo w ip with
      | Fail err => "error fetching I-line info: " ++ err
      | Ok _ => ""
      end
  | Parent => ""
  end.

(** The value of [Error] that holds the fragments of the goroutines [l], in
    that order. *)
Definition message (w : World) (ip : string) (l : list tid) : option error :=
  match l with
  | [] => None
  | _ => Some (String.concat "; " (map (fragment w ip) l))
  end.

(** No goroutine twice, and the one of the reverse lookup, which never
    appends, only in front. *)
Definition shape (l : list tid) : Prop :=
  NoDup l /\ ~ In Parent l /\ ~ In GPtr (tl l).

(** Goroutine [t] has assigned [Error]. *)
Definition assigned (w : World) (ip : string) (s : Task) (t : tid) : Prop :=
  failed w ip t = true
  /\ match t with
     | GPtr => ptr s = PtrDefer \/ ptr s = PtrEnd
     | GInfo => info s = AppDefer \/ info s = AppEnd
     | GILine => iline s = AppDefer \/ iline s = AppEnd
     | Parent => False
     end.

Definition app_error_ok (w : World) (ip : string) (g : tid) {A : Type}
    (call : res A) (pc : app_pc A) (s : Task) : Prop :=
  match pc with
  | AppReturned r => r = call
  | AppFormat err => call = Fail err /\ Result_Error (result s) <> None
  | AppAssign msg =>
      failed w ip g = true
      /\ exists l,
           Some msg = message w ip (l ++ [g])
           /\ shape (l ++ [g])
           /\ forall t, In t l -> assigned w ip s t
  | _ => True
  end.

Definition error_ok (w : World) (ip : string) (s : Task) : Prop :=
  match ptr s with
  | PtrReturned r => r = net_LookupAddr w ip
  | _ => True
  end
  /\ app_error_ok w ip GInfo (getIPInfo w ip) (info s) s
  /\ app_error_ok w ip GILine (getILineInfo w ip) (iline s) s
  /\ exists l,
       Result_Error (result s) = message w ip l
       /\ shape l
       /\ (forall t, In t l -> assigned w ip s t)
       /\ ((exists t, assigned w ip s t) -> l <> []).

Definition app_data_ok {A B : Type} (call : res A) (pc : app_pc A)
    (stored empty : B) (value : A -> B) : Prop :=
  match pc with
  | AppStart => stored = empty
  | AppReturned r => r = call /\ stored = empty
  | AppFormat _ | AppAssign _ => lookup_failed call = true /\ stored = empty
  | AppDefer | AppEnd =>
      stored = match call with
               | Ok v => value v
               | Fail _ => empty
               end
  end.

Definition data_ok (w : World) (ip : string) (s : Task) : Prop :=
  match ptr s with
  | PtrStart => Result_PTR (result s) = []
  | PtrReturned r => r = net_LookupAddr w ip /\ Result_PTR (result s) = []
  | PtrDefer | PtrEnd =>
      Result_PTR (result s)
      = match net_LookupAddr w ip with
        | Ok names => names
        | Fail _ => []
        end
  end
  /\ app_data_ok (getIPInfo w ip) (info s) (Result_IPInfo (result s)) None Some
  /\ app_data_ok (getILineInfo w ip) (iline s) (Result_ILine (result s)) []
                 (fun servers => servers).

(** The calls of [wgInternal.Done()] made so far. *)
Definition internal_dones (tr : list event) : nat :=
  length (filter (fun e => match snd e with
                           | WgInternalDone => true
                           | _ => false
                           end) tr).

(** The [lookupIP] started for [st] is somewhere in one of its runs. *)
Definition runs_of (w : World) (st : string * bool) (a : string * Task) : Prop :=
  fst a = fst st /\ exists sched, snd a = lookupIP w (fst st) (snd st) sched.

Definition sent_records (ls : list (string * Task)) : list Result :=
  flat_map (fun a => resultChan (snd a)) ls.

(** What is in the channel or collected is what the lookups sent; the
    channel holds at most its capacity; it is closed only when every
    [lookupIP] has returned, and [done] only when it is closed and empty. *)
Definition flow_ok (w : World) (l : Launch) (p : Process) : Prop :=
  Forall2 (runs_of w) (started l) (lookups p)
  /\ main_totalIPs p = totalIPs l
  /\ Permutation (results p ++ main_resultChan p) (sent_records (lookups p))
  /\ length (main_resultChan p) <= resultChan_cap
  /\ (resultChan_closed p = true -> wg_zero (lookups p) = true)
  /\ (done_closed p = true ->
      resultChan_closed p = true /\ main_resultChan p = []).

(** What a step of thread [t] of a [lookupIP] puts into the channel. *)
Definition sends (t : tid) (tk : Task) : list Result :=
  match t, parent tk with
  | Parent, ParentSend => [result tk]
  | _, _ => []
  end.

(** The announcement of line 293 and the progress lines of line 311. *)
Definition announcement (w : World) : Printed :=
  PrintText (yellow w "Checking records... Please wait").

Definition progress_lines (total : nat) (ns : list nat) : list Printed :=
  map (fun n => PrintText (progress_line n total)) ns.

(** What the handler has printed. *)
Definition handler_printed (p : Process) : list Printed :=
  match handler p with
  | HandlerWaits => []
  | _ => [PrintText interrupt_notice]
  end.

(** What main has printed before it leaves the loop: nothing before line
    293, then the announcement and one progress line per tick taken, whose
    counts rise and are at most the number of records collected. *)
Definition before_exit (w : World) (p : Process) (out : list Printed) : Prop :=
  match coord p with
  | CoordAnnounce => status p = Running /\ out = []
  | _ =>
      exists ns,
        StronglySorted le ns
        /\ Forall (fun n => n <= length (results p)) ns
        /\ out = announcement w :: progress_lines (main_totalIPs p) ns
  end.

(** What main prints on its way out. *)
Definition ending (p : Process) (e : list Printed) : Prop :=
  match status p with
  | Running => e = []
  | Exited code =>
      code = 0%Z
      /\ ((mainCtx_cancelled p = true /\ e = [PrintText cancel_notice])
          \/ (done_closed p = true
              /\ e = PrintText clear_line :: map PrintResult (results p)))
  end.

(** Standard output is what main printed with the notice of the handler
    somewhere before main's last words; the context is cancelled by the
    handler and by nothing else. *)
Definition output_ok (w : World) (p : Process) : Prop :=
  (mainCtx_cancelled p = true <-> handler p = HandlerEnd)
  /\ exists a b e,
       stdout p = (a ++ handler_printed p ++ b ++ e)%list
       /\ before_exit w p (a ++ b)
       /\ ending p e.

(** A record taken by address and family. *)
Definition key (r : Result) : string * bool := (Result_IP r, Result_IsIPv6 r).

(** The threads [ts] of the [i]-th [lookupIP] in turn, the collector taking
    a record, if one waits, before each. *)
Definition drained (i : nat) (ts : list tid) : list mtid :=
  flat_map (fun t => [Collector; InLookup i t]) ts.

(** A schedule for a process of [k] lookups: each [lookupIP] runs to its
    end, the channel is closed and emptied, [done] is closed and main takes
    its case. *)
Definition to_the_end (k : nat) : list mtid :=
  (flat_map (fun i => drained i (rounds 16)) (seq 0 k)
   ++ Waiter :: repeat Collector (S resultChan_cap)
   ++ [Main CaseDone; Main CaseDone])%list.

(** The [lookupIP] has run its deferred [wg.Done()]. *)
Definition returned (a : string * Task) : bool := (0 <? wg_Done (snd a))%nat.

(** Any thread but main. *)
Definition not_main (m : mtid) : bool :=
  match m with
  | Main _ => false
  | _ => true
  end.

(** Any thread but the signal handler. *)
Definition quiet (m : mtid) : bool :=
  match m with
  | Handler => false
  | _ => true
  end.

(** * Properties *)

(** ** One lookupIP: the invariants of its threads *)

(** Case analysis on the step a thread took. *)
Ltac break_match_in H :=
  match type of H with
  | context [match ?x with _ => _ end] =>
      lazymatch x with
      | context [match _ with _ => _ end] => fail
      | _ => destruct x eqn:?
      end
  end.

Ltac break_step H :=
  unfold step, step_ptr, step_info, step_iline, step_parent, step_app in H;
  repeat break_match_in H;
  try discriminate H; inversion H; subst; clear H.

Ltac unpack :=
  repeat match goal with
         | H : _ /\ _ |- _ => destruct H
         | H : exists _, _ |- _ => destruct H
         end.

Section Task.
Variable w : World.
Variable ip : string.

Lemma run_app (a b : list tid) (s : Task) :
  run w ip (a ++ b) s = run w ip b (run w ip a s).
Proof.
  revert s; induction a as [|t a IH]; intros s; simpl; [reflexivity|apply IH].
Qed.

Lemma run_invariant (P : Task -> Prop) :
  (forall t s s', P s -> step w ip t s = Some s' -> P s') ->
  forall sched s, P s -> P (run w ip sched s).
Proof.
  intros Hstep sched; induction sched as [|t rest IH]; intros s Hs; simpl.
  - exact Hs.
  - apply IH. destruct (step w ip t s) as [s'|] eqn:E; [eapply Hstep; eauto|exact Hs].
Qed.

Lemma counts_parent_step t s s' :
  counts_ok s /\ parent_ok s -> step w ip t s = Some s' -> counts_ok s' /\ parent_ok s'.
Proof.
  unfold counts_ok, parent_ok. intros [Hc Hp] H.
  destruct t; break_step H; simpl in *.
  all: try (rewrite ?Heqp, ?Heqa, ?Heqp0 in *; simpl in *).
  all: try (split; [lia| ]).
  all: try (destruct (parent s); intuition (try lia; try congruence)).
  rewrite H1. reflexivity.
Qed.

Lemma counts_parent_spawn isIPv6 : counts_ok (spawn ip isIPv6) /\ parent_ok (spawn ip isIPv6).
Proof. split; [reflexivity | split; reflexivity]. Qed.

Lemma counts_parent_reachable isIPv6 sched :
  counts_ok (lookupIP w ip isIPv6 sched) /\ parent_ok (lookupIP w ip isIPv6 sched).
Proof.
  unfold lookupIP. apply run_invariant.
  - intros; eapply counts_parent_step; eauto.
  - apply counts_parent_spawn.
Qed.

Lemma live_zero_joined s :
  counts_ok s -> wgInternal s = 0 -> joined s.
Proof.
  unfold counts_ok, joined. intros Hc H0. rewrite H0 in Hc.
  destruct (ptr s), (info s), (iline s); simpl in Hc; try discriminate; auto.
Qed.

Lemma step_fuel t s s' : step w ip t s = Some s' -> fuel s' < fuel s.
Proof.
  intros H. unfold fuel. destruct t; break_step H; simpl;
    rewrite ?Heqp, ?Heqa; simpl; lia.
Qed.

Lemma step_fuel_le t s : fuel (match step w ip t s with Some s' => s' | None => s end) <= fuel s.
Proof.
  destruct (step w ip t s) eqn:E; [apply step_fuel in E; lia | lia].
Qed.

Lemma finished_stuck s t : finished w ip s = true -> step w ip t s = None.
Proof.
  unfold finished. intros H.
  destruct (step w ip GPtr s) eqn:E1; [discriminate|].
  destruct (step w ip GInfo s) eqn:E2; [discriminate|].
  destruct (step w ip GILine s) eqn:E3; [discriminate|].
  destruct (step w ip Parent s) eqn:E4; [discriminate|].
  destruct t; assumption.
Qed.

Lemma finished_run s sched : finished w ip s = true -> run w ip sched s = s.
Proof.
  intros H. induction sched as [|t rest IH]; simpl; [reflexivity|].
  rewrite (finished_stuck s t H). exact IH.
Qed.

Lemma run_cons t rest s :
  run w ip (t :: rest) s
  = run w ip rest (match step w ip t s with Some s' => s' | None => s end).
Proof. reflexivity. Qed.

Lemma run_fuel sched : forall s, fuel (run w ip sched s) <= fuel s.
Proof.
  induction sched as [|t rest IH]; intros s; simpl; [lia|].
  etransitivity; [apply IH|apply step_fuel_le].
Qed.

Lemma round_fuel s :
  finished w ip s = false -> fuel (run w ip (rounds 1) s) < fuel s.
Proof.
  intros H. change (rounds 1) with [GPtr; GInfo; GILine; Parent].
  rewrite run_cons.
  destruct (step w ip GPtr s) as [s1|] eqn:E1.
  { apply step_fuel in E1. pose proof (run_fuel [GInfo; GILine; Parent] s1). lia. }
  rewrite run_cons.
  destruct (step w ip GInfo s) as [s2|] eqn:E2.
  { apply step_fuel in E2. pose proof (run_fuel [GILine; Parent] s2). lia. }
  rewrite run_cons.
  destruct (step w ip GILine s) as [s3|] eqn:E3.
  { apply step_fuel in E3. pose proof (run_fuel [Parent] s3). lia. }
  rewrite run_cons.
  destruct (step w ip Parent s) as [s4|] eqn:E4.
  { apply step_fuel in E4. exact E4. }
  unfold finished in H. rewrite E1, E2, E3, E4 in H. discriminate.
Qed.

Lemma rounds_finish n : forall s, fuel s <= n -> finished w ip (run w ip (rounds n) s) = true.
Proof.
  induction n as [|n IH]; intros s Hn.
  - destruct (finished w ip s) eqn:F; [exact F|].
    apply round_fuel in F. lia.
  - destruct (finished w ip s) eqn:F.
    + rewrite finished_run by exact F. exact F.
    + change (rounds (S n)) with (rounds 1 ++ rounds n)%list. rewrite run_app.
      apply IH. apply round_fuel in F. lia.
Qed.

Lemma parent_last_quiet tr l :
  forallb not_parent tr = true -> parent_last (tr ++ l) = parent_last l.
Proof.
  induction tr as [|e tr IH]; simpl; [reflexivity|].
  unfold not_parent at 1. intros H. apply andb_true_iff in H as [He Htr].
  apply negb_true_iff in He. rewrite He. auto.
Qed.

Lemma parent_last_more tr l :
  parent_last tr = true -> forallb is_parent l = true -> parent_last (tr ++ l) = true.
Proof.
  induction tr as [|e tr IH]; simpl; intros Htr Hl.
  - destruct l as [|e l]; simpl in *; [reflexivity|].
    apply andb_true_iff in Hl as [He Hl]. rewrite He. exact Hl.
  - destruct (is_parent e); [|auto].
    rewrite forallb_app, Htr, Hl. reflexivity.
Qed.

Lemma parent_event_seen tr a :
  forallb not_parent tr = true -> ~ In (Parent, a) tr.
Proof.
  intros H Hin. rewrite forallb_forall in H. apply H in Hin. discriminate.
Qed.

Lemma in_app_l {A} (x : A) l l' : In x l -> In x (l ++ l')%list.
Proof. intros; apply in_or_app; auto. Qed.

Lemma in_app_last {A} (x : A) l : In x (l ++ [x])%list.
Proof. apply in_or_app; right; left; reflexivity. Qed.

Lemma trace_step t s s' :
  counts_ok s /\ parent_ok s -> trace_ok s -> step w ip t s = Some s' -> trace_ok s'.
Proof.
  unfold trace_ok. intros [Hc Hp] (Hperm & Hlast & Hpar & H1 & H2 & H3) H.
  unfold counts_ok, parent_ok in *.
  destruct t.
  1-3: break_step H; simpl in *;
       rewrite ?Heqp, ?Heqa, ?Heqp0 in *; simpl in *;
       (destruct (parent s) eqn:Epar; [ | exfalso; destruct Hp; lia ..]);
       rewrite ?forallb_app, ?parent_last_quiet by assumption; simpl;
       rewrite ?Hperm, ?Hpar; simpl;
       repeat split; try reflexivity; try assumption; try (intros; discriminate);
       try (intros; apply in_app_l; auto; fail);
       try (intros; apply in_app_last).
  break_step H; simpl in *; rewrite ?forallb_app; simpl; rewrite ?Hperm; simpl.
  all: repeat split; try reflexivity; try (intros; apply in_app_l; auto; fail);
       try (intros; apply in_app_last).
  all: apply parent_last_more; [assumption | reflexivity].
Qed.

Lemma trace_reachable isIPv6 sched : trace_ok (lookupIP w ip isIPv6 sched).
Proof.
  unfold lookupIP.
  enough (H : (counts_ok (run w ip sched (spawn ip isIPv6))
               /\ parent_ok (run w ip sched (spawn ip isIPv6)))
              /\ trace_ok (run w ip sched (spawn ip isIPv6))) by apply H.
  apply (run_invariant (fun s => (counts_ok s /\ parent_ok s) /\ trace_ok s)).
  - intros t s s' [Hcp Htr] Hstep. split.
    + eapply counts_parent_step; eauto.
    + eapply trace_step; eauto.
  - split; [apply counts_parent_spawn|].
    unfold trace_ok; simpl. repeat split; try reflexivity; intros; discriminate.
Qed.

Lemma identity_step isIPv6 t s s' :
  identity_ok ip isIPv6 s -> step w ip t s = Some s' -> identity_ok ip isIPv6 s'.
Proof.
  unfold identity_ok. intros [Hip Hv6] H.
  destruct t; break_step H; simpl; auto.
Qed.

Lemma identity_reachable isIPv6 sched : identity_ok ip isIPv6 (lookupIP w ip isIPv6 sched).
Proof.
  unfold lookupIP. apply run_invariant.
  - intros; eapply identity_step; eauto.
  - split; reflexivity.
Qed.

Lemma prefix_app a b : String.prefix a (a ++ b) = true.
Proof.
  induction a as [|c a IH]; simpl; [destruct b; reflexivity|].
  destruct (ascii_dec c c); [exact IH|congruence].
Qed.

Lemma contains_unfold frag s :
  contains frag s
  = (String.prefix frag s
     || match s with
        | EmptyString => false
        | String _ rest => contains frag rest
        end)%bool.
Proof. destruct s; reflexivity. Qed.

Lemma contains_prefix frag s : String.prefix frag s = true -> contains frag s = true.
Proof. intros H. rewrite contains_unfold, H. reflexivity. Qed.

Lemma contains_refl frag : contains frag frag = true.
Proof.
  apply contains_prefix. induction frag as [|c a IH]; simpl; [reflexivity|].
  destruct (ascii_dec c c); [exact IH|congruence].
Qed.

Lemma contains_cons frag c s : contains frag s = true -> contains frag (String c s) = true.
Proof. intros H. rewrite contains_unfold, H. apply orb_true_r. Qed.

Lemma contains_pre frag pre s : contains frag s = true -> contains frag (pre ++ s) = true.
Proof.
  intros H. induction pre as [|c pre IH]; simpl; [exact H|].
  apply contains_cons, IH.
Qed.






End Task.

Lemma sent_is_result (w : World) (ip : string) (isIPv6 : bool) (sched : list tid) (r : Result) :
  In r (resultChan (lookupIP w ip isIPv6 sched)) ->
  r = result (lookupIP w ip isIPv6 sched).
Proof.
  destruct (counts_parent_reachable w ip isIPv6 sched) as [_ Hp].
  unfold parent_ok in Hp. intros Hin.
  destruct (parent (lookupIP w ip isIPv6 sched));
    destruct Hp as (? & Hp); try destruct Hp as (Hp & ?);
    try (rewrite H in Hin); try (rewrite Hp in Hin); simpl in Hin; intuition.
Qed.

Lemma past_wait_joined (w : World) (ip : string) (isIPv6 : bool) (sched : list tid) :
  parent (lookupIP w ip isIPv6 sched) <> ParentWait ->
  joined (lookupIP w ip isIPv6 sched).
Proof.
  destruct (counts_parent_reachable w ip isIPv6 sched) as [Hc Hp].
  intros Hne. apply live_zero_joined; [exact Hc|].
  unfold parent_ok in Hp.
  destruct (parent (lookupIP w ip isIPv6 sched)); [congruence| | |]; apply Hp.
Qed.

Lemma sent_joined (w : World) (ip : string) (isIPv6 : bool) (sched : list tid) :
  resultChan (lookupIP w ip isIPv6 sched) <> [] ->
  joined (lookupIP w ip isIPv6 sched).
Proof.
  intros Hne. apply past_wait_joined. intros Hw.
  destruct (counts_parent_reachable w ip isIPv6 sched) as [_ Hp].
  unfold parent_ok in Hp. rewrite Hw in Hp. destruct Hp as [Hnil _]. contradiction.
Qed.

(** ** The claims about one lookupIP *)

Lemma served_decodes (w : World) (ip body : string) :
  served w ip body -> getILineInfo w ip = decode_ILine w body.
Proof.
  intros (req & resp & Hreq & Hdo & Hread). unfold getILineInfo.
  rewrite Hreq, Hdo, Hread. reflexivity.
Qed.


Lemma sample_served (cli : CLI) (ptr_answer : res (list string))
    (info_answer : res string) (ip body : string) :
  served (sample_world cli ptr_answer info_answer (Ok body)) ip body.
Proof.
  exists {| req_method := "GET";
            req_url := "https://bot.ircnet.info/api/i-line?q=" ++ ip |}, body.
  repeat split.
Qed.


(** C8, as the code has it. In every interleaving each goroutine writes only
    the field of its own lookup or assigns [Error], the goroutine of the
    reverse lookup never reads the record, the other two read no field but
    [Error], and the parent only reads; every step of the parent, its reads
    for the send among them, comes after [wgInternal.Wait()] has returned
    and after the three goroutines have called [Done], and no goroutine
    touches the record after that. *)
Theorem lookupIP_accesses (w : World) (ip : string) (isIPv6 : bool)
    (sched : list tid) :
  let tr := trace (lookupIP w ip isIPv6 sched) in
  forallb permitted tr = true
  /\ parent_last tr = true
  /\ (forall a, In (Parent, a) tr ->
        In (Parent, WgInternalWait) tr
        /\ In (GPtr, WgInternalDone) tr
        /\ In (GInfo, WgInternalDone) tr
        /\ In (GILine, WgInternalDone) tr).
Proof.
  cbv zeta.
  destruct (trace_reachable w ip isIPv6 sched) as (Hperm & Hlast & Hpar & H1 & H2 & H3).
  split; [exact Hperm|]. split; [exact Hlast|].
  intros a Hin.
  assert (Hne : parent (lookupIP w ip isIPv6 sched) <> ParentWait).
  { intros Hw. rewrite Hw in Hpar. exact (parent_event_seen _ a Hpar Hin). }
  destruct (past_wait_joined w ip isIPv6 sched Hne) as (J1 & J2 & J3).
  split; [|auto].
  destruct (parent (lookupIP w ip isIPv6 sched)); [congruence|exact Hpar..].
Qed.

Lemma lookupIP_accesses_witness :
  let tr := trace (lookupIP (dead_world (sample_cli false false "1.2.3.4"))
                            "1.2.3.4" false (rounds 16)) in
  In (Parent, Read FError) tr /\ In (GILine, WgInternalDone) tr.
Proof.
  cbv zeta.
  assert (Hin : In (Parent, Read FError)
                   (trace (lookupIP (dead_world (sample_cli false false "1.2.3.4"))
                                    "1.2.3.4" false (rounds 16)))).
  { vm_compute. repeat (first [left; reflexivity | right]). }
  split; [exact Hin|].
  destruct (lookupIP_accesses (dead_world (sample_cli false false "1.2.3.4"))
              "1.2.3.4" false (rounds 16)) as (_ & _ & Hafter).
  apply (Hafter (Read FError) Hin).
Defined.

(** C8, against the claim. With the two HTTP lookups failing, the goroutine
    of the first reads [Error] while the parent still waits and no goroutine
    has called [Done]; and when both have read [Error] before either assigns
    it, the record that is sent holds one fragment only. *)
Lemma failure_read_before_join :
  let w := sample_world (sample_cli false false "1.2.3.4")
                        (Ok ["host.example.com"])
                        (Fail "context deadline exceeded")
                        (Fail "connection refused") in
  let early := lookupIP w "1.2.3.4" false [GInfo; GInfo] in
  let late := lookupIP w "1.2.3.4" false
                ([GInfo; GInfo; GILine; GILine; GInfo; GILine] ++ rounds 16) in
  (parent early = ParentWait /\ wgInternal early = 3
   /\ trace early = [(GInfo, Read FError)]
   /\ reads_wait_for_join (trace early) = false)
  /\ (finished w "1.2.3.4" late = true
      /\ reads_wait_for_join (trace late) = false
      /\ resultChan late = [result late]
      /\ Result_Error (result late)
         = Some "error fetching I-line info: connection refused").
Proof. vm_compute. repeat split; reflexivity. Qed.

(** C1, at the failing input: the three sub-lookups of 1.2.3.4 fail and the
    goroutine of the reverse lookup is the last to assign.  The record sent
    has no name, no organisation and no server, and its message is the
    PTR one alone: the two fragments assigned before it are gone. *)
Theorem ptr_failure_overwrites :
  let w := dead_world (sample_cli false false "1.2.3.4") in
  let s := lookupIP w "1.2.3.4" false (in_turn 5 [GInfo; GILine; GPtr; Parent]) in
  net_LookupAddr w "1.2.3.4" = Fail "no route to host"
  /\ getIPInfo w "1.2.3.4" = Fail "context deadline exceeded"
  /\ getILineInfo w "1.2.3.4" = Fail "connection refused"
  /\ finished w "1.2.3.4" s = true
  /\ resultChan s
     = [ {| Result_IP := "1.2.3.4"; Result_PTR := []; Result_IPInfo := None;
            Result_ILine := []; Result_IsIPv6 := false;
            Result_Error := Some "error looking up PTR records: no route to host" |} ]
  /\ three_fragments "no route to host" "context deadline exceeded"
       "connection refused" (result s) = false
  /\ three_fragments "no route to host" "context deadline exceeded"
       "connection refused"
       (result (lookupIP w "1.2.3.4" false (in_turn 5 [GPtr; GInfo; GILine; Parent])))
     = true.
Proof. vm_compute. repeat split; reflexivity. Qed.

(** ** The start of main *)

Lemma launch_from (w : World) (cli : CLI) (ips : list net_IP) (l : Launch) :
  let kept := filter (fun ip => keeps cli (isIPv6_of ip)) ips in
  fold_left (launch_one w cli) ips l
  = {| totalIPs := totalIPs l + length kept;
       wg := wg l + length kept;
       started := (started l
                   ++ map (fun ip => (IP_String w ip, isIPv6_of ip)) kept)%list |}.
Proof.
  cbv zeta. revert l. induction ips as [|ip ips IH]; intros l; simpl.
  - rewrite !Nat.add_0_r, app_nil_r. destruct l; reflexivity.
  - rewrite IH. unfold launch_one.
    destruct (keeps cli (isIPv6_of ip)); simpl.
    + rewrite <- app_assoc. simpl. f_equal; lia.
    + reflexivity.
Qed.

Lemma keeps_iff (cli : CLI) (ip : net_IP) :
  keeps cli (isIPv6_of ip) = true
  <-> (CLI_IPv4 cli = true /\ To4 ip <> None)
      \/ (CLI_IPv6 cli = true /\ To4 ip = None)
      \/ (CLI_IPv4 cli = false /\ CLI_IPv6 cli = false).
Proof.
  unfold keeps, isIPv6_of.
  destruct (CLI_IPv4 cli), (CLI_IPv6 cli), (To4 ip); simpl; split; intros H;
    try reflexivity; try discriminate;
    try (left; split; [reflexivity|discriminate]);
    try (right; left; split; reflexivity);
    try (right; right; split; reflexivity).
  all: destruct H as [[? H]|[[? H]|[? H]]]; try discriminate; congruence.
Qed.

(** C5. Whatever the two flags, an address is kept exactly when (-4 is set
    and the address has a 4-byte form) or (-6 is set and it has none) or
    (neither flag is set); the goroutines started, and the count of them,
    are those of the kept addresses, in order, and of no other. *)
Theorem family_filter (w : World) (cli : CLI) (ips : list net_IP) :
  let kept := filter (fun ip => keeps cli (isIPv6_of ip)) ips in
  (forall ip,
     In ip kept
     <-> In ip ips
         /\ ((CLI_IPv4 cli = true /\ To4 ip <> None)
             \/ (CLI_IPv6 cli = true /\ To4 ip = None)
             \/ (CLI_IPv4 cli = false /\ CLI_IPv6 cli = false)))
  /\ started (launch w cli ips)
     = map (fun ip => (IP_String w ip, isIPv6_of ip)) kept
  /\ totalIPs (launch w cli ips) = length kept
  /\ lookups (boot (launch w cli ips))
     = map (fun ip => (IP_String w ip, spawn (IP_String w ip) (isIPv6_of ip))) kept.
Proof.
  cbv zeta. unfold launch. rewrite launch_from. simpl.
  split; [|split; [reflexivity|split; [reflexivity|]]].
  - intros ip. rewrite filter_In, keeps_iff. reflexivity.
  - rewrite map_map. reflexivity.
Qed.

Lemma family_filter_witness :
  let w := dead_world (sample_cli false true "example.com") in
  In ip_2001_db8__1
     (filter (fun ip => keeps (sample_cli false true "example.com") (isIPv6_of ip))
             [ip_1_2_3_4; ip_2001_db8__1])
  /\ started (launch w (sample_cli false true "example.com")
                     [ip_1_2_3_4; ip_2001_db8__1])
     = [("2001:db8::1", true)].
Proof.
  cbv zeta. split.
  - apply (family_filter (dead_world (sample_cli false true "example.com"))
             (sample_cli false true "example.com") [ip_1_2_3_4; ip_2001_db8__1]).
    split; [right; left; reflexivity|].
    right; left. split; reflexivity.
  - reflexivity.
Defined.

Lemma with_dns_step (w : World) (lookupHost : string -> res (list string))
    (lookupIP' : string -> res (list net_IP)) (m : mtid) (p : Process) :
  pstep (with_dns w lookupHost lookupIP') m p = pstep w m p.
Proof. reflexivity. Qed.

Lemma with_dns_run (w : World) (lookupHost : string -> res (list string))
    (lookupIP' : string -> res (list net_IP)) (sched : list mtid) :
  forall p, prun (with_dns w lookupHost lookupIP') sched p = prun w sched p.
Proof.
  induction sched as [|m rest IH]; intros p; simpl; [reflexivity|].
  rewrite with_dns_step. apply IH.
Qed.

(** C6. When the target parses as an address, validation accepts it and the
    addresses are that one address, with [net.ParseIP] the only call made:
    neither [net.LookupHost] nor [net.LookupIP] is called, main goes on to
    the filter with that single address, and the whole run is the same
    under any other forward resolver. *)
Theorem literal_needs_no_dns (w : World) (cli : CLI) (ip : net_IP) :
  kong_Parse w = KongParsed cli ->
  net_ParseIP w (CLI_Target cli) = Some ip ->
  validateInput w (CLI_Target cli) = ([CallParseIP (CLI_Target cli)], None)
  /\ resolve w (CLI_Target cli) = ([CallParseIP (CLI_Target cli)], Ok [ip])
  /\ (exists calls,
        startup w = StartLaunched calls cli (launch w cli [ip])
        /\ existsb is_dns calls = false)
  /\ forall lookupHost lookupIP' sched,
       main (with_dns w lookupHost lookupIP') sched = main w sched.
Proof.
  intros Hkong Hparse.
  assert (Hv : validateInput w (CLI_Target cli) = ([CallParseIP (CLI_Target cli)], None)).
  { unfold validateInput. rewrite Hparse. reflexivity. }
  assert (Hr : resolve w (CLI_Target cli) = ([CallParseIP (CLI_Target cli)], Ok [ip])).
  { unfold resolve. rewrite Hparse. reflexivity. }
  split; [exact Hv|]. split; [exact Hr|]. split.
  - exists [CallParseIP (CLI_Target cli); CallParseIP (CLI_Target cli)].
    unfold startup. rewrite Hkong, Hv, Hr. split; reflexivity.
  - intros lookupHost lookupIP' sched. unfold main, startup.
    change (kong_Parse (with_dns w lookupHost lookupIP')) with (kong_Parse w).
    rewrite Hkong.
    assert (Hv' : validateInput (with_dns w lookupHost lookupIP') (CLI_Target cli)
                  = ([CallParseIP (CLI_Target cli)], None)).
    { unfold validateInput. simpl. rewrite Hparse. reflexivity. }
    assert (Hr' : resolve (with_dns w lookupHost lookupIP') (CLI_Target cli)
                  = ([CallParseIP (CLI_Target cli)], Ok [ip])).
    { unfold resolve. simpl. rewrite Hparse. reflexivity. }
    rewrite Hv, Hr, Hv', Hr'. rewrite with_dns_run. reflexivity.
Qed.

Lemma literal_needs_no_dns_witness :
  let cli := sample_cli false false "1.2.3.4" in
  resolve (dead_world cli) "1.2.3.4" = ([CallParseIP "1.2.3.4"], Ok [ip_1_2_3_4]).
Proof.
  cbv zeta.
  apply (literal_needs_no_dns (dead_world (sample_cli false false "1.2.3.4"))
           (sample_cli false false "1.2.3.4") ip_1_2_3_4); reflexivity.
Defined.



(** ** The process *)

Ltac break_pstep H :=
  unfold pstep, step_lookup, step_waiter, step_collector, step_handler,
    step_tick, step_main, run_case, ready in H;
  repeat break_match_in H;
  try discriminate H; inversion H; subst; clear H.

Section Run.
Variable w : World.

Lemma prun_app (a b : list mtid) (p : Process) :
  prun w (a ++ b) p = prun w b (prun w a p).
Proof.
  revert p; induction a as [|m a IH]; intros p; simpl; [reflexivity|apply IH].
Qed.

Lemma prun_invariant (P : Process -> Prop) :
  (forall m p p', P p -> pstep w m p = Some p' -> P p') ->
  forall sched p, P p -> P (prun w sched p).
Proof.
  intros Hstep sched; induction sched as [|m rest IH]; intros p Hp; simpl.
  - exact Hp.
  - apply IH. destruct (pstep w m p) as [p'|] eqn:E; [eapply Hstep; eauto|exact Hp].
Qed.

Lemma rendered_app (a b : list Printed) :
  rendered (a ++ b) = (rendered a ++ rendered b)%list.
Proof.
  induction a as [|x a IH]; simpl; [reflexivity|].
  destruct x; simpl; rewrite IH; reflexivity.
Qed.

Lemma rendered_results (rs : list Result) : rendered (map PrintResult rs) = rs.
Proof. induction rs as [|r rs IH]; simpl; [reflexivity|rewrite IH; reflexivity]. Qed.

Lemma coord_step (m : mtid) (p p' : Process) :
  coord_ok p -> pstep w m p = Some p' -> coord_ok p'.
Proof.
  unfold coord_ok. intros Hc H.
  destruct m; break_pstep H; simpl in *.
  all: repeat match goal with
              | E : status _ = _ |- _ => rewrite E in *
              end; simpl in *.
  all: unfold wake; destruct (coord p) as [| | |[| |]]; simpl in *;
       try discriminate; unpack.
  all: rewrite ?rendered_app; simpl;
       repeat match goal with
              | E : rendered _ = _ |- _ => rewrite E
              | E : _ = true |- _ => rewrite E in *
              | E : _ = false |- _ => rewrite E in *
              end; simpl in *; try discriminate.
  all: repeat match goal with
              | E : CoordWoken _ = CoordWoken _ |- _ => inversion E; subst; clear E
              end; simpl in *.
  all: repeat split; auto.
  all: try (right; repeat split; eexists; reflexivity).
  all: destruct (mainCtx_cancelled p), (done_closed p), (ticker_ready p);
       try discriminate; reflexivity.
Qed.

Lemma coord_reachable (l : Launch) (sched : list mtid) :
  coord_ok (prun w sched (boot l)).
Proof.
  apply prun_invariant; [intros; eapply coord_step; eauto|].
  split; [reflexivity|exact I].
Qed.

Lemma leaves_cancelled_step (m : mtid) (p p' : Process) :
  leaves_cancelled p -> pstep w m p = Some p' -> leaves_cancelled p'.
Proof.
  unfold leaves_cancelled. intros [Hr Hc] H.
  destruct m; break_pstep H; simpl in *.
  all: repeat match goal with
              | E : status _ = _ |- _ => rewrite E in *
              end; simpl in *.
  all: try (rewrite Hc in *; simpl in * ).
  all: try discriminate.
  all: repeat match goal with
              | E : CoordWoken _ = CoordWoken _ |- _ => inversion E; subst; clear E
              end; simpl in *.
  all: rewrite ?rendered_app, ?Hr; simpl; repeat split; auto.
  all: try (eexists; reflexivity).
Qed.

Lemma leaves_cancelled_run (sched : list mtid) (p : Process) :
  leaves_cancelled p -> leaves_cancelled (prun w sched p).
Proof.
  apply prun_invariant. intros; eapply leaves_cancelled_step; eauto.
Qed.

Lemma idle_step (m : mtid) (p p' : Process) :
  idle_ok w p -> pstep w m p = Some p' -> idle_ok w p'.
Proof.
  unfold idle_ok. intros (Hl & Hchan & Hres & Hrend & Hchat & Hst) H.
  destruct m; break_pstep H; simpl in *.
  1-7: rewrite Hl in Heqo; destruct i; discriminate.
  all: rewrite ?Hres, ?Hchan in *; simpl;
    rewrite ?rendered_app, ?Hrend; simpl.
  all: try discriminate.
  all: repeat split; auto.
  all: apply Forall_app; split; [assumption|];
    apply Forall_cons; [|apply Forall_nil]; unfold chatter;
    first [ left; reflexivity
          | right; left; reflexivity
          | right; right; left; reflexivity
          | right; right; right; left; reflexivity
          | right; right; right; right; eexists; eexists; reflexivity ].
Qed.

Lemma idle_reachable (l : Launch) (sched : list mtid) :
  started l = [] -> idle_ok w (prun w sched (boot l)).
Proof.
  intros Hnone. apply prun_invariant; [intros; eapply idle_step; eauto|].
  unfold idle_ok, boot. rewrite Hnone. simpl.
  repeat split; auto.
Qed.

(** With no [lookupIP] started, letting main run, then the goroutine that
    closes the channel, the collector and main again ends the process, from
    wherever it is. *)
Lemma idle_completes (p : Process) :
  idle_ok w p -> coord_ok p ->
  exit_code (prun w [Main CaseDone; Waiter; Collector; Main CaseDone] p) = Some 0%Z.
Proof.
  unfold idle_ok, coord_ok. intros (Hl & Hchan & Hres & Hrend & Hchat & Hst) Hc.
  destruct p as [ls total chan closed res dn cancelled tick h c out st].
  simpl in *. subst ls chan res.
  destruct Hst as [Hst|Hst]; subst st; [|reflexivity].
  destruct Hc as [_ Hc].
  destruct c as [| | |[| |]], closed, dn, cancelled, tick; simpl in *; unpack;
    try discriminate; reflexivity.
Qed.

End Run.

Lemma kong_exits_once (w : World) (c1 c2 : Z) :
  kong_exits w c1 -> kong_exits w c2 -> c1 = c2.
Proof.
  unfold kong_exits, parse_error.
  intros [H1|[u1 H1]] [H2|[u2 H2]]; rewrite H1 in H2; congruence.
Qed.

Lemma kong_exits_startup (w : World) (code : Z) :
  kong_exits w code ->
  (exists out, startup w = StartExit [] out code)
  /\ ~ invalid_target w /\ ~ resolution_failed w.
Proof.
  unfold kong_exits, parse_error, startup.
  intros Hk. split; [|split].
  - destruct Hk as [Hk|[usage Hk]]; rewrite Hk; eexists; reflexivity.
  - intros (cli & err & Hp & _).
    destruct Hk as [Hk|[usage Hk]]; rewrite Hk in Hp; discriminate.
  - intros (cli & hosts & err & Hp & _).
    destruct Hk as [Hk|[usage Hk]]; rewrite Hk in Hp; discriminate.
Qed.

Lemma invalid_target_startup (w : World) :
  invalid_target w ->
  (exists calls out, startup w = StartExit calls out 1)
  /\ ~ resolution_failed w /\ forall code, ~ kong_exits w code.
Proof.
  intros (cli & err & Hk & Hparse & Hhost). split; [|split].
  - unfold startup, validateInput. rewrite Hk, Hparse, Hhost.
    do 2 eexists. reflexivity.
  - intros (cli' & hosts & err' & Hk' & _ & Hhost' & _).
    rewrite Hk in Hk'. injection Hk' as <-. rewrite Hhost in Hhost'. discriminate.
  - intros code [Hc|[usage Hc]]; unfold parse_error in *; rewrite Hk in Hc;
      discriminate.
Qed.

Lemma resolution_failed_startup (w : World) :
  resolution_failed w ->
  (exists calls line, startup w = StartAborts calls line)
  /\ ~ invalid_target w /\ forall code, ~ kong_exits w code.
Proof.
  intros (cli & hosts & err & Hk & Hparse & Hhost & Hip). split; [|split].
  - unfold startup, validateInput, resolve. rewrite Hk, Hparse, Hhost, Hip.
    do 2 eexists. reflexivity.
  - intros (cli' & err' & Hk' & _ & Hhost').
    rewrite Hk in Hk'. injection Hk' as <-. rewrite Hhost in Hhost'. discriminate.
  - intros code [Hc|[usage Hc]]; unfold parse_error in *; rewrite Hk in Hc;
      discriminate.
Qed.

(** The ways in which lines 231-278 end, told by what the world answers. *)
Lemma startup_cases (w : World) :
  match startup w with
  | StartExit calls out code => kong_exits w code \/ (code = 1%Z /\ invalid_target w)
  | StartAborts calls line => resolution_failed w
  | StartLaunched calls cli l =>
      ~ invalid_target w /\ ~ resolution_failed w /\ forall code, ~ kong_exits w code
  end.
Proof.
  unfold startup, validateInput, resolve, kong_exits, parse_error.
  destruct (kong_Parse w) as [code|usage code|cli] eqn:Hk.
  - left. left. reflexivity.
  - left. right. exists usage. reflexivity.
  - destruct (net_ParseIP w (CLI_Target cli)) as [ip|] eqn:Hparse.
    + split; [|split].
      * intros (c & e & Hk' & Hp & _). rewrite Hk in Hk'. injection Hk' as <-.
        rewrite Hparse in Hp. discriminate.
      * intros (c & h & e & Hk' & Hp & _). rewrite Hk in Hk'. injection Hk' as <-.
        rewrite Hparse in Hp. discriminate.
      * intros c [Hc|[u Hc]]; discriminate.
    + destruct (net_LookupHost w (CLI_Target cli)) as [hosts|err] eqn:Hhost.
      * destruct (net_LookupIP w (CLI_Target cli)) as [ips|err] eqn:Hip.
        -- split; [|split].
           ++ intros (c & e & Hk' & _ & Hh). rewrite Hk in Hk'. injection Hk' as <-.
              rewrite Hhost in Hh. discriminate.
           ++ intros (c & h & e & Hk' & _ & _ & Hi). rewrite Hk in Hk'.
              injection Hk' as <-. rewrite Hip in Hi. discriminate.
           ++ intros c [Hc|[u Hc]]; discriminate.
        -- exists cli, hosts, err. auto.
      * right. split; [reflexivity|]. exists cli, err. auto.
Qed.

(** A run of lines 263-266 after a failed [net.LookupIP]: no [lookupIP]
    exists, a process that has ended has status 1, and two steps of main
    end it from wherever it is. *)
Lemma abort_lookups (line : Printed) (sched : list mtid) :
  forall h cancelled pc out, lookups (abort line sched h cancelled pc out) = [].
Proof.
  induction sched as [|m sched IH]; intros h cancelled pc out; simpl; [reflexivity|].
  destruct m; try apply IH; [destruct h|destruct pc]; try apply IH; reflexivity.
Qed.

Lemma abort_status (line : Printed) (sched : list mtid) :
  forall h cancelled pc out code,
    exit_code (abort line sched h cancelled pc out) = Some code -> code = 1%Z.
Proof.
  induction sched as [|m sched IH]; intros h cancelled pc out code; simpl;
    [discriminate|].
  destruct m; try apply IH; [destruct h|destruct pc]; try apply IH.
  unfold exit_code. simpl. congruence.
Qed.

Lemma abort_ends (line : Printed) (sched : list mtid) (c1 c2 : select_case) :
  forall h cancelled pc out,
    exit_code (abort line (sched ++ [Main c1; Main c2]) h cancelled pc out)
    = Some 1%Z.
Proof.
  induction sched as [|m sched IH]; intros h cancelled pc out; simpl.
  - destruct pc; reflexivity.
  - destruct m; try apply IH; [destruct h|destruct pc]; try apply IH; reflexivity.
Qed.

(** ** The claims about the process *)

(** C7, as the code has it.  By its own code main leaves with status 1
    exactly when the target is invalid or its resolution fails: on an
    invalid target at once, on a failed resolution as soon as main has
    printed the error, and in both cases no goroutine of [lookupIP] is
    ever started.  When the command line does not parse (or asks for the
    help) the process is ended inside [kong.Parse] with the status that
    library chooses, again with no [lookupIP].  In every other case the
    lookups are started and a process that has ended has status 0,
    whatever the records it printed hold. *)
Theorem exit_codes (w : World) (sched : list mtid) :
  let p := main w sched in
  (invalid_target w -> exit_code p = Some 1%Z /\ lookups p = [])
  /\ (resolution_failed w ->
      lookups p = []
      /\ (forall code, exit_code p = Some code -> code = 1%Z)
      /\ forall c1 c2,
           exit_code (main w (sched ++ [Main c1; Main c2])) = Some 1%Z)
  /\ (forall code, kong_exits w code -> exit_code p = Some code /\ lookups p = [])
  /\ (forall code,
        exit_code p = Some code ->
        (code = 1%Z
         <-> invalid_target w \/ resolution_failed w \/ kong_exits w 1%Z)
        /\ (code = 0%Z \/ code = 1%Z \/ kong_exits w code))
  /\ (forall calls cli l,
        startup w = StartLaunched calls cli l ->
        ~ invalid_target w /\ ~ resolution_failed w
        /\ (forall code, ~ kong_exits w code)
        /\ forall code, exit_code p = Some code -> code = 0%Z).
Proof.
  cbv zeta.
  assert (Hrun : forall l code,
             exit_code (prun w sched (boot l)) = Some code -> code = 0%Z).
  { intros l code Hc. pose proof (coord_reachable w l sched) as Hok.
    unfold coord_ok in Hok. unfold exit_code in Hc.
    destruct (status (prun w sched (boot l))); [discriminate|].
    injection Hc as <-. apply Hok. }
  split; [|split; [|split; [|split]]].
  - intros Hinv. destruct (invalid_target_startup w Hinv) as ((calls & out & Hs) & _).
    unfold main. rewrite Hs. split; reflexivity.
  - intros Hres.
    destruct (resolution_failed_startup w Hres) as ((calls & line & Hs) & _).
    unfold main. rewrite Hs. split; [apply abort_lookups|].
    split; [apply abort_status|]. intros c1 c2. apply abort_ends.
  - intros code Hk. destruct (kong_exits_startup w code Hk) as ((out & Hs) & _).
    unfold main. rewrite Hs. split; reflexivity.
  - intros code Hc. pose proof (startup_cases w) as Hcases. unfold main in Hc.
    destruct (startup w) as [calls out code'|calls line|calls cli l].
    + simpl in Hc. injection Hc as <-. destruct Hcases as [Hk|[-> Hinv]].
      * split; [|auto]. split.
        -- intros ->. auto.
        -- intros [Hinv|[Hres|Hk1]].
           ++ destruct (kong_exits_startup w _ Hk) as (_ & Hno & _). contradiction.
           ++ destruct (kong_exits_startup w _ Hk) as (_ & _ & Hno). contradiction.
           ++ apply (kong_exits_once w _ _ Hk Hk1).
      * split; [|auto]. split; auto.
    + apply abort_status in Hc. subst code. split; [|auto]. split; auto.
    + apply Hrun in Hc. subst code. split; [|auto].
      destruct Hcases as (Hno1 & Hno2 & Hno3). split; [discriminate|].
      intros [H|[H|H]]; [contradiction|contradiction|exact (False_ind _ (Hno3 _ H))].
  - intros calls cli l Hs. pose proof (startup_cases w) as Hcases.
    unfold main. rewrite Hs in *. destruct Hcases as (Hno1 & Hno2 & Hno3).
    split; [exact Hno1|]. split; [exact Hno2|]. split; [exact Hno3|].
    intros code. apply Hrun.
Qed.

Lemma exit_codes_witness :
  let unknown := dead_world (sample_cli false false "nowhere.invalid") in
  let known := dead_world (sample_cli false false "1.2.3.4") in
  let sched := (Main CaseTicker :: map (InLookup 0) (in_turn 5 [GPtr; GInfo; GILine; Parent])
                ++ [Waiter; Collector; Collector; Main CaseDone])%list in
  (exit_code (main unknown sched) = Some 1%Z /\ lookups (main unknown sched) = [])
  /\ (exit_code (main half_resolved [Handler]) = None
      /\ exit_code (main half_resolved ([Handler] ++ [Main CaseDone; Main CaseDone]))
         = Some 1%Z)
  /\ (exit_code (main known sched) = Some 0%Z
      /\ map Result_Error (rendered (stdout (main known sched)))
         = [Some "error looking up PTR records: no route to host; error fetching IP info: context deadline exceeded; error fetching I-line info: connection refused"]).
Proof.
  cbv zeta. split; [|split].
  - destruct (exit_codes (dead_world (sample_cli false false "nowhere.invalid"))
                (Main CaseTicker :: map (InLookup 0) (in_turn 5 [GPtr; GInfo; GILine; Parent])
                 ++ [Waiter; Collector; Collector; Main CaseDone])%list)
      as (Hfatal & _).
    apply Hfatal. exists (sample_cli false false "nowhere.invalid").
    eexists. repeat split; reflexivity.
  - split; [reflexivity|].
    destruct (exit_codes half_resolved [Handler]) as (_ & Hres & _).
    apply Hres. exists (sample_cli false false "nowhere.invalid").
    do 2 eexists. repeat split; reflexivity.
  - split; [|vm_compute; reflexivity].
    assert (Hc : exists code,
               exit_code (main (dead_world (sample_cli false false "1.2.3.4"))
                            (Main CaseTicker :: map (InLookup 0) (in_turn 5 [GPtr; GInfo; GILine; Parent])
                             ++ [Waiter; Collector; Collector; Main CaseDone])%list)
               = Some code).
    { eexists. vm_compute. reflexivity. }
    destruct Hc as (code & Hc). rewrite Hc. f_equal.
    destruct (exit_codes (dead_world (sample_cli false false "1.2.3.4"))
                (Main CaseTicker :: map (InLookup 0) (in_turn 5 [GPtr; GInfo; GILine; Parent])
                 ++ [Waiter; Collector; Collector; Main CaseDone])%list)
      as (_ & _ & _ & _ & Hzero).
    destruct (Hzero _ _ _ eq_refl) as (_ & _ & _ & Hz). apply Hz. exact Hc.
Defined.

(** C7, against the claim.  The command line does not parse and kong, as
    its current versions do, leaves with status 80: the process has ended on
    an argument-parsing error and its status is not 1. *)
Lemma parse_error_status_is_kongs :
  let w := {| kong_Parse := KongParseError 80;
              net_ParseIP := fun _ => None;
              net_LookupHost := fun _ => Fail "lookup: no such host";
              net_LookupIP := fun _ => Fail "lookup: no such host";
              net_LookupAddr := fun _ => Fail "lookup: no such host";
              IP_String := fun _ => "";
              http_NewRequestWithContext := fun method url =>
                Ok {| req_method := method; req_url := url |};
              httpClient_Do := fun _ => Fail "connection refused";
              ilineClient_Do := fun _ => Fail "connection refused";
              json_Decode_IPInfo := fun _ => Fail "unexpected EOF";
              ioutil_ReadAll := fun body => Ok body;
              json_Unmarshal_ILineInfo := fun _ => Fail "unexpected EOF";
              cyan := fun s => s; yellow := fun s => s; green := fun s => s;
              red := fun s => s; magenta := fun s => s |} in
  parse_error w 80
  /\ exit_code (main w []) = Some 80%Z
  /\ exit_code (main w []) <> Some 1%Z.
Proof. cbv zeta. split; [reflexivity|]. split; [reflexivity|discriminate]. Qed.

Lemma prun_one (w : World) (m : mtid) (p : Process) :
  prun w [m] p = match pstep w m p with Some p' => p' | None => p end.
Proof. reflexivity. Qed.

Lemma main_app (w : World) (a b : list mtid) (calls : list Call) (cli : CLI)
    (l : Launch) :
  startup w = StartLaunched calls cli l ->
  main w (a ++ b) = prun w b (main w a).
Proof. unfold main. intros ->. apply prun_app. Qed.

(** C4, as the code has it, for a process that has started its lookups.
    (1) If main is parked in its [select] when the handler cancels the
    context, the cancellation wakes it, and whatever happens next, the end
    of the lookups and the closing of [done] included, no record is rendered
    and main returns by printing the cancellation notice.  (2) When main
    evaluates its [select] with the context cancelled, the case of the
    context is ready: taking it prints the notice and returns with no
    record rendered, whatever has been collected.  It is the only case that
    can be taken when no tick is pending and [done] is not closed.  A
    pending tick can be taken instead, and main then prints a progress line
    and is back at its [select]; a closed [done] can be taken instead, and
    main then renders the records collected and returns with no
    cancellation notice.  (3) While the context is cancelled and [done] is
    not closed no record has been rendered, and a main that has returned
    did so by printing the notice. *)
Theorem cancelled_in_flight (w : World) (sched : list mtid) (calls : list Call)
    (cli : CLI) (l : Launch) :
  startup w = StartLaunched calls cli l ->
  let p := main w sched in
  (status p = Running -> coord p = CoordParked -> handler p = HandlerPrinted ->
   done_closed p = false
   /\ exists p',
        pstep w Handler p = Some p'
        /\ mainCtx_cancelled p' = true
        /\ forall more,
             let q := prun w more p' in
             leaves_cancelled q
             /\ (status q = Running ->
                 forall c,
                   exists q',
                     pstep w (Main c) q = Some q'
                     /\ status q' = Exited 0
                     /\ stdout q' = (stdout q ++ [PrintText cancel_notice])%list
                     /\ rendered (stdout q') = []))
  /\ (status p = Running -> coord p = CoordSelect -> mainCtx_cancelled p = true ->
      (exists q,
         pstep w (Main CaseCtxDone) p = Some q
         /\ status q = Exited 0
         /\ stdout q = (stdout p ++ [PrintText cancel_notice])%list
         /\ rendered (stdout q) = [])
      /\ (ticker_ready p = false -> done_closed p = false ->
          forall c q, pstep w (Main c) p = Some q -> c = CaseCtxDone)
      /\ (ticker_ready p = true ->
          exists q,
            pstep w (Main CaseTicker) p = Some q
            /\ status q = Running /\ coord q = CoordSelect
            /\ mainCtx_cancelled q = true /\ ticker_ready q = false
            /\ stdout q
               = (stdout p
                    ++ [PrintText (progress_line (length (results p))
                                                 (main_totalIPs p))])%list)
      /\ (ticker_ready p = false -> pstep w (Main CaseTicker) p = None)
      /\ (done_closed p = true ->
          exists q,
            pstep w (Main CaseDone) p = Some q
            /\ status q = Exited 0
            /\ stdout q
               = (stdout p ++ PrintText clear_line
                         :: map PrintResult (results p))%list
            /\ rendered (stdout q) = results p)
      /\ (done_closed p = false -> pstep w (Main CaseDone) p = None))
  /\ (mainCtx_cancelled p = true -> done_closed p = false ->
      rendered (stdout p) = []
      /\ (forall code,
            status p = Exited code ->
            code = 0%Z
            /\ exists out, stdout p = (out ++ [PrintText cancel_notice])%list)
      /\ (status p = Running ->
          coord p <> CoordParked /\ coord p <> CoordWoken CaseDone)).
Proof.
  intros Hs. cbv zeta. unfold main. rewrite Hs.
  pose proof (coord_reachable w l sched) as Hok. unfold coord_ok in Hok.
  set (p := prun w sched (boot l)) in *.
  split; [|split].
  - intros Hst Hpark Hh. rewrite Hst, Hpark in Hok.
    destruct Hok as (Hr & Hc & Hd & Ht).
    split; [exact Hd|].
    exists (handler_cancels p).
    split; [unfold pstep, step_handler; rewrite Hst, Hh; reflexivity|].
    split; [reflexivity|].
    intros more. cbv zeta.
    assert (Hl : leaves_cancelled (prun w more (handler_cancels p))).
    { apply leaves_cancelled_run. unfold leaves_cancelled. simpl.
      rewrite Hst, Hpark. split; [exact Hr|reflexivity]. }
    split; [exact Hl|].
    intros Hrun c. destruct Hl as [Hnone Hl]. rewrite Hrun in Hl.
    unfold pstep, step_main. rewrite Hrun, Hl.
    eexists. split; [reflexivity|]. simpl.
    rewrite rendered_app, Hnone. repeat split.
  - intros Hst Hsel Hcancel. rewrite Hst in Hok. destruct Hok as [Hnone _].
    unfold pstep, step_main, ready. rewrite Hst, Hsel, Hcancel. simpl.
    split; [|split; [|split; [|split; [|split]]]].
    + eexists. split; [reflexivity|]. simpl.
      rewrite rendered_app, Hnone. repeat split.
    + intros Ht Hd c q. rewrite Ht, Hd. destruct c; [reflexivity| |]; discriminate.
    + intros Ht. rewrite Ht. eexists. split; [reflexivity|]. simpl.
      repeat split. exact Hcancel.
    + intros Ht. rewrite Ht. reflexivity.
    + intros Hd. rewrite Hd. eexists. split; [reflexivity|]. simpl.
      rewrite rendered_app, Hnone. simpl. rewrite rendered_results. repeat split.
    + intros Hd. rewrite Hd. reflexivity.
  - intros Hcancel Hopen.
    assert (Hnone : rendered (stdout p) = []).
    { destruct (status p); [apply Hok|].
      destruct Hok as (_ & [Hd|(_ & Hr & _)]); [congruence|exact Hr]. }
    split; [exact Hnone|]. split.
    + intros code Hst. rewrite Hst in Hok.
      destruct Hok as (Hz & [Hd|(_ & _ & Hout)]); [congruence|].
      split; assumption.
    + intros Hst. rewrite Hst in Hok. destruct Hok as [_ Hok].
      split; intros Hpc; rewrite Hpc in Hok; [destruct Hok|]; congruence.
Qed.

Lemma cancelled_in_flight_witness :
  let q := main two_addresses
             (interrupted_waiting ++ completed_meanwhile ++ [Main CaseDone])%list in
  let p := main two_addresses (interrupted_printing ++ [Tick])%list in
  (coord (main two_addresses in_flight) = CoordParked
   /\ map Result_IP (results (main two_addresses in_flight)) = ["1.2.3.4"]
   /\ done_closed (main two_addresses (interrupted_waiting ++ completed_meanwhile))
      = true)
  /\ leaves_cancelled q
  /\ (mainCtx_cancelled p = true /\ done_closed p = false
      /\ exists p',
           pstep two_addresses (Main CaseTicker) p = Some p'
           /\ status p' = Running /\ coord p' = CoordSelect).
Proof.
  cbv zeta. split; [vm_compute; repeat split; reflexivity|]. split.
  - destruct (cancelled_in_flight two_addresses in_flight _ _ _ eq_refl)
      as [Hwaiting _].
    destruct Hwaiting as (_ & p' & Hstep & _ & Hafter);
      [vm_compute; reflexivity|vm_compute; reflexivity|vm_compute; reflexivity|].
    destruct (Hafter (completed_meanwhile ++ [Main CaseDone])%list) as [Hleft _].
    unfold interrupted_waiting.
    rewrite !(main_app two_addresses _ _ _ _ _ eq_refl), prun_one, Hstep.
    exact Hleft.
  - split; [vm_compute; reflexivity|]. split; [vm_compute; reflexivity|].
    destruct (cancelled_in_flight two_addresses (interrupted_printing ++ [Tick])%list
                _ _ _ eq_refl) as (_ & Hselect & _).
    destruct Hselect as (_ & _ & Hticker & _);
      [vm_compute; reflexivity|vm_compute; reflexivity|vm_compute; reflexivity|].
    destruct Hticker as (q & Hq & Hst & Hco & _); [vm_compute; reflexivity|].
    exists q. split; [exact Hq|]. split; assumption.
Defined.

(** C4, against the claim. The record of the first of two addresses has
    been collected and the second is still to be sent when the ticker fires;
    main prints the progress line, and before it is back at its [select]
    the signal handler cancels the context.  The second record is sent and
    collected, the channel and [done] are closed, and when main evaluates
    its [select] both cases are ready: it takes the case of [done], both
    records are rendered and no cancellation notice is printed. *)
Lemma cancelled_then_rendered :
  let p := main two_addresses interrupted_printing in
  let q := main two_addresses
             (interrupted_printing ++ completed_meanwhile ++ [Main CaseDone])%list in
  (status p = Running /\ mainCtx_cancelled p = true /\ done_closed p = false
   /\ coord p = CoordSelect
   /\ map (fun a => parent (snd a)) (lookups p) = [ParentEnd; ParentWait]
   /\ main_resultChan p = []
   /\ map Result_IP (results p) = ["1.2.3.4"])
  /\ (status q = Exited 0
      /\ map Result_IP (rendered (stdout q)) = ["1.2.3.4"; "2001:db8::1"]
      /\ existsb (fun x => match x with
                           | PrintText s => s =? cancel_notice
                           | PrintResult _ => false
                           end) (stdout q) = false).
Proof. vm_compute. repeat split; reflexivity. Qed.

(** C10. When main gets past its start and the filter keeps no address, no
    [lookupIP] exists: in every interleaving nothing is collected, no record
    is rendered, the output is only the announcement, progress lines, the
    notices of an interrupt and the cleared line, and a process that has
    ended has status 0; from wherever the process is, letting main, the
    goroutine that closes the channel, the collector and main run once more
    ends it with status 0, and with no interrupt it prints the announcement
    and the cleared line and nothing else. *)
Theorem no_address_kept (w : World) (calls : list Call) (cli : CLI)
    (l : Launch) (sched : list mtid) :
  startup w = StartLaunched calls cli l ->
  started l = [] ->
  let p := main w sched in
  lookups p = [] /\ results p = [] /\ rendered (stdout p) = []
  /\ Forall (chatter w) (stdout p)
  /\ (forall code, exit_code p = Some code -> code = 0%Z)
  /\ exit_code (main w (sched ++ [Main CaseDone; Waiter; Collector; Main CaseDone]))
     = Some 0%Z
  /\ (let q := main w [Main CaseDone; Waiter; Collector; Main CaseDone] in
      status q = Exited 0
      /\ stdout q = [PrintText (yellow w "Checking records... Please wait");
                     PrintText clear_line]).
Proof.
  intros Hs Hnone. cbv zeta. rewrite (main_app _ _ _ _ _ _ Hs). unfold main. rewrite Hs.
  pose proof (idle_reachable w l sched Hnone) as Hidle.
  destruct Hidle as (Hl & Hchan & Hres & Hrend & Hchat & Hst).
  split; [exact Hl|]. split; [exact Hres|]. split; [exact Hrend|].
  split; [exact Hchat|]. split; [|split].
  - intros code Hc. unfold exit_code in Hc.
    destruct Hst as [Hst|Hst]; rewrite Hst in Hc; [discriminate|].
    injection Hc as <-. reflexivity.
  - apply idle_completes; [apply idle_reachable; exact Hnone|apply coord_reachable].
  - unfold boot. rewrite Hnone. split; reflexivity.
Qed.

Lemma no_address_kept_witness :
  let w := dead_world (sample_cli false true "1.2.3.4") in
  startup w = StartLaunched [CallParseIP "1.2.3.4"; CallParseIP "1.2.3.4"]
                (sample_cli false true "1.2.3.4")
                {| totalIPs := 0; wg := 0; started := [] |}
  /\ exit_code (main w [Handler; Main CaseDone; Waiter; Collector; Main CaseDone])
     = Some 0%Z.
Proof.
  cbv zeta. split; [reflexivity|].
  apply (no_address_kept (dead_world (sample_cli false true "1.2.3.4"))
           [CallParseIP "1.2.3.4"; CallParseIP "1.2.3.4"]
           (sample_cli false true "1.2.3.4")
           {| totalIPs := 0; wg := 0; started := [] |}
           [Handler]); reflexivity.
Defined.

(** * Further properties *)

(** ** One lookupIP: what the record holds *)

Section TaskData.
Variable w : World.
Variable ip : string.

Lemma data_step t s s' :
  data_ok w ip s -> step w ip t s = Some s' -> data_ok w ip s'.
Proof.
  unfold data_ok, app_data_ok. intros (Hp & Hi & Hl) H.
  destruct t; break_step H; simpl in *;
    rewrite ?Heqp, ?Heqa in *; simpl in *; unpack; subst;
    repeat split; auto.
  all: try match goal with H : Ok _ = _ |- _ => rewrite <- H end;
       try match goal with H : Fail _ = _ |- _ => rewrite <- H end;
       simpl; auto.
  all: try (destruct (net_LookupAddr w ip); simpl in *; congruence).
  all: try (destruct (getIPInfo w ip); simpl in *; congruence).
  all: try (destruct (getILineInfo w ip); simpl in *; congruence).
Qed.

Lemma data_reachable isIPv6 sched : data_ok w ip (lookupIP w ip isIPv6 sched).
Proof.
  unfold lookupIP. apply run_invariant.
  - intros; eapply data_step; eauto.
  - repeat split.
Qed.

Lemma assigned_step t s s' g :
  assigned w ip s g -> step w ip t s = Some s' -> assigned w ip s' g.
Proof.
  unfold assigned. intros [Hf Hpc] H. split; [exact Hf|].
  destruct t; break_step H; simpl in *; destruct g; simpl in *; auto;
    destruct Hpc; congruence.
Qed.

Lemma append_assoc (a b c : string) : (a ++ b) ++ c = a ++ (b ++ c).
Proof. induction a as [|x a IH]; simpl; [reflexivity|rewrite IH; reflexivity]. Qed.

Lemma concat_snoc (sep x : string) (l : list string) :
  l <> [] -> String.concat sep (l ++ [x]) = String.concat sep l ++ sep ++ x.
Proof.
  induction l as [|y l IH]; intros Hne; [contradiction|].
  destruct l as [|z l].
  - reflexivity.
  - change (String.concat sep ((y :: z :: l) ++ [x])%list)
      with (y ++ sep ++ String.concat sep ((z :: l) ++ [x])%list).
    rewrite IH by discriminate.
    change (String.concat sep (y :: z :: l)) with (y ++ sep ++ String.concat sep (z :: l)).
    rewrite !append_assoc. reflexivity.
Qed.

Lemma message_snoc l g m :
  message w ip l = Some m ->
  message w ip (l ++ [g]) = Some (m ++ "; " ++ fragment w ip g).
Proof.
  unfold message. intros H. destruct l as [|x l]; [discriminate|].
  injection H as <-.
  destruct ((x :: l) ++ [g])%list eqn:E; [destruct l; discriminate|].
  rewrite <- E, map_app. simpl map at 2. rewrite concat_snoc by discriminate.
  reflexivity.
Qed.

Lemma error_stays t s s' :
  step w ip t s = Some s' ->
  Result_Error (result s) <> None -> Result_Error (result s') <> None.
Proof.
  intros H. destruct t; break_step H; simpl; intros; congruence.
Qed.

Lemma app_error_ok_mono g A (call : res A) pc s s' :
  (Result_Error (result s) <> None -> Result_Error (result s') <> None) ->
  (forall t, assigned w ip s t -> assigned w ip s' t) ->
  app_error_ok w ip g call pc s -> app_error_ok w ip g call pc s'.
Proof.
  intros Hstay Hmono. destruct pc; simpl; auto.
  - intros [Hc He]. auto.
  - intros (Hf & l & Hm & Hs & Ha). split; [exact Hf|].
    exists l. split; [exact Hm|]. split; [exact Hs|]. intros t Ht. apply Hmono, Ha, Ht.
Qed.

Lemma shape_single g : g <> Parent -> shape [g].
Proof.
  intros Hg. split; [|split].
  - constructor; [intros []|constructor].
  - intros [H|[]]. congruence.
  - intros [].
Qed.

Lemma shape_snoc l g :
  shape l -> l <> [] -> ~ In g l -> g <> Parent -> g <> GPtr -> shape (l ++ [g]).
Proof.
  intros (Hnd & Hpar & Hptr) Hne Hin Hp Hg. split; [|split].
  - apply NoDup_app; [exact Hnd|constructor; [intros []|constructor]|].
    intros x Hx [Hx'|[]]. subst. contradiction.
  - intros H. apply in_app_or in H. destruct H as [H|[H|[]]]; [contradiction|congruence].
  - destruct l as [|x l]; [contradiction|]. simpl in *.
    intros H. apply in_app_or in H. destruct H as [H|[H|[]]]; [contradiction|congruence].
Qed.

Lemma error_step t s s' :
  error_ok w ip s -> step w ip t s = Some s' -> error_ok w ip s'.
Proof.
  unfold error_ok. intros (Hp & Hi & Hl & l & He & Hs & Ha & Hn) H.
  pose proof (fun g Hg => assigned_step t s s' g Hg H) as Hmono.
  pose proof (error_stays t s s' H) as Hstay.
  pose proof (app_error_ok_mono GInfo _ (getIPInfo w ip) (info s) s s' Hstay Hmono Hi) as Hi'.
  pose proof (app_error_ok_mono GILine _ (getILineInfo w ip) (iline s) s s' Hstay Hmono Hl) as Hl'.
  destruct t; break_step H;
    cbn [ptr info iline result at_ptr at_info at_iline at_parent with_result
         with_event internal_Done] in *;
    rewrite ?Heqp, ?Heqa in *; cbn [app_error_ok] in Hi, Hl.
  all: split; [try exact Hp; try exact I; try reflexivity|].
  all: split; [try exact Hi'; cbn [app_error_ok]; try exact I; try reflexivity|].
  all: try (split; [try exact Hl'; cbn [app_error_ok]; try exact I; try reflexivity|]).
  all: try (exists l; split; [cbn; congruence|]; split; [exact Hs|]; split;
            [intros ? ?; apply Hmono; auto|];
            intros [g [Hf Hpc]]; apply Hn; exists g; split; [exact Hf|];
            destruct g; cbn in Hf, Hpc |- *; rewrite ?Heqp, ?Heqa in *;
            try (destruct Hpc; discriminate); auto;
            try match goal with
                | E : Ok _ = ?c, F : lookup_failed ?c = true |- _ =>
                    rewrite <- E in F; discriminate
                end; fail).
  - (* the reverse lookup assigns *)
    exists [GPtr]. split; [|split; [apply shape_single; discriminate|split]].
    + cbn. rewrite <- Hp. reflexivity.
    + intros t [<-|[]]. split; [cbn; rewrite <- Hp; reflexivity|left; reflexivity].
    + intros _. discriminate.
  - symmetry; exact Hi.
  - cbn. congruence.
  - cbn. rewrite <- Hi. reflexivity.
  - exists []. split; [|split; [apply shape_single; discriminate|intros t []]].
    cbn. rewrite <- Hi. reflexivity.
  - cbn. destruct Hi as [Hi _]. rewrite Hi. reflexivity.
  - destruct Hi as [Hcall Hsome]. exists l.
    destruct (Result_Error (result s)) as [m|] eqn:Em; [|congruence].
    split; [|split].
    + rewrite (message_snoc l GInfo m (eq_sym He)). cbn. rewrite Hcall. reflexivity.
    + apply shape_snoc; try discriminate; auto.
      * intros ->. discriminate.
      * intros Hin. apply Ha in Hin. destruct Hin as [_ [Hin|Hin]]; congruence.
    + intros t Ht. apply Hmono, Ha, Ht.
  - destruct Hi as (Hf & l' & Hm & Hs' & Ha').
    exists (l' ++ [GInfo])%list. split; [exact Hm|]. split; [exact Hs'|]. split.
    + intros t Ht. apply in_app_or in Ht. destruct Ht as [Ht|[<-|[]]].
      * apply Hmono, Ha', Ht.
      * split; [exact Hf|left; reflexivity].
    + intros _ Hnil. apply app_eq_nil in Hnil. destruct Hnil; discriminate.
  - split; [symmetry; exact Hl|cbn; congruence].
  - split; [cbn; rewrite <- Hl; reflexivity|].
    exists []. split; [|split; [apply shape_single; discriminate|intros t []]].
    cbn. rewrite <- Hl. reflexivity.
  - destruct Hl as [Hcall Hsome]. split; [cbn; rewrite Hcall; reflexivity|].
    exists l.
    destruct (Result_Error (result s)) as [m|] eqn:Em; [|congruence].
    split; [|split].
    + rewrite (message_snoc l GILine m (eq_sym He)). cbn. rewrite Hcall. reflexivity.
    + apply shape_snoc; try discriminate; auto.
      * intros ->. discriminate.
      * intros Hin. apply Ha in Hin. destruct Hin as [_ [Hin|Hin]]; congruence.
    + intros t Ht. apply Hmono, Ha, Ht.
  - destruct Hl as (Hf & l' & Hm & Hs' & Ha').
    exists (l' ++ [GILine])%list. split; [exact Hm|]. split; [exact Hs'|]. split.
    + intros t Ht. apply in_app_or in Ht. destruct Ht as [Ht|[<-|[]]].
      * apply Hmono, Ha', Ht.
      * split; [exact Hf|left; reflexivity].
    + intros _ Hnil. apply app_eq_nil in Hnil. destruct Hnil; discriminate.
Qed.

Lemma error_reachable isIPv6 sched : error_ok w ip (lookupIP w ip isIPv6 sched).
Proof.
  unfold lookupIP. apply run_invariant.
  - intros; eapply error_step; eauto.
  - split; [exact I|]. split; [exact I|]. split; [exact I|].
    exists []. split; [reflexivity|]. split; [|split].
    + split; [constructor|]. split; intros [].
    + intros t [].
    + intros [t [_ Ht]]. destruct t; simpl in Ht; try contradiction;
        destruct Ht; discriminate.
Qed.
End TaskData.

Lemma contains_concat (sep x : string) (l : list string) :
  In x l -> contains x (String.concat sep l) = true.
Proof.
  induction l as [|y l IH]; intros Hin; [contradiction|].
  destruct l as [|z l].
  - destruct Hin as [<-|[]]. apply contains_refl.
  - change (String.concat sep (y :: z :: l)) with (y ++ sep ++ String.concat sep (z :: l)).
    destruct Hin as [<-|Hin].
    + apply contains_prefix, prefix_app.
    + apply contains_pre, contains_pre, IH, Hin.
Qed.

Lemma internal_dones_snoc (tr : list event) (e : event) :
  internal_dones (tr ++ [e])
  = internal_dones tr + match snd e with WgInternalDone => 1 | _ => 0 end.
Proof.
  unfold internal_dones. rewrite filter_app, length_app. simpl.
  destruct (snd e); reflexivity.
Qed.

Lemma internal_dones_app (a b : list event) :
  internal_dones (a ++ b) = internal_dones a + internal_dones b.
Proof. unfold internal_dones. rewrite filter_app, length_app. reflexivity. Qed.

Lemma dones_step (w : World) (ip : string) (t : tid) (s s' : Task) :
  counts_ok s ->
  internal_dones (trace s) + wgInternal s = 3 ->
  step w ip t s = Some s' ->
  internal_dones (trace s') + wgInternal s' = 3.
Proof.
  unfold counts_ok. intros Hc Hd H.
  destruct t; break_step H; simpl in *;
    rewrite ?Heqp, ?Heqa in *; simpl in *;
    rewrite ?internal_dones_snoc; simpl; try lia.
  rewrite internal_dones_app. unfold internal_dones at 2. simpl. lia.
Qed.

Lemma dones_reachable (w : World) (ip : string) (isIPv6 : bool) (sched : list tid) :
  internal_dones (trace (lookupIP w ip isIPv6 sched))
  + wgInternal (lookupIP w ip isIPv6 sched) = 3.
Proof.
  unfold lookupIP.
  enough (H : (counts_ok (run w ip sched (spawn ip isIPv6))
               /\ parent_ok (run w ip sched (spawn ip isIPv6)))
              /\ internal_dones (trace (run w ip sched (spawn ip isIPv6)))
                 + wgInternal (run w ip sched (spawn ip isIPv6)) = 3) by apply H.
  apply (run_invariant w ip
           (fun s => (counts_ok s /\ parent_ok s)
                     /\ internal_dones (trace s) + wgInternal s = 3)).
  - intros t s s' [Hcp Hd] Hstep. split.
    + eapply counts_parent_step; eauto.
    + eapply dones_step; eauto. apply Hcp.
  - split; [apply counts_parent_spawn|reflexivity].
Qed.

Lemma send_step (w : World) (ip : string) (t : tid) (s s' : Task) :
  (resultChan s <> [] -> In (Parent, ChanSend) (trace s)) ->
  step w ip t s = Some s' ->
  resultChan s' <> [] -> In (Parent, ChanSend) (trace s').
Proof.
  intros Hs H. destruct t; break_step H; simpl; intros Hne;
    try (apply in_or_app; left; apply Hs; exact Hne);
    try (apply Hs; exact Hne).
  apply in_or_app. right. simpl. tauto.
Qed.

Lemma send_reachable (w : World) (ip : string) (isIPv6 : bool) (sched : list tid) :
  resultChan (lookupIP w ip isIPv6 sched) <> [] ->
  In (Parent, ChanSend) (trace (lookupIP w ip isIPv6 sched)).
Proof.
  unfold lookupIP.
  apply (run_invariant w ip
           (fun s => resultChan s <> [] -> In (Parent, ChanSend) (trace s))).
  - intros t s s'. apply send_step.
  - simpl. intros H. contradiction.
Qed.

Lemma before_send_keeps (tr : list event) (e : event) :
  parent_last tr = true -> is_parent e = false -> In e tr -> In e (before_send tr).
Proof.
  induction tr as [|x tr IH]; intros Hlast He Hin; [contradiction|].
  simpl in Hlast. destruct (is_parent x) eqn:Hx.
  - exfalso. destruct Hin as [<-|Hin]; [congruence|].
    rewrite forallb_forall in Hlast. rewrite (Hlast e Hin) in He. discriminate.
  - assert (Hcons : before_send (x :: tr) = x :: before_send tr).
    { destruct x as [[| | |] a]; try reflexivity. discriminate. }
    rewrite Hcons. destruct Hin as [<-|Hin]; [left; reflexivity|].
    right. apply IH; assumption.
Qed.

(** C2. For every address, every outcome of the three sub-lookups and every
    interleaving, [lookupIP] sends at most one record.  When it has sent
    it, the three goroutines have all finished: each of them made its call
    of [wgInternal.Done()] before the send, three calls in all, and the
    record holds what the three lookups returned, the names of the reverse
    lookup, the value of [getIPInfo] and the servers of [getILineInfo],
    each empty if its lookup failed.  It has sent exactly one, the record
    as the three left it, when no thread can move any more; whatever has
    happened so far, letting every thread run sixteen more times ends the
    task, and every step brings that end nearer. *)
Theorem lookupIP_one_record_after_join (w : World) (ip : string)
    (isIPv6 : bool) (sched : list tid) :
  let s := lookupIP w ip isIPv6 sched in
  length (resultChan s) <= 1
  /\ (resultChan s <> [] ->
      joined s
      /\ In (Parent, ChanSend) (trace s)
      /\ In (GPtr, WgInternalDone) (before_send (trace s))
      /\ In (GInfo, WgInternalDone) (before_send (trace s))
      /\ In (GILine, WgInternalDone) (before_send (trace s))
      /\ internal_dones (trace s) = 3
      /\ Result_PTR (result s) = match net_LookupAddr w ip with
                                 | Ok names => names
                                 | Fail _ => []
                                 end
      /\ Result_IPInfo (result s) = match getIPInfo w ip with
                                    | Ok ipInfo => Some ipInfo
                                    | Fail _ => None
                                    end
      /\ Result_ILine (result s) = match getILineInfo w ip with
                                   | Ok servers => servers
                                   | Fail _ => []
                                   end)
  /\ (parent s <> ParentWait -> joined s)
  /\ (finished w ip s = true -> resultChan s = [result s])
  /\ finished w ip (lookupIP w ip isIPv6 (sched ++ rounds 16)) = true
  /\ (forall t s', step w ip t s = Some s' -> fuel s' < fuel s).
Proof.
  intros s.
  destruct (counts_parent_reachable w ip isIPv6 sched) as [Hc Hp].
  fold s in Hc, Hp.
  split; [|split; [|split; [|split; [|split]]]].
  - unfold parent_ok in Hp.
    destruct (parent s); destruct Hp as (? & Hp); try destruct Hp as (Hp & ?);
      try rewrite H; try rewrite Hp; simpl; lia.
  - intros Hne.
    destruct (sent_joined w ip isIPv6 sched Hne) as (J1 & J2 & J3). fold s in J1, J2, J3.
    destruct (trace_reachable w ip isIPv6 sched) as (_ & Hlast & _ & D1 & D2 & D3).
    fold s in Hlast, D1, D2, D3.
    pose proof (dones_reachable w ip isIPv6 sched) as Hd. fold s in Hd.
    destruct (data_reachable w ip isIPv6 sched) as (Hptr & Hinfo & Hiline).
    fold s in Hptr, Hinfo, Hiline.
    rewrite J1 in Hptr. unfold app_data_ok in Hinfo, Hiline.
    rewrite J2 in Hinfo. rewrite J3 in Hiline.
    assert (Hz : wgInternal s = 0).
    { unfold counts_ok in Hc. rewrite Hc, J1, J2, J3. reflexivity. }
    split; [repeat split; assumption|].
    split; [apply send_reachable; exact Hne|].
    split; [apply before_send_keeps; [exact Hlast|reflexivity|exact (D1 J1)]|].
    split; [apply before_send_keeps; [exact Hlast|reflexivity|exact (D2 J2)]|].
    split; [apply before_send_keeps; [exact Hlast|reflexivity|exact (D3 J3)]|].
    split; [lia|]. split; [exact Hptr|]. split; [exact Hinfo|exact Hiline].
  - apply past_wait_joined.
  - intros Hfin. unfold parent_ok in Hp.
    pose proof (finished_stuck w ip s Parent Hfin) as Hpar.
    pose proof (finished_stuck w ip s GPtr Hfin) as Hg1.
    pose proof (finished_stuck w ip s GInfo Hfin) as Hg2.
    pose proof (finished_stuck w ip s GILine Hfin) as Hg3.
    unfold counts_ok in Hc.
    cbn [step] in *. unfold step_parent in Hpar.
    unfold step_ptr in Hg1. unfold step_info, step_app in Hg2.
    unfold step_iline, step_app in Hg3.
    destruct (parent s); try discriminate; [|apply Hp].
    destruct (ptr s) as [|[?|?]| |]; try discriminate.
    destruct (info s) as [|[?|?]|?|?| |]; try discriminate;
      try (destruct (Result_Error (result s)); discriminate).
    destruct (iline s) as [|[?|?]|?|?| |]; try discriminate;
      try (destruct (Result_Error (result s)); discriminate).
    simpl in Hc. rewrite Hc in Hpar. discriminate.
  - unfold lookupIP. rewrite run_app. apply rounds_finish.
    etransitivity; [apply run_fuel|]. unfold fuel; simpl; lia.
  - intros t s' Hstep. eapply step_fuel; eauto.
Qed.

Lemma lookupIP_one_record_after_join_witness :
  let w := sample_world (sample_cli false false "1.2.3.4") (Ok ["host.example.com"])
                        (Fail "context deadline exceeded") (Ok "two servers") in
  let s := lookupIP w "1.2.3.4" false (rounds 16) in
  finished w "1.2.3.4" s = true /\ resultChan s = [result s] /\ joined s
  /\ In (GILine, WgInternalDone) (before_send (trace s))
  /\ Result_PTR (result s) = ["host.example.com"]
  /\ Result_IPInfo (result s) = None
  /\ Result_ILine (result s) = ["irc1.example.net"; "irc2.example.net"].
Proof.
  intros w. cbv zeta.
  destruct (lookupIP_one_record_after_join w "1.2.3.4" false (rounds 16))
    as (_ & Hsent & _ & Hone & _ & _).
  assert (Hfin : finished w "1.2.3.4" (lookupIP w "1.2.3.4" false (rounds 16)) = true)
    by (vm_compute; reflexivity).
  split; [exact Hfin|]. split; [exact (Hone Hfin)|].
  destruct Hsent as (Hj & _ & _ & _ & Hd & _ & Hptr & Hinfo & Hiline);
    [rewrite (Hone Hfin); discriminate|].
  split; [exact Hj|]. split; [exact Hd|].
  split; [exact Hptr|]. split; [exact Hinfo|exact Hiline].
Defined.

(** X1. Whatever the interleaving, the record [lookupIP] sends holds the
    address and family it was given, the names of the reverse lookup (none
    if it failed), the value of [getIPInfo] (nil if it failed) and the
    servers of [getILineInfo] (none if it failed): of the six fields only
    [Error] depends on the order in which the goroutines run. *)
Theorem lookupIP_record_data (w : World) (ip : string) (isIPv6 : bool)
    (sched : list tid) (r : Result) :
  In r (resultChan (lookupIP w ip isIPv6 sched)) ->
  Result_IP r = ip
  /\ Result_IsIPv6 r = isIPv6
  /\ Result_PTR r = match net_LookupAddr w ip with
                    | Ok names => names
                    | Fail _ => []
                    end
  /\ Result_IPInfo r = match getIPInfo w ip with
                       | Ok ipInfo => Some ipInfo
                       | Fail _ => None
                       end
  /\ Result_ILine r = match getILineInfo w ip with
                      | Ok servers => servers
                      | Fail _ => []
                      end.
Proof.
  intros Hin.
  assert (Hne : resultChan (lookupIP w ip isIPv6 sched) <> [])
    by (intros Hnil; rewrite Hnil in Hin; contradiction).
  destruct (sent_joined w ip isIPv6 sched Hne) as (J1 & J2 & J3).
  apply sent_is_result in Hin. subst r.
  destruct (identity_reachable w ip isIPv6 sched) as [Hip Hv6].
  destruct (data_reachable w ip isIPv6 sched) as (Hp & Hi & Hl).
  rewrite J1 in Hp. unfold app_data_ok in Hi, Hl. rewrite J2 in Hi. rewrite J3 in Hl.
  repeat split; assumption.
Qed.

Lemma lookupIP_record_data_witness :
  let w := sample_world (sample_cli false false "1.2.3.4") (Ok ["host.example.com"])
                        (Fail "context deadline exceeded") (Ok "two servers") in
  let r := result (lookupIP w "1.2.3.4" false (rounds 16)) in
  Result_PTR r = ["host.example.com"]
  /\ Result_IPInfo r = None
  /\ Result_ILine r = ["irc1.example.net"; "irc2.example.net"].
Proof.
  cbv zeta.
  destruct (lookupIP_record_data
              (sample_world (sample_cli false false "1.2.3.4") (Ok ["host.example.com"])
                            (Fail "context deadline exceeded") (Ok "two servers"))
              "1.2.3.4" false (rounds 16)
              (result (lookupIP
                         (sample_world (sample_cli false false "1.2.3.4")
                                       (Ok ["host.example.com"])
                                       (Fail "context deadline exceeded")
                                       (Ok "two servers"))
                         "1.2.3.4" false (rounds 16))))
    as (_ & _ & Hp & Hi & Hl).
  - vm_compute. left. reflexivity.
  - split; [exact Hp|]. split; [exact Hi|exact Hl].
Defined.

(** X2. The record [lookupIP] sends has a nil [Error] exactly when the
    three sub-lookups all succeeded: a failure of any of them is never lost
    altogether, whatever the interleaving. *)
Theorem lookupIP_error_iff_failure (w : World) (ip : string) (isIPv6 : bool)
    (sched : list tid) (r : Result) :
  In r (resultChan (lookupIP w ip isIPv6 sched)) ->
  (Result_Error r = None
   <-> failed w ip GPtr = false /\ failed w ip GInfo = false
       /\ failed w ip GILine = false).
Proof.
  intros Hin.
  assert (Hne : resultChan (lookupIP w ip isIPv6 sched) <> [])
    by (intros Hnil; rewrite Hnil in Hin; contradiction).
  destruct (sent_joined w ip isIPv6 sched Hne) as (J1 & J2 & J3).
  apply sent_is_result in Hin. subst r.
  destruct (error_reachable w ip isIPv6 sched) as (_ & _ & _ & l & He & _ & Ha & Hn).
  rewrite He. split.
  - intros Hnone.
    assert (Hl : l = []) by (destruct l; [reflexivity|discriminate]).
    assert (Hno : forall t, ~ assigned w ip (lookupIP w ip isIPv6 sched) t).
    { intros t Ht. apply Hn; [exists t; exact Ht|exact Hl]. }
    repeat split.
    + destruct (failed w ip GPtr) eqn:F; [|reflexivity].
      exfalso. apply (Hno GPtr). split; [exact F|right; exact J1].
    + destruct (failed w ip GInfo) eqn:F; [|reflexivity].
      exfalso. apply (Hno GInfo). split; [exact F|right; exact J2].
    + destruct (failed w ip GILine) eqn:F; [|reflexivity].
      exfalso. apply (Hno GILine). split; [exact F|right; exact J3].
  - intros (F1 & F2 & F3). destruct l as [|t l]; [reflexivity|].
    destruct (Ha t (or_introl eq_refl)) as [Hf _].
    destruct t; try congruence; simpl in Hf; discriminate.
Qed.

Lemma lookupIP_error_iff_failure_witness :
  let w := sample_world (sample_cli false false "1.2.3.4") (Ok ["host.example.com"])
                        (Ok "example org") (Ok "two servers") in
  Result_Error (result (lookupIP w "1.2.3.4" false (rounds 16))) = None.
Proof.
  cbv zeta.
  apply (lookupIP_error_iff_failure
           (sample_world (sample_cli false false "1.2.3.4") (Ok ["host.example.com"])
                         (Ok "example org") (Ok "two servers"))
           "1.2.3.4" false (rounds 16)).
  - vm_compute. left. reflexivity.
  - vm_compute. repeat split.
Defined.

(** X3. The [Error] of the record [lookupIP] sends is nil or the fragments
    of some of the goroutines whose lookup failed, whole and joined by
    ["; "]: no goroutine appears twice, the fragment of the reverse lookup,
    which is assigned and never appended, can only be the first, and each
    fragment listed can be found in the message. *)
Theorem lookupIP_error_shape (w : World) (ip : string) (isIPv6 : bool)
    (sched : list tid) (r : Result) :
  In r (resultChan (lookupIP w ip isIPv6 sched)) ->
  exists l,
    Result_Error r = message w ip l
    /\ shape l
    /\ (forall t, In t l -> failed w ip t = true)
    /\ (forall t msg,
          In t l -> Result_Error r = Some msg ->
          contains (fragment w ip t) msg = true).
Proof.
  intros Hin. apply sent_is_result in Hin. subst r.
  destruct (error_reachable w ip isIPv6 sched) as (_ & _ & _ & l & He & Hs & Ha & _).
  exists l. split; [exact He|]. split; [exact Hs|]. split.
  - intros t Ht. apply Ha, Ht.
  - intros t msg Ht Hmsg. rewrite He in Hmsg.
    destruct l as [|x l]; [discriminate|].
    assert (Hm : msg = String.concat "; " (map (fragment w ip) (x :: l)))
      by (change (message w ip (x :: l))
            with (Some (String.concat "; " (map (fragment w ip) (x :: l)))) in Hmsg;
          congruence).
    rewrite Hm. apply contains_concat, in_map, Ht.
Qed.

Lemma lookupIP_error_shape_witness :
  let w := dead_world (sample_cli false false "1.2.3.4") in
  exists l,
    Result_Error (result (lookupIP w "1.2.3.4" false (rounds 16)))
    = message w "1.2.3.4" l
    /\ shape l.
Proof.
  cbv zeta.
  destruct (lookupIP_error_shape (dead_world (sample_cli false false "1.2.3.4"))
              "1.2.3.4" false (rounds 16)
              (result (lookupIP (dead_world (sample_cli false false "1.2.3.4"))
                                "1.2.3.4" false (rounds 16))))
    as (l & He & Hs & _).
  - vm_compute. left. reflexivity.
  - exists l. split; assumption.
Defined.

(** X4. The counter of [wgInternal] plus the calls of [Done] made is always
    3, so no [Done] finds the counter at zero; once [Wait] has returned the
    three calls have been made; and the deferred [wg.Done()] of [lookupIP]
    runs at most once, and only after the record is on the channel. *)
Theorem lookupIP_wait_groups (w : World) (ip : string) (isIPv6 : bool)
    (sched : list tid) :
  let s := lookupIP w ip isIPv6 sched in
  internal_dones (trace s) + wgInternal s = 3
  /\ (parent s <> ParentWait -> internal_dones (trace s) = 3)
  /\ wg_Done s <= 1
  /\ (wg_Done s = 1 -> parent s = ParentEnd /\ resultChan s = [result s]).
Proof.
  cbv zeta.
  pose proof (dones_reachable w ip isIPv6 sched) as Hd.
  destruct (counts_parent_reachable w ip isIPv6 sched) as [Hc Hp].
  unfold parent_ok in Hp.
  split; [exact Hd|]. split; [|split].
  - intros Hne.
    destruct (parent (lookupIP w ip isIPv6 sched)); [congruence| | |];
      destruct Hp as [Hz _]; lia.
  - destruct (parent (lookupIP w ip isIPv6 sched)); unpack; lia.
  - intros Hone.
    destruct (parent (lookupIP w ip isIPv6 sched)); unpack;
      try (exfalso; lia); split; [reflexivity|assumption].
Qed.

Lemma lookupIP_wait_groups_witness :
  let s := lookupIP (dead_world (sample_cli false false "1.2.3.4")) "1.2.3.4" false
                    (rounds 16) in
  wg_Done s = 1 /\ internal_dones (trace s) = 3 /\ resultChan s = [result s].
Proof.
  cbv zeta.
  destruct (lookupIP_wait_groups (dead_world (sample_cli false false "1.2.3.4"))
              "1.2.3.4" false (rounds 16)) as (_ & Hthree & _ & Hone).
  assert (H : wg_Done (lookupIP (dead_world (sample_cli false false "1.2.3.4"))
                                "1.2.3.4" false (rounds 16)) = 1)
    by (vm_compute; reflexivity).
  split; [exact H|]. split.
  - apply Hthree. destruct (Hone H) as [Hp _]. rewrite Hp. discriminate.
  - apply (Hone H).
Defined.

(** ** The I-line lookup, the start of main *)

Lemma collect_servers_map (servers : list string) (response : list ILineServer) :
  collect_servers servers response = (servers ++ map ServerName response)%list.
Proof.
  revert servers. induction response as [|server rest IH]; intros servers; simpl.
  - rewrite app_nil_r. reflexivity.
  - rewrite IH, <- app_assoc. reflexivity.
Qed.

(** X5. [getILineInfo] succeeds exactly when the request is built, the call
    answers, the body is read and decodes, and the status is ["SUCCESS"];
    it then returns the server names of the response, all of them and in
    the order of the response.  When it fails, the error is the one of the
    step that failed, unchanged, or the fixed one of line 133. *)
Theorem getILineInfo_outcome (w : World) (ip : string) :
  (forall servers,
     getILineInfo w ip = Ok servers
     <-> exists body iLineInfo,
           served w ip body
           /\ json_Unmarshal_ILineInfo w body = Ok iLineInfo
           /\ ILineInfo_Status iLineInfo = "SUCCESS"
           /\ servers = map ServerName (ILineInfo_Response iLineInfo))
  /\ (forall err,
        getILineInfo w ip = Fail err ->
        let url := "https://bot.ircnet.info/api/i-line?q=" ++ ip in
        http_NewRequestWithContext w "GET" url = Fail err
        \/ (exists req, http_NewRequestWithContext w "GET" url = Ok req
                        /\ ilineClient_Do w req = Fail err)
        \/ (exists req resp,
              http_NewRequestWithContext w "GET" url = Ok req
              /\ ilineClient_Do w req = Ok resp
              /\ ioutil_ReadAll w resp = Fail err)
        \/ (exists body, served w ip body
                         /\ json_Unmarshal_ILineInfo w body = Fail err)
        \/ (exists body iLineInfo,
              served w ip body
              /\ json_Unmarshal_ILineInfo w body = Ok iLineInfo
              /\ ILineInfo_Status iLineInfo <> "SUCCESS"
              /\ err = "failed to get I-line info")).
Proof.
  split.
  - intros servers. split.
    + unfold getILineInfo, decode_ILine.
      destruct (http_NewRequestWithContext w "GET"
                  ("https://bot.ircnet.info/api/i-line?q=" ++ ip)) as [req|e] eqn:Hreq;
        [|discriminate].
      destruct (ilineClient_Do w req) as [resp|e] eqn:Hdo; [|discriminate].
      destruct (ioutil_ReadAll w resp) as [body|e] eqn:Hread; [|discriminate].
      destruct (json_Unmarshal_ILineInfo w body) as [info|e] eqn:Hjson; [|discriminate].
      destruct (ILineInfo_Status info =? "SUCCESS") eqn:Hst; [|discriminate].
      simpl. intros H. injection H as <-.
      exists body, info. split; [exists req, resp; auto|].
      split; [exact Hjson|]. split; [apply String.eqb_eq; exact Hst|].
      apply collect_servers_map.
    + intros (body & info & Hserved & Hjson & Hst & ->).
      rewrite (served_decodes w ip body Hserved). unfold decode_ILine.
      rewrite Hjson. apply String.eqb_eq in Hst. rewrite Hst. simpl.
      rewrite collect_servers_map. reflexivity.
  - intros err. cbv zeta. unfold getILineInfo, decode_ILine.
    destruct (http_NewRequestWithContext w "GET"
                ("https://bot.ircnet.info/api/i-line?q=" ++ ip)) as [req|e] eqn:Hreq;
      [|intros H; left; congruence].
    destruct (ilineClient_Do w req) as [resp|e] eqn:Hdo;
      [|intros H; right; left; exists req; split; congruence].
    destruct (ioutil_ReadAll w resp) as [body|e] eqn:Hread;
      [|intros H; right; right; left; exists req, resp;
        split; [reflexivity|]; split; [exact Hdo|congruence]].
    assert (Hserved : served w ip body) by (exists req, resp; auto).
    destruct (json_Unmarshal_ILineInfo w body) as [info|e] eqn:Hjson;
      [|intros H; right; right; right; left; exists body; split; congruence].
    destruct (ILineInfo_Status info =? "SUCCESS") eqn:Hst; simpl; [discriminate|].
    intros H. right; right; right; right. exists body, info.
    split; [exact Hserved|]. split; [exact Hjson|].
    split; [apply String.eqb_neq; exact Hst|congruence].
Qed.

Lemma getILineInfo_outcome_witness :
  getILineInfo two_addresses "1.2.3.4" = Ok ["irc1.example.net"; "irc2.example.net"].
Proof.
  apply (getILineInfo_outcome two_addresses "1.2.3.4").
  exists "two servers",
         {| ILineInfo_Status := "SUCCESS";
            ILineInfo_Response := [ {| ServerName := "irc1.example.net" |};
                                    {| ServerName := "irc2.example.net" |} ] |}.
  split; [apply sample_served|]. repeat split.
Defined.

Lemma abort_output (line : Printed) (sched : list mtid) :
  forall h cancelled pc out a b,
    out = (a ++ match h with
                | HandlerWaits => []
                | _ => [PrintText interrupt_notice]
                end ++ b)%list ->
    (a ++ b)%list = match pc with
                    | AbortPrint => []
                    | AbortExit => [line]
                    end ->
    (cancelled = true <-> h = HandlerEnd) ->
    let p := abort line sched h cancelled pc out in
    (mainCtx_cancelled p = true <-> handler p = HandlerEnd)
    /\ exists a' b',
         stdout p = (a' ++ handler_printed p ++ b')%list
         /\ ((status p = Running
              /\ ((a' ++ b')%list = [] \/ (a' ++ b')%list = [line]))
             \/ (status p = Exited 1 /\ (a' ++ b')%list = [line])).
Proof.
  induction sched as [|m sched IH]; intros h cancelled pc out a b Hout Hmain Hc;
    cbv zeta.
  - simpl. split; [exact Hc|]. exists a, b. split; [exact Hout|].
    left. split; [reflexivity|]. rewrite Hmain. destruct pc; auto.
  - destruct m; try (apply (IH h cancelled pc out a b); assumption).
    + destruct h; simpl.
      * apply (IH HandlerPrinted cancelled pc _ (a ++ b)%list []).
        -- rewrite Hout. simpl. rewrite ?app_nil_r, <- ?app_assoc. reflexivity.
        -- rewrite app_nil_r. exact Hmain.
        -- split; intros H; [apply Hc in H|]; discriminate.
      * apply (IH HandlerEnd true pc out a b); [exact Hout|exact Hmain|].
        split; reflexivity.
      * apply (IH HandlerEnd cancelled pc out a b); assumption.
    + destruct pc; simpl.
      * apply app_eq_nil in Hmain. destruct Hmain as [-> ->].
        apply (IH h cancelled AbortExit _ [] [line]); [|reflexivity|exact Hc].
        rewrite Hout. simpl. rewrite ?app_nil_r. reflexivity.
      * split; [exact Hc|]. exists a, b. split; [exact Hout|].
        right. split; [reflexivity|exact Hmain].
Qed.

(** X6. A target that is not a literal address is looked up twice before
    any [lookupIP] starts: [validateInput] calls [net.LookupHost] and drops
    its answer, and main then calls [net.LookupIP].  If the first fails the
    process ends with status 1 after one line of output, the second never
    called and the signal handler not yet there.  If the second fails (a
    target can pass validation and still fail resolution) main prints its
    error line and leaves with status 1 while the handler is alive: in
    every interleaving no [lookupIP] exists, the output is the error line,
    once, together with the notice of the handler if a signal came, before
    the line or after it, and two steps of main end the process. *)
Theorem hostname_is_resolved_twice (w : World) (cli : CLI) (sched : list mtid) :
  kong_Parse w = KongParsed cli ->
  net_ParseIP w (CLI_Target cli) = None ->
  let target := CLI_Target cli in
  let p := main w sched in
  match net_LookupHost w target with
  | Fail err =>
      let line := PrintText (red w "Error" ++ ": "
                               ++ red w ("invalid domain or IP address: " ++ err)
                               ++ nl) in
      startup w = StartExit [CallParseIP target; CallLookupHost target] [line] 1
      /\ status p = Exited 1 /\ stdout p = [line] /\ lookups p = []
  | Ok _ =>
      match net_LookupIP w target with
      | Fail err =>
          let line := PrintText (red w "Error looking up IP for domain" ++ ": "
                                   ++ red w err ++ nl) in
          startup w
          = StartAborts [CallParseIP target; CallLookupHost target;
                         CallParseIP target; CallLookupIP target] line
          /\ lookups p = []
          /\ (mainCtx_cancelled p = true <-> handler p = HandlerEnd)
          /\ (exists a b,
                stdout p = (a ++ handler_printed p ++ b)%list
                /\ ((status p = Running
                     /\ ((a ++ b)%list = [] \/ (a ++ b)%list = [line]))
                    \/ (status p = Exited 1 /\ (a ++ b)%list = [line])))
          /\ forall c1 c2,
               exit_code (main w (sched ++ [Main c1; Main c2])) = Some 1%Z
      | Ok ips =>
          startup w
          = StartLaunched [CallParseIP target; CallLookupHost target;
                           CallParseIP target; CallLookupIP target]
              cli (launch w cli ips)
      end
  end.
Proof.
  intros Hkong Hparse. cbv zeta. unfold main, startup, validateInput, resolve.
  rewrite Hkong, Hparse.
  destruct (net_LookupHost w (CLI_Target cli)) as [hosts|err];
    [|repeat split].
  destruct (net_LookupIP w (CLI_Target cli)) as [ips|err]; [reflexivity|].
  split; [reflexivity|]. split; [apply abort_lookups|].
  destruct (abort_output
              (PrintText (red w "Error looking up IP for domain" ++ ": "
                            ++ red w err ++ nl))
              sched HandlerWaits false AbortPrint [] [] [])
    as [Hc Hout]; [reflexivity|reflexivity|split; discriminate|].
  split; [exact Hc|]. split; [exact Hout|].
  intros c1 c2. apply abort_ends.
Qed.

Lemma hostname_is_resolved_twice_witness :
  let p := main half_resolved [Main CaseDone; Handler; Main CaseDone] in
  lookups p = []
  /\ exit_code p = Some 1%Z
  /\ stdout p
     = [PrintText ("Error looking up IP for domain: lookup: server misbehaving" ++ nl);
        PrintText interrupt_notice]
  /\ (exists calls l,
        startup two_addresses
        = StartLaunched calls (sample_cli false false "example.com") l
        /\ length (filter is_dns calls) = 2
        /\ started l = [("1.2.3.4", false); ("2001:db8::1", true)]).
Proof.
  cbv zeta.
  pose proof (hostname_is_resolved_twice half_resolved
                (sample_cli false false "nowhere.invalid")
                [Main CaseDone; Handler; Main CaseDone] eq_refl eq_refl) as H.
  cbv zeta in H.
  change (net_LookupHost half_resolved
            (CLI_Target (sample_cli false false "nowhere.invalid")))
    with (@Ok (list string) ["192.0.2.1"]) in H.
  change (net_LookupIP half_resolved
            (CLI_Target (sample_cli false false "nowhere.invalid")))
    with (@Fail (list net_IP) "lookup: server misbehaving") in H.
  cbv iota beta in H. destruct H as (_ & Hl & _).
  split; [exact Hl|]. split; [reflexivity|]. split; [reflexivity|].
  pose proof (hostname_is_resolved_twice two_addresses
                (sample_cli false false "example.com") [] eq_refl eq_refl) as H.
  cbv zeta in H.
  change (net_LookupHost two_addresses (CLI_Target (sample_cli false false "example.com")))
    with (@Ok (list string) ["1.2.3.4"; "2001:db8::1"]) in H.
  change (net_LookupIP two_addresses (CLI_Target (sample_cli false false "example.com")))
    with (@Ok (list net_IP) [ip_1_2_3_4; ip_2001_db8__1]) in H.
  cbv iota beta in H.
  do 2 eexists. split; [exact H|]. split; reflexivity.
Defined.

Lemma filter_partition {A : Type} (f : A -> bool) (l : list A) :
  Permutation (filter f l ++ filter (fun x => negb (f x)) l) l.
Proof.
  induction l as [|x l IH]; simpl; [constructor|].
  destruct (f x); simpl.
  - constructor. exact IH.
  - apply Permutation_sym, Permutation_cons_app, Permutation_sym. exact IH.
Qed.

(** X7. Giving both -4 and -6 is the same as giving neither: every address
    is kept.  Giving one of them splits the addresses in two: those kept
    under -4 alone and those kept under -6 alone are together the
    addresses, each once.  In every case the count printed as the total and
    the count of the wait group are the number of goroutines started. *)
Theorem family_flags (w : World) (cli : CLI) (ips : list net_IP) :
  let all := map (fun ip => (IP_String w ip, isIPv6_of ip)) ips in
  let only (ipv4 ipv6 : bool) :=
    started (launch w {| CLI_IPv4 := ipv4; CLI_IPv6 := ipv6;
                         CLI_Timeout := CLI_Timeout cli;
                         CLI_ILineTimeout := CLI_ILineTimeout cli;
                         CLI_Target := CLI_Target cli |} ips) in
  only true true = all
  /\ only false false = all
  /\ Permutation (only true false ++ only false true) all
  /\ totalIPs (launch w cli ips) = length (started (launch w cli ips))
  /\ wg (launch w cli ips) = length (started (launch w cli ips)).
Proof.
  cbv zeta. unfold launch. rewrite !launch_from. simpl.
  split; [|split; [|split; [|split]]].
  - f_equal. unfold keeps. simpl. clear. induction ips as [|ip ips IH]; simpl.
    + reflexivity.
    + destruct (isIPv6_of ip); simpl; rewrite IH; reflexivity.
  - f_equal. unfold keeps. simpl. clear. induction ips as [|ip ips IH]; simpl.
    + reflexivity.
    + rewrite IH; reflexivity.
  - rewrite <- map_app. apply Permutation_map.
    assert (H6 : forall l : list net_IP,
               filter (fun ip => keeps {| CLI_IPv4 := false; CLI_IPv6 := true;
                                          CLI_Timeout := CLI_Timeout cli;
                                          CLI_ILineTimeout := CLI_ILineTimeout cli;
                                          CLI_Target := CLI_Target cli |}
                                       (isIPv6_of ip)) l
               = filter (fun ip => negb (keeps {| CLI_IPv4 := true; CLI_IPv6 := false;
                                                   CLI_Timeout := CLI_Timeout cli;
                                                   CLI_ILineTimeout := CLI_ILineTimeout cli;
                                                   CLI_Target := CLI_Target cli |}
                                                (isIPv6_of ip))) l).
    { intros l. apply filter_ext. intros ip. unfold keeps. simpl.
      destruct (isIPv6_of ip); reflexivity. }
    rewrite H6. apply filter_partition.
  - rewrite length_map. reflexivity.
  - rewrite length_map. reflexivity.
Qed.

(** ** The process: what flows through the channels *)

Section Flow.
Variable w : World.

Lemma step_sends (ip : string) (t : tid) (tk tk' : Task) :
  step w ip t tk = Some tk' ->
  resultChan tk' = (resultChan tk ++ sends t tk)%list.
Proof.
  unfold sends. intros H. destruct t; break_step H; simpl;
    rewrite ?Heqp, ?app_nil_r; reflexivity.
Qed.

Lemma step_lookup_inv (i : nat) (t : tid) (p p' : Process) :
  step_lookup w i t p = Some p' ->
  exists ip tk tk',
    nth_error (lookups p) i = Some (ip, tk)
    /\ step w ip t tk = Some tk'
    /\ p' = with_lookups p (replace_nth i (lookups p) (ip, tk')) (sends t tk)
    /\ (sends t tk <> [] -> length (main_resultChan p) < resultChan_cap).
Proof.
  unfold step_lookup, sends. intros H.
  destruct (nth_error (lookups p) i) as [[ip tk]|]; [|discriminate].
  exists ip, tk.
  destruct t; try (destruct (step w ip _ tk) as [tk'|] eqn:E; [|discriminate];
                   injection H as <-; exists tk';
                   repeat split; auto; intros Hne; contradiction).
  destruct (parent tk) eqn:Ep.
  1,3,4: destruct (step w ip Parent tk) as [tk'|] eqn:E; [|discriminate];
         injection H as <-; exists tk';
         repeat split; auto; intros Hne; contradiction.
  destruct (length (main_resultChan p) <? resultChan_cap)%nat eqn:Hroom; [|discriminate].
  destruct (step w ip Parent tk) as [tk'|] eqn:E; [|discriminate].
  injection H as <-. exists tk'. repeat split; auto.
  intros _. apply Nat.ltb_lt. exact Hroom.
Qed.

Lemma Forall2_replace_nth {A B : Type} (R : A -> B -> Prop) (l1 : list A)
    (l2 : list B) (i : nat) (b b' : B) :
  Forall2 R l1 l2 -> nth_error l2 i = Some b ->
  (forall a, R a b -> R a b') ->
  Forall2 R l1 (replace_nth i l2 b').
Proof.
  intros H. revert i. induction H as [|x y l1 l2 Hxy H IH]; intros i Hn Hr.
  - destruct i; constructor.
  - destruct i as [|i]; simpl in *.
    + injection Hn as ->. constructor; auto.
    + constructor; auto.
Qed.

Lemma Forall2_in_right {A B : Type} (R : A -> B -> Prop) (l1 : list A)
    (l2 : list B) (b : B) :
  Forall2 R l1 l2 -> In b l2 -> exists a, In a l1 /\ R a b.
Proof.
  intros H. induction H as [|x y l1 l2 Hxy H IH]; intros Hin; [contradiction|].
  destruct Hin as [<-|Hin].
  - exists x. split; [left; reflexivity|exact Hxy].
  - destruct (IH Hin) as (a & Ha & Hr). exists a. split; [right; exact Ha|exact Hr].
Qed.

Lemma sent_records_replace (ls : list (string * Task)) (i : nat) (ip : string)
    (tk tk' : Task) (new : list Result) :
  nth_error ls i = Some (ip, tk) ->
  resultChan tk' = (resultChan tk ++ new)%list ->
  Permutation (sent_records (replace_nth i ls (ip, tk'))) (sent_records ls ++ new).
Proof.
  revert i. induction ls as [|a ls IH]; intros i Hn Hr.
  - destruct i; discriminate.
  - destruct i as [|i]; simpl in *.
    + injection Hn as ->. unfold sent_records. simpl. rewrite Hr.
      rewrite <- !app_assoc. apply Permutation_app_head, Permutation_app_comm.
    + unfold sent_records in *. simpl. rewrite <- app_assoc.
      apply Permutation_app_head. apply IH; assumption.
Qed.

Lemma replace_nth_length {A : Type} (i : nat) (l : list A) (a : A) :
  length (replace_nth i l a) = length l.
Proof.
  revert i. induction l as [|x l IH]; intros i; [destruct i; reflexivity|].
  destruct i; simpl; [reflexivity|rewrite IH; reflexivity].
Qed.

Lemma runs_of_step (st : string * bool) (ip : string) (t : tid) (tk tk' : Task) :
  runs_of w st (ip, tk) -> step w ip t tk = Some tk' -> runs_of w st (ip, tk').
Proof.
  unfold runs_of. simpl. intros [Hip [sched Hs]] Hstep. split; [exact Hip|].
  exists (sched ++ [t])%list. unfold lookupIP in *. rewrite run_app. simpl.
  rewrite <- Hs, <- Hip, Hstep. reflexivity.
Qed.

Lemma runs_of_done_stuck (st : string * bool) (a : string * Task) (t : tid) :
  runs_of w st a -> (0 <? wg_Done (snd a))%nat = true ->
  parent (snd a) = ParentEnd /\ resultChan (snd a) = [result (snd a)]
  /\ step w (fst a) t (snd a) = None.
Proof.
  intros [Hip [sched Hs]] Hd. apply Nat.ltb_lt in Hd.
  rewrite Hip, Hs in *.
  destruct (counts_parent_reachable w (fst st) (snd st) sched) as [Hc Hp].
  unfold parent_ok in Hp.
  destruct (parent (lookupIP w (fst st) (snd st) sched)) eqn:Ep; unpack; try lia.
  split; [reflexivity|]. split; [assumption|].
  destruct (live_zero_joined _ Hc H) as (J1 & J2 & J3).
  destruct t; simpl; unfold step_ptr, step_info, step_iline, step_parent, step_app;
    rewrite ?J1, ?J2, ?J3, ?Ep; reflexivity.
Qed.

Lemma runs_of_sent_once (st : string * bool) (a : string * Task) :
  runs_of w st a -> length (resultChan (snd a)) <= 1.
Proof.
  intros [Hip [sched Hs]]. rewrite Hs.
  destruct (counts_parent_reachable w (fst st) (snd st) sched) as [Hc Hp].
  unfold parent_ok in Hp.
  destruct (parent (lookupIP w (fst st) (snd st) sched)); unpack;
    repeat match goal with E : resultChan _ = _ |- _ => rewrite E end; simpl; lia.
Qed.

Lemma flow_step (l : Launch) (m : mtid) (p p' : Process) :
  flow_ok w l p -> pstep w m p = Some p' -> flow_ok w l p'.
Proof.
  unfold flow_ok. intros (Hruns & Htot & Hperm & Hcap & Hclosed & Hdone) H.
  unfold pstep in H. destruct (status p); [|discriminate].
  destruct m.
  - apply step_lookup_inv in H.
    destruct H as (ip & tk & tk' & Hn & Hstep & -> & Hroom). simpl.
    assert (Hopen : resultChan_closed p = false).
    { destruct (resultChan_closed p) eqn:Hc; [|reflexivity]. exfalso.
      specialize (Hclosed eq_refl). unfold wg_zero in Hclosed.
      rewrite forallb_forall in Hclosed.
      pose proof (nth_error_In _ _ Hn) as Hin.
      specialize (Hclosed _ Hin).
      destruct (Forall2_in_right _ _ _ _ Hruns Hin) as (st & _ & Hst).
      destruct (runs_of_done_stuck st (ip, tk) t Hst Hclosed) as (_ & _ & Hnone).
      simpl in Hnone. congruence. }
    split; [|split; [exact Htot|split; [|split; [|split]]]].
    + eapply Forall2_replace_nth; eauto.
      intros st Hst. eapply runs_of_step; eauto.
    + rewrite app_assoc.
      eapply Permutation_trans;
        [apply Permutation_app_tail; exact Hperm|].
      apply Permutation_sym, (sent_records_replace _ _ _ tk); [exact Hn|].
      eapply step_sends; eauto.
    + rewrite length_app. destruct (sends t tk) eqn:Es; simpl; [lia|].
      assert (Hr : length (main_resultChan p) < resultChan_cap)
        by (apply Hroom; discriminate).
      unfold sends in Es. destruct t, (parent tk); try discriminate.
      injection Es as <- <-. simpl. lia.
    + intros Hc. congruence.
    + intros Hd. destruct (Hdone Hd). congruence.
  - unfold step_waiter in H.
    destruct (wg_zero (lookups p) && negb (resultChan_closed p))%bool eqn:E;
      [|discriminate].
    injection H as <-. simpl. apply andb_true_iff in E. destruct E as [Hz _].
    repeat split; auto; try apply Hdone; auto.
  - unfold step_collector in H.
    destruct (main_resultChan p) as [|r rest] eqn:Ec.
    + destruct (resultChan_closed p && negb (done_closed p))%bool eqn:E;
        [|discriminate].
      injection H as <-. simpl. apply andb_true_iff in E. destruct E as [Hc _].
      rewrite Ec. repeat split; auto.
    + injection H as <-. simpl. repeat split; auto.
      * rewrite <- app_assoc. exact Hperm.
      * simpl in Hcap. lia.
      * apply Hdone; assumption.
      * match goal with Hd : done_closed p = true |- _ =>
          destruct (Hdone Hd); discriminate
        end.
  - unfold step_handler in H.
    destruct (handler p); try discriminate; injection H as <-; simpl;
      repeat split; auto; try apply Hdone; auto.
  - unfold step_tick in H.
    destruct (coord p); try (destruct (ticker_ready p); [discriminate|]);
      injection H as <-; simpl; repeat split; auto; try apply Hdone; auto.
  - unfold step_main, run_case in H.
    destruct (coord p).
    + injection H as <-. simpl. repeat split; auto; apply Hdone; auto.
    + destruct (ready p CaseCtxDone || ready p CaseDone || ready p CaseTicker)%bool.
      * destruct (ready p c); [|discriminate].
        injection H as <-. destruct c; simpl; repeat split; auto; apply Hdone; auto.
      * injection H as <-. simpl. repeat split; auto; apply Hdone; auto.
    + discriminate.
    + injection H as <-. destruct c0; simpl; repeat split; auto; apply Hdone; auto.
Qed.


Lemma flow_boot (l : Launch) : flow_ok w l (boot l).
Proof.
  unfold flow_ok, boot. simpl.
  assert (H1 : forall sts, Forall2 (runs_of w) sts
                 (map (fun a => (fst a, spawn (fst a) (snd a))) sts)).
  { induction sts as [|st sts IH]; simpl; constructor; [|exact IH].
    split; [reflexivity|]. exists []. reflexivity. }
  assert (H2 : forall sts : list (string * bool),
             sent_records (map (fun a => (fst a, spawn (fst a) (snd a))) sts) = []).
  { unfold sent_records. induction sts as [|st sts IH]; simpl; [reflexivity|exact IH]. }
  rewrite H2. repeat split; auto; try discriminate.
  unfold resultChan_cap. lia.
Qed.

Lemma flow_reachable (l : Launch) (sched : list mtid) :
  flow_ok w l (prun w sched (boot l)).
Proof.
  apply prun_invariant; [intros; eapply flow_step; eauto|apply flow_boot].
Qed.

Lemma sorted_snoc (ns : list nat) (k : nat) :
  StronglySorted le ns -> Forall (fun n => n <= k) ns ->
  StronglySorted le (ns ++ [k]).
Proof.
  induction 1 as [|n ns Hs IH Hn]; intros Hk; simpl.
  - constructor; constructor.
  - inversion Hk; subst. constructor; [apply IH; assumption|].
    apply Forall_app. split; [exact Hn|]. constructor; [assumption|constructor].
Qed.

Lemma progress_lines_snoc (total : nat) (ns : list nat) (k : nat) :
  progress_lines total (ns ++ [k])
  = (progress_lines total ns ++ [PrintText (progress_line k total)])%list.
Proof. unfold progress_lines. rewrite map_app. reflexivity. Qed.

Lemma before_exit_more (p p' : Process) (out : list Printed) :
  before_exit w p out ->
  status p' = status p -> main_totalIPs p' = main_totalIPs p ->
  (coord p = CoordAnnounce <-> coord p' = CoordAnnounce) ->
  length (results p) <= length (results p') ->
  before_exit w p' out.
Proof.
  unfold before_exit. intros H Hst Htot Hco Hres.
  assert (Hgo : (exists ns,
                   StronglySorted le ns
                   /\ Forall (fun n => n <= length (results p)) ns
                   /\ out = announcement w :: progress_lines (main_totalIPs p) ns) ->
                exists ns,
                  StronglySorted le ns
                  /\ Forall (fun n => n <= length (results p')) ns
                  /\ out = announcement w :: progress_lines (main_totalIPs p') ns).
  { intros (ns & Hs & Hb & Ho). exists ns. split; [exact Hs|]. split.
    - eapply Forall_impl; [|exact Hb]. simpl. intros; lia.
    - rewrite Htot. exact Ho. }
  destruct (coord p) eqn:Ec, (coord p') eqn:Ec'; auto;
    try (destruct Hco as [Hco1 Hco2];
         first [specialize (Hco1 eq_refl)|specialize (Hco2 eq_refl)]; discriminate).
  rewrite Hst. exact H.
Qed.

Lemma wake_announce (pc : coord_pc) (c : select_case) :
  pc = CoordAnnounce <-> wake pc c = CoordAnnounce.
Proof. destruct pc; simpl; split; intros H; try discriminate; auto. Qed.

Lemma output_step (m : mtid) (p p' : Process) :
  coord_ok p -> output_ok w p -> pstep w m p = Some p' -> output_ok w p'.
Proof.
  unfold output_ok. intros Hcoord (Hcancel & a & b & e & Hout & Hbefore & Hend) H.
  unfold pstep in H. destruct (status p) eqn:Est; [|discriminate].
  unfold ending in Hend. rewrite Est in Hend. subst e.
  rewrite app_nil_r in Hout.
  destruct m.
  - apply step_lookup_inv in H.
    destruct H as (ip & tk & tk' & _ & _ & -> & _). simpl.
    split; [exact Hcancel|]. exists a, b, []. rewrite app_nil_r.
    split; [exact Hout|]. split.
    + eapply before_exit_more; eauto; simpl; tauto.
    + unfold ending. simpl. rewrite Est. reflexivity.
  - unfold step_waiter in H.
    destruct (wg_zero (lookups p) && negb (resultChan_closed p))%bool; [|discriminate].
    injection H as <-. simpl.
    split; [exact Hcancel|]. exists a, b, []. rewrite app_nil_r.
    split; [exact Hout|]. split.
    + eapply before_exit_more; eauto; simpl; tauto.
    + unfold ending. simpl. rewrite Est. reflexivity.
  - unfold step_collector in H.
    destruct (main_resultChan p) as [|r rest].
    + destruct (resultChan_closed p && negb (done_closed p))%bool; [|discriminate].
      injection H as <-. simpl.
      split; [exact Hcancel|]. exists a, b, []. rewrite app_nil_r.
      split; [exact Hout|]. split.
      * eapply before_exit_more; eauto; simpl; auto. apply wake_announce.
      * unfold ending. simpl. rewrite Est. reflexivity.
    + injection H as <-. simpl.
      split; [exact Hcancel|]. exists a, b, []. rewrite app_nil_r.
      split; [exact Hout|]. split.
      * eapply before_exit_more; eauto; simpl; try tauto.
        rewrite length_app. lia.
      * unfold ending. simpl. rewrite Est. reflexivity.
  - unfold step_handler in H. unfold handler_printed in *.
    destruct (handler p) eqn:Eh; [| |discriminate]; injection H as <-; simpl.
    + split.
      { split; intros Hc; [apply Hcancel in Hc|]; discriminate. }
      exists (a ++ b)%list, [], []. rewrite !app_nil_r. simpl in Hout.
      split; [rewrite Hout; reflexivity|]. split.
      * eapply before_exit_more; eauto; simpl; tauto.
      * unfold ending. simpl. rewrite Est. reflexivity.
    + split; [tauto|].
      exists a, b, []. rewrite app_nil_r.
      split; [exact Hout|]. split.
      * eapply before_exit_more; eauto; simpl; auto. apply wake_announce.
      * unfold ending. simpl. rewrite Est. reflexivity.
  - unfold step_tick in H.
    assert (Hsame : forall q, handler q = handler p -> stdout q = stdout p ->
                      mainCtx_cancelled q = mainCtx_cancelled p ->
                      status q = status p -> main_totalIPs q = main_totalIPs p ->
                      results q = results p ->
                      (coord p = CoordAnnounce <-> coord q = CoordAnnounce) ->
                      (mainCtx_cancelled q = true <-> handler q = HandlerEnd)
                      /\ exists a b e,
                           stdout q = (a ++ handler_printed q ++ b ++ e)%list
                           /\ before_exit w q (a ++ b) /\ ending q e).
    { intros q Hh Ho Hc Hs Ht Hr Hco. split; [rewrite Hc, Hh; exact Hcancel|].
      exists a, b, []. rewrite app_nil_r. unfold handler_printed. rewrite Hh, Ho.
      split; [exact Hout|]. split.
      - eapply before_exit_more; eauto. rewrite Hr. lia.
      - unfold ending. rewrite Hs, Est. reflexivity. }
    destruct (coord p) eqn:Ec; try (destruct (ticker_ready p); [discriminate|]);
      injection H as <-; apply Hsame; simpl; auto; try tauto;
      rewrite ?Ec; split; intros; discriminate.
  - assert (Hprint : forall x tick st,
              (coord p <> CoordAnnounce ->
               exists ns,
                 StronglySorted le ns
                 /\ Forall (fun n => n <= length (results p)) ns
                 /\ ((a ++ b) ++ x)%list
                    = announcement w :: progress_lines (main_totalIPs p) ns) ->
              (coord p = CoordAnnounce -> x = [announcement w]) ->
              st = Running ->
              (mainCtx_cancelled (main_prints p x tick st) = true
               <-> handler (main_prints p x tick st) = HandlerEnd)
              /\ exists a0 b0 e0,
                   stdout (main_prints p x tick st)
                   = (a0 ++ handler_printed (main_prints p x tick st) ++ b0 ++ e0)%list
                   /\ before_exit w (main_prints p x tick st) (a0 ++ b0)
                   /\ ending (main_prints p x tick st) e0).
    { intros x tick st Hx Hfirst ->. split; [exact Hcancel|].
      exists a, (b ++ x)%list, []. simpl. rewrite app_nil_r. split.
      - rewrite Hout. unfold handler_printed. simpl. rewrite <- !app_assoc. reflexivity.
      - split; [|reflexivity]. unfold before_exit in *. simpl.
        rewrite app_assoc.
        destruct (coord p) eqn:Ec.
        + destruct Hbefore as [_ Hnil]. rewrite Hnil, (Hfirst eq_refl). simpl.
          exists []. split; [constructor|]. split; [constructor|reflexivity].
        + apply Hx. discriminate.
        + apply Hx. discriminate.
        + apply Hx. discriminate. }
    assert (Hleave : forall x tick,
              coord p <> CoordAnnounce ->
              ending (main_prints p x tick (Exited 0)) x ->
              (mainCtx_cancelled (main_prints p x tick (Exited 0)) = true
               <-> handler (main_prints p x tick (Exited 0)) = HandlerEnd)
              /\ exists a0 b0 e0,
                   stdout (main_prints p x tick (Exited 0))
                   = (a0 ++ handler_printed (main_prints p x tick (Exited 0)) ++ b0 ++ e0)%list
                   /\ before_exit w (main_prints p x tick (Exited 0)) (a0 ++ b0)
                   /\ ending (main_prints p x tick (Exited 0)) e0).
    { intros x tick Hne Hx. split; [exact Hcancel|].
      exists a, b, x. simpl. split.
      - rewrite Hout. unfold handler_printed. simpl. rewrite <- !app_assoc. reflexivity.
      - split; [|exact Hx]. unfold before_exit in *. simpl.
        destruct (coord p); [congruence| | |]; exact Hbefore. }
    assert (Hcase : forall k tick,
              coord p <> CoordAnnounce ->
              (k = CaseCtxDone -> mainCtx_cancelled p = true) ->
              (k = CaseDone -> done_closed p = true) ->
              (mainCtx_cancelled (run_case w k tick p) = true
               <-> handler (run_case w k tick p) = HandlerEnd)
              /\ exists a0 b0 e0,
                   stdout (run_case w k tick p)
                   = (a0 ++ handler_printed (run_case w k tick p) ++ b0 ++ e0)%list
                   /\ before_exit w (run_case w k tick p) (a0 ++ b0)
                   /\ ending (run_case w k tick p) e0).
    { intros k tick Hne Hctx Hdone. destruct k; unfold run_case.
      - apply Hleave; [exact Hne|]. unfold ending. simpl.
        split; [reflexivity|]. left. split; [apply Hctx|]; reflexivity.
      - apply Hleave; [exact Hne|]. unfold ending. simpl.
        split; [reflexivity|]. right. split; [apply Hdone|]; reflexivity.
      - apply Hprint; auto; [|intros; contradiction].
        intros _. unfold before_exit in Hbefore.
        assert (Hb : exists ns,
                   StronglySorted le ns
                   /\ Forall (fun n => n <= length (results p)) ns
                   /\ (a ++ b)%list = announcement w :: progress_lines (main_totalIPs p) ns)
          by (destruct (coord p); [congruence| | |]; exact Hbefore).
        destruct Hb as (ns & Hs & Hb & Ho).
        exists (ns ++ [length (results p)])%list.
        split; [apply sorted_snoc; assumption|]. split.
        + apply Forall_app. split; [exact Hb|]. constructor; [lia|constructor].
        + rewrite Ho, progress_lines_snoc. reflexivity. }
    unfold step_main in H.
    destruct (coord p) eqn:Ec.
    + injection H as <-. apply Hprint; auto.
      intros Hne. congruence.
    + destruct (ready p CaseCtxDone || ready p CaseDone || ready p CaseTicker)%bool.
      * destruct (ready p c) eqn:Hr; [|discriminate].
        injection H as <-.
        apply Hcase; [discriminate|intros ->; exact Hr|intros ->; exact Hr].
      * injection H as <-. simpl. split; [exact Hcancel|].
        exists a, b, []. rewrite app_nil_r. split; [exact Hout|].
        split; [|unfold ending; simpl; rewrite Est; reflexivity].
        unfold before_exit in *. simpl. rewrite Ec in Hbefore. exact Hbefore.
    + discriminate.
    + injection H as <-.
      unfold coord_ok in Hcoord. rewrite Est, Ec in Hcoord.
      destruct Hcoord as [_ Hwoken].
      apply Hcase; [discriminate|intros ->; exact Hwoken|intros ->; exact Hwoken].
Qed.

Lemma output_reachable (l : Launch) (sched : list mtid) :
  output_ok w (prun w sched (boot l)).
Proof.
  assert (H : coord_ok (prun w sched (boot l)) /\ output_ok w (prun w sched (boot l))).
  { apply (prun_invariant w (fun p => coord_ok p /\ output_ok w p)).
    - intros m p p' [Hc Ho] Hstep. split.
      + eapply coord_step; eauto.
      + eapply output_step; eauto.
    - split; [split; [reflexivity|exact I]|].
      unfold output_ok, boot. simpl. split.
      + split; discriminate.
      + exists [], [], []. repeat split. }
  apply H.
Qed.

End Flow.

Lemma main_launched (w : World) (sched : list mtid) (calls : list Call)
    (cli : CLI) (l : Launch) :
  startup w = StartLaunched calls cli l -> main w sched = prun w sched (boot l).
Proof. unfold main. intros ->. reflexivity. Qed.

Lemma launched_total (w : World) (calls : list Call) (cli : CLI) (l : Launch) :
  startup w = StartLaunched calls cli l -> totalIPs l = length (started l).
Proof.
  unfold startup. destruct (kong_Parse w) as [| |c]; try discriminate.
  destruct (validateInput w (CLI_Target c)) as [calls1 [err|]]; [discriminate|].
  destruct (resolve w (CLI_Target c)) as [calls2 [ips|err]]; [|discriminate].
  intros H. injection H as _ _ <-. unfold launch. rewrite launch_from. simpl.
  rewrite length_map. reflexivity.
Qed.

Lemma sent_exact (w : World) (ip : string) (isIPv6 : bool) (sched : list tid)
    (r : Result) :
  In r (resultChan (lookupIP w ip isIPv6 sched)) ->
  resultChan (lookupIP w ip isIPv6 sched) = [r] /\ key r = (ip, isIPv6).
Proof.
  intros Hin. pose proof (sent_is_result w ip isIPv6 sched r Hin) as ->.
  destruct (counts_parent_reachable w ip isIPv6 sched) as [_ Hp].
  destruct (identity_reachable w ip isIPv6 sched) as [Hip Hv6].
  unfold parent_ok in Hp. unfold key. rewrite Hip, Hv6. split; [|reflexivity].
  destruct (parent (lookupIP w ip isIPv6 sched)); unpack;
    try assumption;
    match goal with E : resultChan _ = [] |- _ => rewrite E in Hin; contradiction end.
Qed.

Lemma sent_from (w : World) (sts : list (string * bool))
    (ls : list (string * Task)) (r : Result) :
  Forall2 (runs_of w) sts ls -> In r (sent_records ls) ->
  In (key r) sts
  /\ exists sched,
       resultChan (lookupIP w (Result_IP r) (Result_IsIPv6 r) sched) = [r].
Proof.
  unfold sent_records. intros Hruns Hin. apply in_flat_map in Hin.
  destruct Hin as (a & Ha & Hr).
  destruct (Forall2_in_right _ _ _ _ Hruns Ha) as (st & Hst & _ & sched & Hs).
  rewrite Hs in Hr. destruct (sent_exact _ _ _ _ _ Hr) as [Hone Hkey].
  rewrite Hkey, <- surjective_pairing. split; [exact Hst|].
  exists sched. unfold key in Hkey. rewrite (surjective_pairing st) in Hkey.
  injection Hkey as -> ->. exact Hone.
Qed.

Lemma sent_length (w : World) (sts : list (string * bool))
    (ls : list (string * Task)) :
  Forall2 (runs_of w) sts ls -> length (sent_records ls) <= length sts.
Proof.
  unfold sent_records. induction 1 as [|st a sts ls Hst H IH]; simpl; [lia|].
  rewrite length_app. pose proof (runs_of_sent_once w st a Hst). lia.
Qed.

Lemma sent_all (w : World) (sts : list (string * bool))
    (ls : list (string * Task)) :
  Forall2 (runs_of w) sts ls -> wg_zero ls = true ->
  map key (sent_records ls) = sts
  /\ Forall (fun a => parent (snd a) = ParentEnd
                      /\ resultChan (snd a) = [result (snd a)]) ls.
Proof.
  unfold sent_records, wg_zero.
  induction 1 as [|st a sts ls Hst H IH]; simpl; intros Hz; [split; constructor|].
  apply andb_true_iff in Hz. destruct Hz as [Ha Hz].
  destruct (IH Hz) as [IH1 IH2].
  destruct (runs_of_done_stuck w st a GPtr Hst Ha) as (Hp & Hr & _).
  split; [|constructor; [split; assumption|exact IH2]].
  rewrite Hr. simpl. rewrite IH1. f_equal.
  destruct Hst as [_ [sched Hs]].
  assert (Hin : In (result (snd a)) (resultChan (lookupIP w (fst st) (snd st) sched)))
    by (rewrite <- Hs, Hr; left; reflexivity).
  destruct (sent_exact _ _ _ _ _ Hin) as [_ Hkey].
  rewrite Hkey. symmetry. apply surjective_pairing.
Qed.

Lemma collected_bound (w : World) (l : Launch) (p : Process) :
  flow_ok w l p ->
  length (results p) + length (main_resultChan p) <= length (started l).
Proof.
  intros (Hruns & _ & Hperm & _). rewrite <- length_app.
  rewrite (Permutation_length Hperm). eapply sent_length; eauto.
Qed.

Lemma closed_stuck (w : World) (l : Launch) (p : Process) (i : nat) (t : tid) :
  flow_ok w l p -> resultChan_closed p = true -> step_lookup w i t p = None.
Proof.
  intros (Hruns & _ & _ & _ & Hclosed & _) Hc. specialize (Hclosed Hc).
  unfold step_lookup. destruct (nth_error (lookups p) i) as [[ip tk]|] eqn:Hn;
    [|reflexivity].
  pose proof (nth_error_In _ _ Hn) as Hin.
  unfold wg_zero in Hclosed. rewrite forallb_forall in Hclosed.
  specialize (Hclosed _ Hin).
  destruct (Forall2_in_right _ _ _ _ Hruns Hin) as (st & _ & Hst).
  destruct (runs_of_done_stuck w st (ip, tk) t Hst Hclosed) as (Hp & _ & Hnone).
  simpl in *. rewrite Hp, Hnone. destruct t; reflexivity.
Qed.

Lemma done_complete (w : World) (l : Launch) (p : Process) :
  flow_ok w l p -> done_closed p = true ->
  Permutation (map key (results p)) (started l).
Proof.
  intros (Hruns & _ & Hperm & _ & Hclosed & Hdone) Hd.
  destruct (Hdone Hd) as [Hc Hnil]. rewrite Hnil, app_nil_r in Hperm.
  destruct (sent_all w _ _ Hruns (Hclosed Hc)) as [Hkeys _].
  rewrite <- Hkeys. apply Permutation_map. exact Hperm.
Qed.

(** X8. In a process that has started its lookups, at every moment and
    under every interleaving: the records collected so far and those waiting
    in the channel are together the records the [lookupIP] goroutines have
    sent, each once; each was sent by a [lookupIP] of a kept address, as the
    one record of that run; the channel never holds more than ten, and the
    number collected never passes the total the progress line shows, which
    is the number of goroutines started. *)
Theorem records_in_transit (w : World) (sched : list mtid) (calls : list Call)
    (cli : CLI) (l : Launch) :
  startup w = StartLaunched calls cli l ->
  let p := main w sched in
  Permutation (results p ++ main_resultChan p) (sent_records (lookups p))
  /\ (forall r,
        In r (results p ++ main_resultChan p) ->
        In (key r) (started l)
        /\ exists sched',
             resultChan (lookupIP w (Result_IP r) (Result_IsIPv6 r) sched') = [r])
  /\ length (main_resultChan p) <= resultChan_cap
  /\ length (results p) + length (main_resultChan p) <= main_totalIPs p
  /\ main_totalIPs p = length (started l).
Proof.
  intros Hs. cbv zeta. rewrite (main_launched _ _ _ _ _ Hs).
  pose proof (flow_reachable w l sched) as Hflow.
  pose proof (collected_bound _ _ _ Hflow) as Hbound.
  destruct Hflow as (Hruns & Htot & Hperm & Hcap & _).
  rewrite Htot, (launched_total _ _ _ _ Hs).
  split; [exact Hperm|]. split; [|split; [exact Hcap|split; [exact Hbound|reflexivity]]].
  intros r Hin. eapply sent_from; [exact Hruns|].
  eapply Permutation_in; eauto.
Qed.

(** X9. The two channels are closed in order.  When the channel of records
    is closed every [lookupIP] has sent its record and returned, and none of
    its threads can move again: nothing is sent on a closed channel.  When
    [done] is closed the channel of records is closed and empty, and the
    records collected are those of the kept addresses, one for each. *)
Theorem channels_close_in_order (w : World) (sched : list mtid)
    (calls : list Call) (cli : CLI) (l : Launch) :
  startup w = StartLaunched calls cli l ->
  let p := main w sched in
  (resultChan_closed p = true ->
   Forall (fun a => parent (snd a) = ParentEnd
                    /\ resultChan (snd a) = [result (snd a)]) (lookups p)
   /\ forall i t, step_lookup w i t p = None)
  /\ (done_closed p = true ->
      resultChan_closed p = true /\ main_resultChan p = []
      /\ Permutation (map key (results p)) (started l)).
Proof.
  intros Hs. cbv zeta. rewrite (main_launched _ _ _ _ _ Hs).
  pose proof (flow_reachable w l sched) as Hflow. split.
  - intros Hc. split; [|intros i t; eapply closed_stuck; eauto].
    destruct Hflow as (Hruns & _ & _ & _ & Hclosed & _).
    apply (sent_all w _ _ Hruns (Hclosed Hc)).
  - intros Hd. pose proof (done_complete _ _ _ Hflow Hd) as Hperm.
    destruct Hflow as (_ & _ & _ & _ & _ & Hdone).
    destruct (Hdone Hd) as [Hc Hnil]. auto.
Qed.

(** X10. What a started process prints, whatever the interleaving.  The
    handler prints its notice once, when the signal comes, and the context
    is cancelled by it alone.  Leaving that notice out, main prints: nothing
    before line 293; then the announcement and progress lines, whose counts
    never fall and never pass the total, the number of goroutines started;
    and on its way out either the cancellation notice, which is then the
    last line and comes after the notice of the handler, or the clearing
    line and the records collected. *)
Theorem stdout_grammar (w : World) (sched : list mtid) (calls : list Call)
    (cli : CLI) (l : Launch) :
  startup w = StartLaunched calls cli l ->
  let p := main w sched in
  let total := length (started l) in
  (mainCtx_cancelled p = true <-> handler p = HandlerEnd)
  /\ exists a b ns,
       StronglySorted le ns
       /\ Forall (fun n => n <= total) ns
       /\ match status p with
          | Running =>
              stdout p = (a ++ handler_printed p ++ b)%list
              /\ ((coord p = CoordAnnounce /\ (a ++ b)%list = [])
                  \/ (coord p <> CoordAnnounce
                      /\ (a ++ b)%list
                         = announcement w :: progress_lines total ns))
          | Exited code =>
              code = 0%Z
              /\ (a ++ b)%list = announcement w :: progress_lines total ns
              /\ ((mainCtx_cancelled p = true
                   /\ stdout p
                      = (a ++ [PrintText interrupt_notice] ++ b
                           ++ [PrintText cancel_notice])%list)
                  \/ (done_closed p = true
                      /\ rendered (stdout p) = results p
                      /\ exists a' b',
                           stdout p = (a' ++ handler_printed p ++ b')%list
                           /\ (a' ++ b')%list
                              = ((a ++ b) ++ PrintText clear_line
                                   :: map PrintResult (results p))%list))
          end.
Proof.
  intros Hs. cbv zeta. rewrite (main_launched _ _ _ _ _ Hs).
  pose proof (flow_reachable w l sched) as Hflow.
  pose proof (collected_bound _ _ _ Hflow) as Hbound.
  destruct Hflow as (_ & Htot & _).
  destruct (output_reachable w l sched) as (Hcancel & a & b & e & Hout & Hbefore & Hend).
  rewrite (launched_total _ _ _ _ Hs) in Htot.
  set (p := prun w sched (boot l)) in *.
  split; [exact Hcancel|].
  assert (Hns : coord p <> CoordAnnounce ->
                exists ns,
                  StronglySorted le ns
                  /\ Forall (fun n => n <= length (started l)) ns
                  /\ (a ++ b)%list = announcement w :: progress_lines (length (started l)) ns).
  { intros Hne. unfold before_exit in Hbefore.
    assert (Hb : exists ns,
               StronglySorted le ns
               /\ Forall (fun n => n <= length (results p)) ns
               /\ (a ++ b)%list = announcement w :: progress_lines (main_totalIPs p) ns)
      by (destruct (coord p); [congruence| | |]; exact Hbefore).
    destruct Hb as (ns & Hsorted & Hle & Ho). exists ns.
    split; [exact Hsorted|]. split; [|rewrite <- Htot; exact Ho].
    eapply Forall_impl; [|exact Hle]. simpl. intros; lia. }
  unfold ending in Hend. destruct (status p) eqn:Est.
  - subst e. rewrite app_nil_r in Hout.
    destruct (coord p) eqn:Ec.
    + exists a, b, []. split; [constructor|]. split; [constructor|].
      split; [exact Hout|]. left. split; [reflexivity|].
      unfold before_exit in Hbefore. rewrite Ec in Hbefore. apply Hbefore.
    + destruct Hns as (ns & H1 & H2 & H3); [discriminate|]. exists a, b, ns.
      repeat split; auto. right. split; [discriminate|exact H3].
    + destruct Hns as (ns & H1 & H2 & H3); [discriminate|]. exists a, b, ns.
      repeat split; auto. right. split; [discriminate|exact H3].
    + destruct Hns as (ns & H1 & H2 & H3); [discriminate|]. exists a, b, ns.
      repeat split; auto. right. split; [discriminate|exact H3].
  - destruct Hend as [-> Hend].
    assert (Hne : coord p <> CoordAnnounce).
    { intros Ec. unfold before_exit in Hbefore. rewrite Ec in Hbefore.
      destruct Hbefore as [Hrun _]. congruence. }
    destruct (Hns Hne) as (ns & H1 & H2 & H3). exists a, b, ns.
    split; [exact H1|]. split; [exact H2|]. split; [reflexivity|].
    split; [exact H3|].
    destruct Hend as [[Hc ->]|[Hd ->]].
    + left. split; [exact Hc|]. rewrite Hout. unfold handler_printed.
      apply Hcancel in Hc. rewrite Hc. reflexivity.
    + right. split; [exact Hd|]. split.
      * rewrite Hout, !rendered_app.
        assert (Hr : rendered (a ++ b) = []).
        { rewrite H3. simpl. unfold progress_lines. clear.
          induction ns as [|n ns IH]; simpl; auto. }
        rewrite rendered_app in Hr. apply app_eq_nil in Hr. destruct Hr as [-> ->].
        unfold handler_printed. simpl. rewrite rendered_results.
        destruct (handler p); reflexivity.
      * exists a, (b ++ PrintText clear_line :: map PrintResult (results p))%list.
        split; [exact Hout|]. rewrite app_assoc. reflexivity.
Qed.

(** ** The process: it can always end *)

Lemma finished_returned (w : World) (ip : string) (isIPv6 : bool) (sched : list tid) :
  finished w ip (lookupIP w ip isIPv6 sched) = true ->
  wg_Done (lookupIP w ip isIPv6 sched) = 1.
Proof.
  destruct (counts_parent_reachable w ip isIPv6 sched) as [Hc Hp].
  intros Hfin. unfold parent_ok in Hp.
  pose proof (finished_stuck w ip _ Parent Hfin) as Hpar.
  pose proof (finished_stuck w ip _ GPtr Hfin) as Hg1.
  pose proof (finished_stuck w ip _ GInfo Hfin) as Hg2.
  pose proof (finished_stuck w ip _ GILine Hfin) as Hg3.
  unfold counts_ok in Hc.
  cbn [step] in *. unfold step_parent in Hpar.
  unfold step_ptr in Hg1. unfold step_info, step_app in Hg2.
  unfold step_iline, step_app in Hg3.
  destruct (parent (lookupIP w ip isIPv6 sched)); try discriminate; [|apply Hp].
  destruct (ptr (lookupIP w ip isIPv6 sched)) as [|[?|?]| |]; try discriminate.
  destruct (info (lookupIP w ip isIPv6 sched)) as [|[?|?]|?|?| |]; try discriminate;
    try (destruct (Result_Error (result (lookupIP w ip isIPv6 sched))); discriminate).
  destruct (iline (lookupIP w ip isIPv6 sched)) as [|[?|?]|?|?| |]; try discriminate;
    try (destruct (Result_Error (result (lookupIP w ip isIPv6 sched))); discriminate).
  simpl in Hc. rewrite Hc in Hpar. discriminate.
Qed.

Lemma nth_replace_same {A : Type} (i : nat) (l : list A) (a x : A) :
  nth_error l i = Some x -> nth_error (replace_nth i l a) i = Some a.
Proof.
  revert i. induction l as [|y l IH]; intros i H; destruct i; simpl in *;
    try discriminate; auto.
Qed.

Lemma replace_replace {A : Type} (i : nat) (l : list A) (a b : A) :
  replace_nth i (replace_nth i l a) b = replace_nth i l b.
Proof.
  revert i. induction l as [|y l IH]; intros i; destruct i; simpl; auto.
  rewrite IH. reflexivity.
Qed.

Lemma replace_same {A : Type} (i : nat) (l : list A) (a : A) :
  nth_error l i = Some a -> replace_nth i l a = l.
Proof.
  revert i. induction l as [|y l IH]; intros i H; destruct i; simpl in *;
    try discriminate; auto.
  - injection H as ->. reflexivity.
  - rewrite IH by assumption. reflexivity.
Qed.

Lemma firstn_replace {A : Type} (i : nat) (l : list A) (a x : A) :
  nth_error l i = Some x ->
  firstn (S i) (replace_nth i l a) = (firstn i l ++ [a])%list.
Proof.
  revert i. induction l as [|y l IH]; intros i H; destruct i; simpl in *;
    try discriminate; auto.
  rewrite <- (IH i H). reflexivity.
Qed.

Lemma flat_map_head {A B : Type} (f : A -> list B) (x : A) (l : list A) :
  flat_map f (x :: l) = (f x ++ flat_map f l)%list.
Proof. reflexivity. Qed.

Lemma forallb_one {A : Type} (f : A -> bool) (x : A) : forallb f [x] = f x.
Proof. simpl. apply andb_true_r. Qed.

Section Completion.
Variable w : World.

Lemma prun_exited (sched : list mtid) (p : Process) (code : Z) :
  status p = Exited code -> prun w sched p = p.
Proof.
  intros H. induction sched as [|m sched IH]; simpl; [reflexivity|].
  unfold pstep. rewrite H. exact IH.
Qed.

Lemma flow_run (l : Launch) (sched : list mtid) (p : Process) :
  flow_ok w l p -> flow_ok w l (prun w sched p).
Proof. apply prun_invariant. intros; eapply flow_step; eauto. Qed.

Lemma coord_run (sched : list mtid) (p : Process) :
  coord_ok p -> coord_ok (prun w sched p).
Proof. apply prun_invariant. intros; eapply coord_step; eauto. Qed.

Lemma quiet_step (m : mtid) (p p' : Process) :
  quiet m = true -> pstep w m p = Some p' -> handler p' = handler p.
Proof.
  intros Hq H. destruct m; try discriminate; break_pstep H; reflexivity.
Qed.

Lemma quiet_run (sched : list mtid) (p : Process) :
  forallb quiet sched = true -> handler (prun w sched p) = handler p.
Proof.
  revert p. induction sched as [|m sched IH]; intros p Hq; simpl in *; [reflexivity|].
  apply andb_true_iff in Hq. destruct Hq as [Hm Hq]. rewrite (IH _ Hq).
  destruct (pstep w m p) eqn:E; [eapply quiet_step; eauto|reflexivity].
Qed.

Lemma collector_room (p : Process) :
  status p = Running -> length (main_resultChan p) <= resultChan_cap ->
  let p1 := match pstep w Collector p with Some p' => p' | None => p end in
  status p1 = Running /\ lookups p1 = lookups p
  /\ length (main_resultChan p1) < resultChan_cap.
Proof.
  intros Hst Hcap. unfold pstep, step_collector. rewrite Hst.
  unfold resultChan_cap in *.
  destruct (main_resultChan p) as [|r rest] eqn:Ec; simpl in *.
  - destruct (resultChan_closed p && negb (done_closed p))%bool; simpl;
      rewrite ?Ec; simpl; repeat split; auto; lia.
  - repeat split; auto; lia.
Qed.

Lemma lookup_moves (i : nat) (t : tid) (ip : string) (tk : Task) (p : Process) :
  status p = Running -> length (main_resultChan p) < resultChan_cap ->
  nth_error (lookups p) i = Some (ip, tk) ->
  let p2 := match pstep w (InLookup i t) p with Some p' => p' | None => p end in
  status p2 = Running /\ length (main_resultChan p2) <= resultChan_cap
  /\ lookups p2
     = replace_nth i (lookups p)
         (ip, match step w ip t tk with Some tk' => tk' | None => tk end).
Proof.
  intros Hst Hroom Hn. cbv zeta.
  destruct (pstep w (InLookup i t) p) as [p'|] eqn:E.
  - unfold pstep in E. rewrite Hst in E. apply step_lookup_inv in E.
    destruct E as (ip0 & tk0 & tk' & Hn' & Hstep & -> & _).
    rewrite Hn in Hn'. injection Hn' as <- <-. rewrite Hstep. simpl.
    split; [exact Hst|]. split; [|reflexivity].
    rewrite length_app. unfold sends. destruct t, (parent tk); simpl; lia.
  - split; [exact Hst|]. split; [lia|].
    unfold pstep in E. rewrite Hst in E. unfold step_lookup in E. rewrite Hn in E.
    apply Nat.ltb_lt in Hroom.
    assert (Hnone : step w ip t tk = None).
    { destruct t, (parent tk); rewrite ?Hroom in E;
        destruct (step w ip _ tk); try discriminate; reflexivity. }
    rewrite Hnone. symmetry. apply replace_same. exact Hn.
Qed.

Lemma drained_runs (i : nat) (ip : string) (ts : list tid) :
  forall (p : Process) (tk : Task),
    status p = Running -> length (main_resultChan p) <= resultChan_cap ->
    nth_error (lookups p) i = Some (ip, tk) ->
    let p' := prun w (drained i ts) p in
    status p' = Running
    /\ lookups p' = replace_nth i (lookups p) (ip, run w ip ts tk).
Proof.
  induction ts as [|t ts IH]; intros p tk Hst Hcap Hn; cbv zeta.
  - simpl. split; [exact Hst|]. symmetry. apply replace_same. exact Hn.
  - change (drained i (t :: ts)) with (Collector :: InLookup i t :: drained i ts).
    change (prun w (Collector :: InLookup i t :: drained i ts) p)
      with (prun w (drained i ts)
              (match pstep w (InLookup i t)
                       (match pstep w Collector p with Some p' => p' | None => p end)
               with Some p' => p'
               | None => match pstep w Collector p with Some p' => p' | None => p end
               end)).
    destruct (collector_room p Hst Hcap) as (Hst1 & Hl1 & Hroom).
    set (p1 := match pstep w Collector p with Some p' => p' | None => p end) in *.
    rewrite <- Hl1 in Hn.
    destruct (lookup_moves i t ip tk p1 Hst1 Hroom Hn) as (Hst2 & Hcap2 & Hl2).
    set (p2 := match pstep w (InLookup i t) p1 with Some p' => p' | None => p1 end) in *.
    assert (Hn2 : nth_error (lookups p2) i
                  = Some (ip, match step w ip t tk with Some tk' => tk' | None => tk end)).
    { rewrite Hl2. eapply nth_replace_same; eauto. }
    destruct (IH p2 _ Hst2 Hcap2 Hn2) as (Hst3 & Hl3).
    split; [exact Hst3|]. rewrite Hl3, Hl2, replace_replace, Hl1. reflexivity.
Qed.

Lemma runs_of_finish (st : string * bool) (ip : string) (tk : Task) :
  runs_of w st (ip, tk) ->
  returned (ip, run w ip (rounds 16) tk) = true.
Proof.
  intros [Hip [sched Hs]]. cbn [fst snd] in *. subst ip tk.
  unfold returned. cbn [fst snd]. unfold lookupIP. rewrite <- run_app.
  change (run w (fst st) (sched ++ rounds 16) (spawn (fst st) (snd st)))
    with (lookupIP w (fst st) (snd st) (sched ++ rounds 16)).
  rewrite finished_returned; [reflexivity|].
  unfold lookupIP. rewrite run_app. apply rounds_finish.
  etransitivity; [apply run_fuel|]. unfold fuel; simpl; lia.
Qed.

Lemma every_lookup_returns (l : Launch) (n : nat) :
  forall (j : nat) (p : Process),
    status p = Running -> flow_ok w l p ->
    j + n = length (lookups p) ->
    forallb returned (firstn j (lookups p)) = true ->
    let p' := prun w (flat_map (fun i => drained i (rounds 16)) (seq j n)) p in
    status p' = Running /\ wg_zero (lookups p') = true.
Proof.
  induction n as [|n IH]; intros j p Hst Hflow Hlen Hdone; cbv zeta.
  - simpl. split; [exact Hst|].
    rewrite firstn_all2 in Hdone by lia. exact Hdone.
  - rewrite <- cons_seq, flat_map_head, prun_app.
    destruct (nth_error (lookups p) j) as [[ip tk]|] eqn:Hn;
      [|apply nth_error_None in Hn; lia].
    assert (Hcap : length (main_resultChan p) <= resultChan_cap) by apply Hflow.
    destruct (drained_runs j ip (rounds 16) p tk Hst Hcap Hn) as (Hst1 & Hl1).
    set (p1 := prun w (drained j (rounds 16)) p) in *.
    apply IH.
    + exact Hst1.
    + apply flow_run. exact Hflow.
    + rewrite Hl1, replace_nth_length. lia.
    + rewrite Hl1, (firstn_replace _ _ _ _ Hn), forallb_app, Hdone.
      destruct Hflow as (Hruns & _).
      destruct (Forall2_in_right _ _ _ _ Hruns (nth_error_In _ _ Hn)) as (st & _ & Hr).
      rewrite forallb_one, (runs_of_finish st ip tk Hr). reflexivity.
Qed.

Lemma channel_drains (n : nat) :
  forall p : Process,
    status p = Running -> resultChan_closed p = true ->
    length (main_resultChan p) <= n ->
    let p' := prun w (repeat Collector (S n)) p in
    status p' = Running /\ done_closed p' = true.
Proof.
  induction n as [|n IH]; intros p Hst Hc Hlen; cbv zeta.
  - simpl. unfold pstep, step_collector. rewrite Hst.
    destruct (main_resultChan p); [|simpl in Hlen; lia]. rewrite Hc. simpl.
    destruct (done_closed p) eqn:Hd; simpl; auto.
  - change (repeat Collector (S (S n)))
      with ([Collector] ++ repeat Collector (S n))%list.
    rewrite prun_app.
    assert (H1 : status (prun w [Collector] p) = Running
                 /\ resultChan_closed (prun w [Collector] p) = true
                 /\ length (main_resultChan (prun w [Collector] p)) <= n).
    { simpl. unfold pstep, step_collector. rewrite Hst.
      destruct (main_resultChan p) as [|r rest] eqn:Ec.
      - rewrite Hc. destruct (done_closed p); simpl; rewrite ?Ec; simpl;
          repeat split; auto; lia.
      - simpl in *. repeat split; auto; lia. }
    destruct H1 as (H1 & H2 & H3). apply IH; assumption.
Qed.

Lemma main_takes_done (p : Process) :
  status p = Running -> coord_ok p -> done_closed p = true ->
  exit_code (prun w [Main CaseDone; Main CaseDone] p) = Some 0%Z.
Proof.
  unfold coord_ok. intros Hst Hc Hd.
  destruct p as [ls total chan closed res dn cancelled tick h c out st].
  simpl in *. subst st dn. destruct Hc as [_ Hc].
  destruct c as [| | |[| |]], cancelled, tick; simpl in *; unpack;
    try discriminate; reflexivity.
Qed.

Lemma to_the_end_quiet (k : nat) : forallb quiet (to_the_end k) = true.
Proof.
  unfold to_the_end. rewrite forallb_app. apply andb_true_iff. split.
  - assert (H : forall j, forallb quiet (flat_map (fun i => drained i (rounds 16))
                                            (seq j k)) = true).
    { induction k as [|k IH]; intros j; [reflexivity|].
      rewrite <- cons_seq, flat_map_head, forallb_app, IH, andb_true_r.
      unfold drained. clear IH. induction (rounds 16) as [|t ts IHt]; simpl; auto. }
    apply H.
  - simpl. reflexivity.
Qed.

Lemma to_the_end_ends (l : Launch) (p : Process) :
  flow_ok w l p -> coord_ok p ->
  exit_code (prun w (to_the_end (length (started l))) p) = Some 0%Z.
Proof.
  intros Hflow Hcoord. destruct (status p) as [|code] eqn:Hst.
  - unfold to_the_end. rewrite prun_app.
    assert (Hlen : length (lookups p) = length (started l)).
    { destruct Hflow as (Hruns & _). symmetry. eapply Forall2_length; eauto. }
    destruct (every_lookup_returns l (length (started l)) 0 p Hst Hflow)
      as (Hst1 & Hz); [lia|reflexivity|].
    pose proof (flow_run l (flat_map (fun i => drained i (rounds 16))
                              (seq 0 (length (started l)))) p Hflow) as Hflow1.
    pose proof (coord_run (flat_map (fun i => drained i (rounds 16))
                             (seq 0 (length (started l)))) p Hcoord) as Hcoord1.
    set (p1 := prun w (flat_map (fun i => drained i (rounds 16))
                         (seq 0 (length (started l)))) p) in *.
    change (Waiter :: repeat Collector (S resultChan_cap)
              ++ [Main CaseDone; Main CaseDone])%list
      with ([Waiter] ++ repeat Collector (S resultChan_cap)
              ++ [Main CaseDone; Main CaseDone])%list.
    rewrite !prun_app.
    pose proof (flow_run l [Waiter] p1 Hflow1) as Hflow2.
    pose proof (coord_run [Waiter] p1 Hcoord1) as Hcoord2.
    assert (H2 : status (prun w [Waiter] p1) = Running
                 /\ resultChan_closed (prun w [Waiter] p1) = true).
    { simpl. unfold pstep, step_waiter. rewrite Hst1, Hz. simpl.
      destruct (resultChan_closed p1) eqn:Hc; simpl; auto. }
    set (p2 := prun w [Waiter] p1) in *. destruct H2 as [Hst2 Hc2].
    assert (Hcap : length (main_resultChan p2) <= resultChan_cap) by apply Hflow2.
    destruct (channel_drains resultChan_cap p2 Hst2 Hc2 Hcap) as (Hst3 & Hd3).
    apply main_takes_done; [exact Hst3|apply coord_run; exact Hcoord2|exact Hd3].
  - rewrite (prun_exited _ _ _ Hst). unfold exit_code. rewrite Hst.
    unfold coord_ok in Hcoord. rewrite Hst in Hcoord. destruct Hcoord as [-> _].
    reflexivity.
Qed.

End Completion.

Lemma rendered_progress (w : World) (total : nat) (ns : list nat) :
  rendered (announcement w :: progress_lines total ns) = [].
Proof. simpl. induction ns as [|n ns IH]; simpl; auto. Qed.


Lemma rendered_at_exit (w : World) (l : Launch) (sched : list mtid) (code : Z) :
  let p := prun w sched (boot l) in
  status p = Exited code ->
  (mainCtx_cancelled p = true <-> handler p = HandlerEnd)
  /\ ((mainCtx_cancelled p = true /\ rendered (stdout p) = [])
      \/ (done_closed p = true /\ rendered (stdout p) = results p)).
Proof.
  cbv zeta. intros Est.
  destruct (output_reachable w l sched) as (Hcancel & a & b & e & Hout & Hbefore & Hend).
  split; [exact Hcancel|].
  unfold ending in Hend. rewrite Est in Hend. destruct Hend as [_ Hend].
  assert (Hquiet : rendered (a ++ b) = []).
  { unfold before_exit in Hbefore.
    destruct (coord (prun w sched (boot l)));
      [destruct Hbefore as [Hrun _]; congruence| | |];
      destruct Hbefore as (ns & _ & _ & ->); apply rendered_progress. }
  rewrite rendered_app in Hquiet. apply app_eq_nil in Hquiet.
  destruct Hquiet as [Ha Hb].
  assert (Hh : rendered (handler_printed (prun w sched (boot l))) = [])
    by (unfold handler_printed; destruct (handler (prun w sched (boot l))); reflexivity).
  rewrite Hout, !rendered_app, Ha, Hb, Hh.
  destruct Hend as [[Hc ->]|[Hd ->]]; [left|right]; split; auto.
  simpl. apply rendered_results.
Qed.

(** X11. A started process that has ended either was interrupted, and then
    it printed no record, or it printed one record for each kept address
    and no other: the records printed, taken by address and family, are the
    goroutines started, each once, and each record is the one record that a
    run of [lookupIP] on its address has sent.  A process whose context the
    handler has not cancelled ends the second way. *)
Theorem main_renders_every_address (w : World) (sched : list mtid)
    (calls : list Call) (cli : CLI) (l : Launch) (code : Z) :
  startup w = StartLaunched calls cli l ->
  exit_code (main w sched) = Some code ->
  let p := main w sched in
  let complete :=
    Permutation (map key (rendered (stdout p))) (started l)
    /\ Forall (fun r =>
                 exists sched',
                   resultChan (lookupIP w (Result_IP r) (Result_IsIPv6 r) sched')
                   = [r])
              (rendered (stdout p)) in
  ((handler p = HandlerEnd /\ rendered (stdout p) = []) \/ complete)
  /\ (handler p <> HandlerEnd -> complete).
Proof.
  intros Hs Hexit. cbv zeta. rewrite (main_launched _ _ _ _ _ Hs) in *.
  pose proof (flow_reachable w l sched) as Hflow.
  unfold exit_code in Hexit.
  destruct (status (prun w sched (boot l))) as [|c] eqn:Est; [discriminate|].
  destruct (rendered_at_exit w l sched c Est) as [Hcancel Hcases].
  assert (Hdone : done_closed (prun w sched (boot l)) = true ->
                  rendered (stdout (prun w sched (boot l)))
                  = results (prun w sched (boot l)) ->
                  Permutation (map key (rendered (stdout (prun w sched (boot l)))))
                              (started l)
                  /\ Forall (fun r =>
                               exists sched',
                                 resultChan (lookupIP w (Result_IP r) (Result_IsIPv6 r) sched')
                                 = [r])
                            (rendered (stdout (prun w sched (boot l))))).
  { intros Hd ->. split; [eapply done_complete; eauto|].
    destruct Hflow as (Hruns & _ & Hperm & _).
    apply Forall_forall. intros r Hin.
    eapply sent_from; [exact Hruns|].
    eapply Permutation_in; [exact Hperm|]. apply in_or_app. left. exact Hin. }
  destruct Hcases as [[Hc Hnone]|[Hd Hall]].
  - split.
    + left. split; [apply Hcancel; exact Hc|exact Hnone].
    + intros Hh. apply Hcancel in Hc. contradiction.
  - split; [right|intros _]; apply Hdone; assumption.
Qed.

(** X12. A started process cannot get stuck.  From wherever it is, letting
    each [lookupIP] run its threads sixteen times in turn while the
    collector takes what is sent, then the goroutine that closes the
    channel, the collector until [done] is closed and main twice, ends it
    with status 0; no signal is needed for that, and unless the handler had
    already cancelled the context the process ends with one record printed
    for each kept address. *)
Theorem main_can_always_finish (w : World) (sched : list mtid)
    (calls : list Call) (cli : CLI) (l : Launch) :
  startup w = StartLaunched calls cli l ->
  let q := main w (sched ++ to_the_end (length (started l))) in
  exit_code q = Some 0%Z
  /\ handler q = handler (main w sched)
  /\ (handler (main w sched) <> HandlerEnd ->
      Permutation (map key (rendered (stdout q))) (started l)).
Proof.
  intros Hs. cbv zeta.
  rewrite (main_app _ _ _ _ _ _ Hs), (main_launched _ _ _ _ _ Hs).
  pose proof (to_the_end_ends w l _ (flow_reachable w l sched) (coord_reachable w l sched))
    as Hexit.
  pose proof (quiet_run w (to_the_end (length (started l))) (prun w sched (boot l))
                (to_the_end_quiet _)) as Hquiet.
  split; [exact Hexit|]. split; [exact Hquiet|].
  intros Hh. rewrite <- Hquiet in Hh. rewrite <- prun_app in *.
  unfold exit_code in Hexit.
  destruct (status (prun w (sched ++ to_the_end (length (started l))) (boot l)))
    as [|c] eqn:Est; [discriminate|].
  destruct (rendered_at_exit w l _ c Est) as [Hcancel [[Hc _]|[Hd Hall]]].
  - apply Hcancel in Hc. contradiction.
  - rewrite Hall. eapply done_complete; [apply flow_reachable|exact Hd].
Qed.

Lemma records_in_transit_witness :
  let p := main two_addresses in_flight in
  map key (results p) = [("1.2.3.4", false)]
  /\ length (results p) + length (main_resultChan p) <= 2
  /\ (forall r, In r (results p) ->
        exists sched',
          resultChan (lookupIP two_addresses (Result_IP r) (Result_IsIPv6 r) sched')
          = [r]).
Proof.
  cbv zeta.
  destruct (records_in_transit two_addresses in_flight _ _ _ eq_refl)
    as (_ & Hfrom & _ & Hle & Htot).
  split; [vm_compute; reflexivity|]. split.
  - rewrite Htot in Hle. exact Hle.
  - intros r Hin. apply Hfrom. apply in_or_app. left. exact Hin.
Defined.

Lemma channels_close_in_order_witness :
  let p := main two_addresses (to_the_end 2) in
  resultChan_closed p = true /\ main_resultChan p = []
  /\ Permutation (map key (results p)) [("1.2.3.4", false); ("2001:db8::1", true)].
Proof.
  cbv zeta.
  destruct (channels_close_in_order two_addresses (to_the_end 2) _ _ _ eq_refl)
    as [_ Hdone].
  apply Hdone. vm_compute. reflexivity.
Defined.

Lemma stdout_grammar_witness :
  let p := main two_addresses in_flight in
  exists a b ns,
    Forall (fun n => n <= 2) ns
    /\ stdout p = (a ++ [PrintText interrupt_notice] ++ b)%list
    /\ (a ++ b)%list = announcement two_addresses :: progress_lines 2 ns.
Proof.
  cbv zeta.
  destruct (stdout_grammar two_addresses in_flight _ _ _ eq_refl)
    as (_ & a & b & ns & _ & Hle & Hshape).
  assert (Est : status (main two_addresses in_flight) = Running)
    by (vm_compute; reflexivity).
  assert (Eh : handler_printed (main two_addresses in_flight)
               = [PrintText interrupt_notice])
    by (vm_compute; reflexivity).
  rewrite Est, Eh in Hshape. destruct Hshape as (Hout & [[Hc _]|[_ Hab]]).
  - vm_compute in Hc. discriminate Hc.
  - exists a, b, ns. split; [exact Hle|]. split; [exact Hout|exact Hab].
Defined.

Lemma main_renders_every_address_witness :
  let p := main two_addresses (to_the_end 2) in
  Permutation (map key (rendered (stdout p)))
              [("1.2.3.4", false); ("2001:db8::1", true)].
Proof.
  cbv zeta.
  assert (Hexit : exit_code (main two_addresses (to_the_end 2)) = Some 0%Z)
    by (vm_compute; reflexivity).
  destruct (main_renders_every_address two_addresses (to_the_end 2) _ _ _ _
              eq_refl Hexit) as [_ Hcomplete].
  apply Hcomplete. vm_compute. intros Hh. discriminate Hh.
Defined.

Lemma main_can_always_finish_witness :
  let q := main two_addresses (in_flight ++ to_the_end 2) in
  handler (main two_addresses in_flight) = HandlerPrinted
  /\ exit_code q = Some 0%Z
  /\ Permutation (map key (rendered (stdout q)))
                 [("1.2.3.4", false); ("2001:db8::1", true)].
Proof.
  cbv zeta.
  destruct (main_can_always_finish two_addresses in_flight _ _ _ eq_refl)
    as (Hexit & _ & Hall).
  split; [vm_compute; reflexivity|]. split; [exact Hexit|].
  apply Hall. vm_compute. intros Hh. discriminate Hh.
Defined.

(** ** The process: an interrupt ends it *)

Lemma cancelled_first_turn (w : World) (p : Process) :
  coord_ok p -> mainCtx_cancelled p = true ->
  match status (prun w [Main CaseCtxDone] p) with
  | Exited _ => True
  | Running =>
      mainCtx_cancelled (prun w [Main CaseCtxDone] p) = true
      /\ coord (prun w [Main CaseCtxDone] p) = CoordSelect
  end.
Proof.
  unfold coord_ok. intros Hc Hcancel.
  destruct p as [ls total chan closed res dn cancelled tick h c out st].
  simpl in *. subst cancelled.
  destruct st; [|exact I]. destruct Hc as [_ Hc].
  destruct c as [| | |[| |]]; simpl in *; unpack; try discriminate; auto.
Qed.

Lemma cancelled_select_step (w : World) (m : mtid) (p p' : Process) :
  match status p with
  | Exited _ => True
  | Running => mainCtx_cancelled p = true /\ coord p = CoordSelect
  end ->
  pstep w m p = Some p' ->
  match status p' with
  | Exited _ => True
  | Running => mainCtx_cancelled p' = true /\ coord p' = CoordSelect
  end.
Proof.
  intros H Hstep. unfold pstep in Hstep.
  destruct (status p) eqn:Est; [|discriminate]. destruct H as [Hc Hs].
  destruct m.
  - apply step_lookup_inv in Hstep.
    destruct Hstep as (ip & tk & tk' & _ & _ & -> & _). simpl. rewrite Est. auto.
  - unfold step_waiter in Hstep.
    destruct (wg_zero (lookups p) && negb (resultChan_closed p))%bool; [|discriminate].
    injection Hstep as <-. simpl. rewrite Est. auto.
  - unfold step_collector in Hstep. destruct (main_resultChan p).
    + destruct (resultChan_closed p && negb (done_closed p))%bool; [|discriminate].
      injection Hstep as <-. simpl. rewrite Est, Hs. auto.
    + injection Hstep as <-. simpl. rewrite Est. auto.
  - unfold step_handler in Hstep.
    destruct (handler p); try discriminate; injection Hstep as <-; simpl;
      rewrite Est, ?Hs; auto.
  - unfold step_tick in Hstep. rewrite Hs in Hstep.
    destruct (ticker_ready p); [discriminate|].
    injection Hstep as <-. simpl. rewrite Est. auto.
  - unfold step_main in Hstep. rewrite Hs in Hstep.
    destruct (ready p CaseCtxDone || ready p CaseDone || ready p CaseTicker)%bool
      eqn:Hr.
    + destruct (ready p c); [|discriminate]. injection Hstep as <-.
      destruct c; simpl; auto.
    + unfold ready in Hr. rewrite Hc in Hr. discriminate.
Qed.

Lemma cancelled_last_turn (w : World) (p : Process) :
  match status p with
  | Exited _ => True
  | Running => mainCtx_cancelled p = true /\ coord p = CoordSelect
  end ->
  status (prun w [Main CaseCtxDone] p) <> Running.
Proof.
  intros H. simpl. unfold pstep.
  destruct (status p) eqn:Est; [|rewrite Est; discriminate].
  destruct H as [Hc Hs]. unfold step_main. rewrite Hs. unfold ready. rewrite Hc.
  simpl. discriminate.
Qed.

Lemma cancelled_turn_cases (w : World) (p : Process) :
  coord_ok p -> status p = Running -> mainCtx_cancelled p = true ->
  let p1 := prun w [Main CaseCtxDone] p in
  handler p1 = handler p
  /\ ((status p1 = Running /\ coord p1 = CoordSelect
       /\ mainCtx_cancelled p1 = true
       /\ (stdout p1 = (stdout p ++ [announcement w])%list
           \/ stdout p1
              = (stdout p
                   ++ [PrintText (progress_line (length (results p))
                                                (main_totalIPs p))])%list))
      \/ (status p1 = Exited 0 /\ coord p <> CoordWoken CaseDone
          /\ stdout p1 = (stdout p ++ [PrintText cancel_notice])%list)
      \/ (status p1 = Exited 0 /\ coord p = CoordWoken CaseDone
          /\ stdout p1
             = (stdout p ++ PrintText clear_line
                       :: map PrintResult (results p))%list)).
Proof.
  unfold coord_ok. intros Hc Hst Hcancel.
  destruct p as [ls total chan closed res dn cancelled tick h c out st].
  simpl in *. subst cancelled st. destruct Hc as [_ Hc].
  split; [destruct c as [| | |[| |]]; reflexivity|].
  destruct c as [| | |[| |]]; simpl in *; unpack; try discriminate.
  - left. repeat split. left. reflexivity.
  - right. left. repeat split. discriminate.
  - right. left. repeat split. discriminate.
  - right. right. repeat split.
  - left. repeat split. right. reflexivity.
Qed.

Lemma cancelled_between (w : World) (between : list mtid) :
  forallb not_main between = true ->
  forall p,
    status p = Running -> coord p = CoordSelect ->
    mainCtx_cancelled p = true -> handler p = HandlerEnd ->
    let p2 := prun w between p in
    status p2 = Running /\ coord p2 = CoordSelect
    /\ mainCtx_cancelled p2 = true /\ stdout p2 = stdout p.
Proof.
  induction between as [|m between IH]; intros Hq p Hst Hco Hc Hh; cbv zeta.
  - simpl. auto.
  - simpl in Hq. apply andb_true_iff in Hq. destruct Hq as [Hm Hq]. simpl.
    assert (Hstep : forall p', pstep w m p = Some p' ->
                      status p' = Running /\ coord p' = CoordSelect
                      /\ mainCtx_cancelled p' = true /\ handler p' = HandlerEnd
                      /\ stdout p' = stdout p).
    { intros p' Hp. unfold pstep in Hp. rewrite Hst in Hp. destruct m.
      - apply step_lookup_inv in Hp.
        destruct Hp as (ip & tk & tk' & _ & _ & -> & _). simpl. auto.
      - unfold step_waiter in Hp.
        destruct (wg_zero (lookups p) && negb (resultChan_closed p))%bool;
          [|discriminate].
        injection Hp as <-. simpl. auto.
      - unfold step_collector in Hp. destruct (main_resultChan p).
        + destruct (resultChan_closed p && negb (done_closed p))%bool;
            [|discriminate].
          injection Hp as <-. simpl. rewrite Hco. auto.
        + injection Hp as <-. simpl. auto.
      - unfold step_handler in Hp. rewrite Hh in Hp. discriminate.
      - unfold step_tick in Hp. rewrite Hco in Hp.
        destruct (ticker_ready p); [discriminate|].
        injection Hp as <-. simpl. auto.
      - discriminate. }
    destruct (pstep w m p) as [p'|].
    + destruct (Hstep p' eq_refl) as (H1 & H2 & H3 & H4 & H5).
      destruct (IH Hq p' H1 H2 H3 H4) as (K1 & K2 & K3 & K4).
      rewrite K4, H5. auto.
    + apply IH; assumption.
Qed.

Lemma cancelled_select_leaves (w : World) (p : Process) :
  status p = Running -> coord p = CoordSelect -> mainCtx_cancelled p = true ->
  status (prun w [Main CaseCtxDone] p) = Exited 0
  /\ stdout (prun w [Main CaseCtxDone] p)
     = (stdout p ++ [PrintText cancel_notice])%list.
Proof.
  intros Hst Hco Hc. simpl. unfold pstep, step_main, ready.
  rewrite Hst, Hco, Hc. simpl. split; reflexivity.
Qed.

(** X13. Once the handler has cancelled the context of a started process,
    two turns of main in which the [select] takes the case of the context
    end the process with status 0, whatever ran before and whatever runs
    between them, and even if no lookup ever answers.  When main has not
    returned yet and only the other goroutines run in between, main prints
    at most one line before its last words, the announcement or the
    progress line it was about to print, and its last words are the
    cancellation notice, with no record rendered; unless [done] had
    already woken main, which then renders the records collected. *)
Theorem interrupt_ends_main (w : World) (sched between : list mtid)
    (calls : list Call) (cli : CLI) (l : Launch) :
  startup w = StartLaunched calls cli l ->
  mainCtx_cancelled (main w sched) = true ->
  let p := main w sched in
  let q := main w (sched ++ Main CaseCtxDone :: between ++ [Main CaseCtxDone]) in
  exit_code q = Some 0%Z
  /\ (status p = Running -> forallb not_main between = true ->
      exists x e,
        stdout q = (stdout p ++ x ++ e)%list
        /\ (x = [] \/ x = [announcement w]
            \/ x = [PrintText (progress_line (length (results p))
                                             (main_totalIPs p))])
        /\ ((coord p <> CoordWoken CaseDone
             /\ e = [PrintText cancel_notice] /\ rendered (stdout q) = [])
            \/ (coord p = CoordWoken CaseDone /\ x = []
                /\ e = PrintText clear_line :: map PrintResult (results p)))).
Proof.
  intros Hs Hcancel. cbv zeta.
  change (Main CaseCtxDone :: between ++ [Main CaseCtxDone])%list
    with ([Main CaseCtxDone] ++ between ++ [Main CaseCtxDone])%list.
  rewrite (main_app _ _ _ _ _ _ Hs), !prun_app.
  unfold main in *. rewrite Hs in *.
  pose proof (coord_reachable w l sched) as Hok0.
  destruct (output_reachable w l sched) as [Hhandler _].
  set (p := prun w sched (boot l)) in *.
  split.
  - pose proof (cancelled_first_turn w _ Hok0 Hcancel) as H1.
    set (p1 := prun w [Main CaseCtxDone] p) in *.
    assert (Hok1 : coord_ok p1) by (apply coord_run, Hok0).
    assert (H2 : match status (prun w between p1) with
                 | Exited _ => True
                 | Running =>
                     mainCtx_cancelled (prun w between p1) = true
                     /\ coord (prun w between p1) = CoordSelect
                 end).
    { apply (prun_invariant w (fun p => match status p with
                                        | Exited _ => True
                                        | Running => mainCtx_cancelled p = true
                                                     /\ coord p = CoordSelect
                                        end)); [|exact H1].
      intros m p0 p'. apply cancelled_select_step. }
    apply cancelled_last_turn with (w := w) in H2.
    assert (Hok : coord_ok (prun w [Main CaseCtxDone] (prun w between p1)))
      by (apply coord_run, coord_run, Hok1).
    unfold coord_ok in Hok. unfold exit_code.
    destruct (status (prun w [Main CaseCtxDone] (prun w between p1)));
      [congruence|]. destruct Hok as [-> _]. reflexivity.
  - intros Hst Hquiet.
    assert (Hnone : rendered (stdout p) = []).
    { unfold coord_ok in Hok0. rewrite Hst in Hok0. apply Hok0. }
    destruct (cancelled_turn_cases w p Hok0 Hst Hcancel) as (Hh & Hcases).
    set (p1 := prun w [Main CaseCtxDone] p) in *.
    destruct Hcases as [(Hst1 & Hco1 & Hc1 & Hout1)
                       |[(Hst1 & Hne & Hout1)|(Hst1 & Hwoken & Hout1)]].
    + assert (Hh1 : handler p1 = HandlerEnd)
        by (rewrite Hh; apply Hhandler; exact Hcancel).
      destruct (cancelled_between w between Hquiet p1 Hst1 Hco1 Hc1 Hh1)
        as (Hst2 & Hco2 & Hc2 & Hout2).
      destruct (cancelled_select_leaves w _ Hst2 Hco2 Hc2) as (_ & Hout3).
      assert (Hne : coord p <> CoordWoken CaseDone).
      { intros Hw. unfold p1 in Hst1. simpl in Hst1. unfold pstep in Hst1.
        rewrite Hst in Hst1. unfold step_main in Hst1. rewrite Hw in Hst1.
        simpl in Hst1. discriminate. }
      destruct Hout1 as [Hout1|Hout1].
      * exists [announcement w], [PrintText cancel_notice].
        rewrite Hout3, Hout2, Hout1, <- app_assoc.
        split; [reflexivity|]. split; [auto|]. left.
        split; [exact Hne|]. split; [reflexivity|].
        rewrite !rendered_app, Hnone. reflexivity.
      * exists [PrintText (progress_line (length (results p)) (main_totalIPs p))],
               [PrintText cancel_notice].
        rewrite Hout3, Hout2, Hout1, <- app_assoc.
        split; [reflexivity|]. split; [auto|]. left.
        split; [exact Hne|]. split; [reflexivity|].
        rewrite !rendered_app, Hnone. reflexivity.
    + rewrite (prun_exited w between p1 _ Hst1).
      rewrite (prun_exited w [Main CaseCtxDone] p1 _ Hst1).
      exists [], [PrintText cancel_notice]. rewrite Hout1.
      split; [reflexivity|]. split; [auto|]. left.
      split; [exact Hne|]. split; [reflexivity|].
      rewrite rendered_app, Hnone. reflexivity.
    + rewrite (prun_exited w between p1 _ Hst1).
      rewrite (prun_exited w [Main CaseCtxDone] p1 _ Hst1).
      exists [], (PrintText clear_line :: map PrintResult (results p)).
      rewrite Hout1. split; [reflexivity|]. split; [auto|]. right. auto.
Qed.

Lemma interrupt_ends_main_witness :
  let p := main two_addresses interrupted_printing in
  let q := main two_addresses
             (interrupted_printing
                ++ Main CaseCtxDone :: completed_meanwhile ++ [Main CaseCtxDone]) in
  mainCtx_cancelled p = true
  /\ exit_code q = Some 0%Z
  /\ stdout q = (stdout p ++ [PrintText cancel_notice])%list
  /\ rendered (stdout q) = [].
Proof.
  cbv zeta.
  assert (Hc : mainCtx_cancelled (main two_addresses interrupted_printing) = true)
    by (vm_compute; reflexivity).
  split; [exact Hc|].
  destruct (interrupt_ends_main two_addresses interrupted_printing
              completed_meanwhile _ _ _ eq_refl Hc) as [Hexit Hout].
  split; [exact Hexit|].
  destruct Hout as (x & e & Hq & _ & [(_ & _ & Hr)|(Hw & _)]);
    [vm_compute; reflexivity|reflexivity| |vm_compute in Hw; discriminate Hw].
  split; [vm_compute; reflexivity|exact Hr].
Defined.

End Chick.
